(** * Wallet ledger: the transaction engine and the ledger service

    A shallow embedding of the wallet back end:
    - [sql/init.sql]: the [users] and [transactions] tables with their
      constraints, and the stored procedure [process_transaction];
    - [repositories/transactionRepository.ts], [repositories/userRepository.ts]:
      the queries issued against those tables, with [database.toCamelCase]
      of [database.ts] on the rows they return;
    - [services/userService.ts], [services/walletService.ts]: the service
      operations [creditUser], [debitUser], [processWager], [processPayout].

    Money of SQL type [DECIMAL(15, 2)] is an integer number of cents; the
    amount of a request, a JavaScript [number] that becomes a [numeric]
    parameter, is a decimal of any scale.  The values of these types that
    are no decimals, NaN and the infinities, have the module [AnyNumber]:
    the engine and the four operations once more, on all values.  The id
    of an account is a UUID, and where a caller writes it, a string that
    reads as one.  Strings are taken to fit the [VARCHAR(n)] columns they
    are stored in.  Values the database or the
    runtime generates ([uuid_generate_v4()], [CURRENT_TIMESTAMP],
    [uuidv4()], [Date.now()], [new Date()]) are inputs of the model. *)

From stdpp Require Import gmap strings list pretty sorting.
From Stdlib Require Import ZArith Lia Ascii Sorting.Sorted Sorting.Permutation.

Local Open Scope Z_scope.

(** ** Results of fallible code *)

Inductive result (E A : Type) : Type :=
| Ok (a : A)
| Err (e : E).
Arguments Ok {E A} a.
Arguments Err {E A} e.

Global Instance result_bind {E} : MBind (result E) := λ A B k r,
  match r with
  | Ok a => k a
  | Err e => Err e
  end.

(** Code that reads and writes a state [S] and may raise an [E]: the state
    at the point of the exception is returned with it. *)
Definition stateful (S E A : Type) : Type := S → result E A * S.

Definition ret {S E A} (a : A) : stateful S E A := λ s, (Ok a, s).

Definition throw {S E A} (e : E) : stateful S E A := λ s, (Err e, s).

Definition bind {S E A B} (m : stateful S E A) (k : A → stateful S E B)
    : stateful S E B :=
  λ s, match m s with
       | (Ok a, s') => k a s'
       | (Err e, s') => (Err e, s')
       end.

Definition lift {S E A} (r : result E A) : stateful S E A := λ s, (r, s).

Notation "'let!' x ':=' m 'in' k" := (bind m (fun x => k))
  (at level 10, x name, m at level 100, k at level 200).

(** ** The schema of [sql/init.sql] *)

(** [UUID] columns hold 128-bit identifiers. *)
Abbreviation uuid := N.

(** [TIMESTAMP WITH TIME ZONE]: microseconds since the epoch. *)
Abbreviation timestamp := Z.

Inductive user_status := active | suspended | inactive.
Inductive user_role := player | admin.

(** [CREATE TYPE transaction_type AS ENUM (...)], in declaration order. *)
Inductive transaction_type := credit | debit | wager | payout | bonus | refund.

Global Instance user_status_eq_dec : EqDecision user_status.
Proof. solve_decision. Defined.
Global Instance transaction_type_eq_dec : EqDecision transaction_type.
Proof. solve_decision. Defined.

(** A row of [users]; the key [id] is the key of the table's map. *)
Record user := {
  username : string;
  email : string;
  password_hash : string;
  balance : Z;
  status : user_status;
  role : user_role;
  created_at : timestamp;
  updated_at : timestamp;
  last_login : option timestamp
}.

(** A decimal: [digits * 10^(-places)].  It stands for a JavaScript
    [number] by the decimal expansion JavaScript prints for it, and for a
    PostgreSQL [numeric] of any scale.  The expansion need not be the
    shortest: 100.50 may be [digits := 10050, places := 2]. *)
Record number := {
  digits : Z;
  places : nat
}.

(** A JSON value, as [JSON.stringify] writes the metadata of a request, as
    a [JSONB] column keeps it and as the driver parses it.  An object is a
    finite map: [JSONB] keeps one member for a name, and the order in which
    the members were written is not kept. *)
#[warnings="-register-all"]
Inductive json_value :=
| json_null
| json_bool (b : bool)
| json_number (x : number)
| json_string (s : string)
| json_array (items : list json_value)
| json_obj (members : gmap string json_value).

Coercion json_string : string >-> json_value.

(** The members of a [JSONB] object. *)
Abbreviation json_object := (gmap string json_value).

(** A row of [transactions].  The columns [id], [type] and [created_at]
    are [tx_id], [tx_type] and [tx_created_at] here. *)
Record transaction := {
  tx_id : uuid;
  user_id : uuid;
  transaction_id : string;
  tx_type : transaction_type;
  amount : Z;
  balance_before : Z;
  balance_after : Z;
  description : option string;
  metadata : option json_object;
  processed_at : timestamp;
  tx_created_at : timestamp
}.

(** The two tables.  [transactions] is kept in insertion order. *)
Record database := {
  users : gmap N user;
  transactions : list transaction
}.

(** ** Decimal numbers *)

(** A PostgreSQL [numeric] of any scale is a decimal as well. *)
Abbreviation numeric := number.

(** A value of scale 2, by its number of cents. *)
Definition cents (c : Z) : numeric := {| digits := c; places := 2 |}.

Definition plus (x y : numeric) : numeric :=
  {| digits := digits x * 10 ^ Z.of_nat (places y) + digits y * 10 ^ Z.of_nat (places x);
     places := places x + places y |}.

Definition minus (x y : numeric) : numeric :=
  {| digits := digits x * 10 ^ Z.of_nat (places y) - digits y * 10 ^ Z.of_nat (places x);
     places := places x + places y |}.

(** Rounding to scale 2, as [numeric] rounds: halves away from zero.  The
    result is a number of cents. *)
Definition round_to_cents (x : numeric) : Z :=
  if (places x <=? 2)%nat
  then digits x * 10 ^ Z.of_nat (2 - places x)
  else
    let q := 10 ^ Z.of_nat (places x - 2) in
    Z.sgn (digits x) * ((Z.abs (digits x) + q / 2) / q).

(** [DECIMAL(15, 2)]: at most 13 digits before the point, so fewer than
    [10^15] cents in absolute value. *)
Definition decimal_15_2_limit : Z := 10 ^ 15.

Definition fits_decimal_15_2 (cents : Z) : bool :=
  (- decimal_15_2_limit <? cents) && (cents <? decimal_15_2_limit).

(** What PostgreSQL raises. *)
Inductive db_error :=
| raise_user_not_found (p_user_id : uuid)
    (* RAISE EXCEPTION 'User not found: %' *)
| raise_insufficient_funds (current_balance : Z) (p_amount : numeric)
    (* RAISE EXCEPTION 'Insufficient funds. Current balance: %, ...' *)
| numeric_field_overflow
    (* SQLSTATE 22003, a value does not fit DECIMAL(15, 2) *)
| check_violation (constraint : string)
    (* SQLSTATE 23514 *)
| unique_violation (constraint : string)
    (* SQLSTATE 23505 *).

(** Credit-class and debit-class types, as the [CASE] of
    [process_transaction] and [transaction_balance_consistency] group them. *)
Definition is_credit_class (t : transaction_type) : bool :=
  match t with
  | credit | payout | bonus | refund => true
  | debit | wager => false
  end.

Definition is_debit_class (t : transaction_type) : bool :=
  match t with
  | debit | wager => true
  | credit | payout | bonus | refund => false
  end.

(** Assignment of a [numeric] to a PL/pgSQL variable or to a column
    declared [DECIMAL(15, 2)]: the value is rounded to scale 2 and must
    then fit. *)
Definition assign_decimal_15_2 (v : numeric) : result db_error Z :=
  if fits_decimal_15_2 (round_to_cents v) then Ok (round_to_cents v)
  else Err numeric_field_overflow.

(** The [CASE p_type] block of [process_transaction]: the new balance, or
    the exception.  PostgreSQL drops the type modifier of a parameter, so
    [p_amount] is a [numeric] of any scale; [new_balance] is declared
    [DECIMAL(15, 2)] and rounds what it is assigned.  The [ELSE] branch
    ('Invalid transaction type') has no value of the enum left to reach
    it. *)
Definition compute_new_balance (p_type : transaction_type)
    (current_balance : Z) (p_amount : numeric) : result db_error Z :=
  match p_type with
  | credit | payout | bonus | refund =>
      assign_decimal_15_2 (plus (cents current_balance) p_amount)
  | debit | wager =>
      new_balance ← assign_decimal_15_2 (minus (cents current_balance) p_amount);
      if new_balance <? 0
      then Err (raise_insufficient_funds current_balance p_amount)
      else Ok new_balance
  end.

(** [CONSTRAINT transaction_balance_consistency CHECK (...)]. *)
Definition transaction_balance_consistency (r : transaction) : bool :=
  (is_credit_class (tx_type r) && (balance_after r =? balance_before r + amount r))
  || (is_debit_class (tx_type r) && (balance_after r =? balance_before r - amount r)).

(** The [CHECK] constraints of [transactions], in the order of their
    names, which is the order PostgreSQL evaluates them in. *)
Definition transactions_checks (r : transaction) : result db_error unit :=
  if negb (transaction_balance_consistency r)
  then Err (check_violation "transaction_balance_consistency")
  else if negb (0 <? amount r)
  then Err (check_violation "transactions_amount_check")
  else if negb (0 <=? balance_after r)
  then Err (check_violation "transactions_balance_after_check")
  else if negb (0 <=? balance_before r)
  then Err (check_violation "transactions_balance_before_check")
  else Ok tt.

(** The unique indexes of [transactions]: the primary key and
    [transaction_id VARCHAR(100) UNIQUE]. *)
Definition transactions_unique (rows : list transaction) (r : transaction)
    : result db_error unit :=
  if existsb (fun r' => N.eqb (tx_id r') (tx_id r)) rows
  then Err (unique_violation "transactions_pkey")
  else if existsb (fun r' => String.eqb (transaction_id r') (transaction_id r)) rows
  then Err (unique_violation "transactions_transaction_id_key")
  else Ok tt.

(** PL/pgSQL code: it runs on the two tables. *)
Abbreviation sql := (stateful database db_error).

(** [SELECT balance INTO current_balance FROM users WHERE id = p_user_id
    FOR UPDATE], and [IF NOT FOUND THEN RAISE EXCEPTION]. *)
Definition select_balance_for_update (p_user_id : uuid) : sql Z :=
  λ db, match users db !! p_user_id with
        | Some u => (Ok (balance u), db)
        | None => (Err (raise_user_not_found p_user_id), db)
        end.

(** [INSERT INTO transactions (...) VALUES (...) RETURNING *], for a row
    whose values have the types of the columns: the [CHECK] constraints
    and the unique indexes apply. *)
Definition insert_transaction (r : transaction) : sql transaction :=
  let! _ := lift (transactions_checks r) in
  let! _ := (λ db, (transactions_unique (transactions db) r, db)) in
  λ db, (Ok r, {| users := users db; transactions := transactions db ++ [r] |}).

(** The row [UPDATE users SET balance = new_balance, updated_at =
    CURRENT_TIMESTAMP] writes over [u]. *)
Definition set_balance (u : user) (new_balance : Z) (now : timestamp) : user :=
  {| username := username u; email := email u;
     password_hash := password_hash u;
     balance := new_balance;
     status := status u; role := role u;
     created_at := created_at u; updated_at := now;
     last_login := last_login u |}.

(** [UPDATE users SET ... WHERE id = p_user_id], under the table's
    [CHECK (balance >= 0)]. *)
Definition update_balance (p_user_id : uuid) (new_balance : Z) (now : timestamp)
    : sql unit :=
  λ db, match users db !! p_user_id with
        | None => (Ok tt, db)
        | Some u =>
            if negb (0 <=? new_balance)
            then (Err (check_violation "users_balance_check"), db)
            else (Ok tt, {| users := <[p_user_id := set_balance u new_balance now]> (users db);
                            transactions := transactions db |})
        end.

(** What the database supplies to one call of [process_transaction]:
    the row id from [uuid_generate_v4()] and [CURRENT_TIMESTAMP]. *)
Record row_defaults := {
  uuid_generate_v4 : uuid;
  current_timestamp : timestamp
}.

(** The row [process_transaction] inserts: [id], [processed_at] and
    [created_at] take their column defaults. *)
Definition new_row (gen : row_defaults) (p_user_id : uuid) (current_balance : Z)
    (p_transaction_id : string) (p_type : transaction_type) (p_amount : Z)
    (new_balance : Z) (p_description : option string)
    (p_metadata : option json_object) : transaction :=
  {| tx_id := uuid_generate_v4 gen;
     user_id := p_user_id;
     transaction_id := p_transaction_id;
     tx_type := p_type;
     amount := p_amount;
     balance_before := current_balance;
     balance_after := new_balance;
     description := p_description;
     metadata := p_metadata;
     processed_at := current_timestamp gen;
     tx_created_at := current_timestamp gen |}.

(** The part of [process_transaction] that runs once the user's row is
    locked and [current_balance] is read: compute, insert, update.  The
    [INSERT] stores [p_amount] at the type of its column. *)
Definition process_locked (gen : row_defaults) (p_user_id : uuid)
    (current_balance : Z) (p_transaction_id : string)
    (p_type : transaction_type) (p_amount : numeric)
    (p_description : option string) (p_metadata : option json_object)
    : sql transaction :=
  let! new_balance := lift (compute_new_balance p_type current_balance p_amount) in
  let! stored_amount := lift (assign_decimal_15_2 p_amount) in
  let! transaction_record :=
    insert_transaction
      (new_row gen p_user_id current_balance p_transaction_id p_type stored_amount
         new_balance p_description p_metadata) in
  let! _ := update_balance p_user_id new_balance (current_timestamp gen) in
  ret transaction_record.

(** The body of [process_transaction], between [BEGIN] and [END]. *)
Definition process_transaction_body (gen : row_defaults)
    (p_user_id : uuid) (p_transaction_id : string)
    (p_type : transaction_type) (p_amount : numeric)
    (p_description : option string) (p_metadata : option json_object)
    : sql transaction :=
  let! current_balance := select_balance_for_update p_user_id in
  process_locked gen p_user_id current_balance
    p_transaction_id p_type p_amount p_description p_metadata.

(** A statement is atomic: an exception undoes what it wrote. *)
Definition atomically {A} (body : sql A) : sql A :=
  λ db, match body db with
        | (Ok a, db') => (Ok a, db')
        | (Err e, _) => (Err e, db)
        end.

(** [SELECT * FROM process_transaction(...)] as one statement. *)
Definition process_transaction (gen : row_defaults)
    (p_user_id : uuid) (p_transaction_id : string)
    (p_type : transaction_type) (p_amount : numeric)
    (p_description : option string) (p_metadata : option json_object)
    : sql transaction :=
  atomically (process_transaction_body gen p_user_id p_transaction_id
                p_type p_amount p_description p_metadata).

(** The balance of an account, if the account exists. *)
Definition balance_of (db : database) (uid : uuid) : option Z :=
  balance <$> users db !! uid.

(** ** JavaScript numbers as amounts *)

Fixpoint leading_zeros (l : list ascii) : nat :=
  match l with
  | c :: l' => if Ascii.eqb c "0" then S (leading_zeros l') else 0
  | [] => 0
  end.

Definition trailing_zeros (l : list ascii) : nat := leading_zeros (reverse l).

(** [amount.toString()] for a finite number.  [sig] are the significant
    digits, without trailing zeros, and the value is [0.sig * 10^n]: the
    notation is positional for [-6 < n <= 21] and has an exponent
    otherwise. *)
Definition toString (x : number) : string :=
  if digits x =? 0 then "0"
  else
    let all := String.list_ascii_of_string (pretty (Z.to_N (Z.abs (digits x)))) in
    let z := trailing_zeros all in
    let sig := take (length all - z) all in
    let k := Z.of_nat (length sig) in
    let n := k + Z.of_nat z - Z.of_nat (places x) in
    let sign := if digits x <? 0 then ["-"%char] else [] in
    let zeros (m : Z) := replicate (Z.to_nat m) "0"%char in
    String.string_of_list_ascii
      (sign ++
       if (k <=? n) && (n <=? 21) then sig ++ zeros (n - k)
       else if (0 <? n) && (n <=? 21)
       then take (Z.to_nat n) sig ++ ["."%char] ++ drop (Z.to_nat n) sig
       else if (-6 <? n) && (n <=? 0)
       then ["0"; "."]%char ++ zeros (- n) ++ sig
       else
         let e := n - 1 in
         let exponent :=
           ["e"%char] ++ (if e <? 0 then ["-"%char] else ["+"%char])
           ++ String.list_ascii_of_string (pretty (Z.to_N (Z.abs e))) in
         if k =? 1 then sig ++ exponent
         else take 1 sig ++ ["."%char] ++ drop 1 sig ++ exponent).

(** [s.split('.')[1] || '']: what stands between the first point and the
    second, if there is a point. *)
Fixpoint up_to_point (l : list ascii) : list ascii :=
  match l with
  | c :: l' => if Ascii.eqb c "." then [] else c :: up_to_point l'
  | [] => []
  end.

Fixpoint past_point (l : list ascii) : list ascii :=
  match l with
  | c :: l' => if Ascii.eqb c "." then l' else past_point l'
  | [] => []
  end.

Definition after_point (s : string) : list ascii :=
  up_to_point (past_point (String.list_ascii_of_string s)).

(** [(amount.toString().split('.')[1] || '').length]. *)
Definition decimalPlaces (amount : number) : nat :=
  length (after_point (toString amount)).

(** ** The service layer *)

(** The [Error]s the services and repositories throw, by message. *)
Inductive service_error :=
| User_not_found
    (* 'User not found' *)
| User_account_is (s : user_status)
    (* `User account is ${user.status}` *)
| Amount_must_be_positive
    (* 'Amount must be positive' *)
| Amount_must_have_at_most_2_decimal_places
    (* 'Amount must have at most 2 decimal places' *)
| Transaction_ID_belongs_to_a_different_user
    (* 'Transaction ID belongs to a different user' *)
| Transaction_ID_already_used_for_a_different_operation_type
    (* 'Transaction ID already used for a different operation type' *)
| Insufficient_funds
    (* 'Insufficient funds' *)
| Transaction_ID_already_exists
    (* 'Transaction ID already exists' *)
| database_error (e : db_error)
    (* an error of the driver, thrown on unchanged *).

(** The statements a service sends to the database. *)
Inductive statement :=
| select_transaction_by_transaction_id (transactionId : string)
| select_user_by_id (id : uuid)
| select_process_transaction (userId : uuid) (transactionId : string)
    (type : transaction_type) (amount : number).

(** The database together with the log of the statements sent to it,
    oldest first. *)
Record world := {
  store : database;
  issued : list statement
}.

(** An [async] method: it runs on the world and returns or throws. *)
Abbreviation service := (stateful world service_error).

(** [database.query(...)]: the statement goes to the log. *)
Definition logged (s : statement) (w : world) : world :=
  {| store := store w; issued := issued w ++ [s] |}.

Definition query (s : statement) : service unit := λ w, (Ok tt, logged s w).

(** What the runtime supplies to a call of a service: [uuidv4()],
    [Date.now()], and the reading of the clock at each [new Date()] of the
    call, numbered from 0. *)
Record runtime := {
  uuidv4 : string;
  Date_now : N;
  new_Date : nat → timestamp
}.

(** [database.toCamelCase] on the name of a member:
    [key.replace(/_([a-z])/g, (_, letter) => letter.toUpperCase())]. *)
Definition is_lower (c : ascii) : bool :=
  (97 <=? nat_of_ascii c)%nat && (nat_of_ascii c <=? 122)%nat.

Definition to_upper (c : ascii) : ascii :=
  if is_lower c then ascii_of_nat (nat_of_ascii c - 32) else c.

Fixpoint camel_case (s : string) : string :=
  match s with
  | EmptyString => EmptyString
  | String c tail =>
      match tail with
      | String l rest =>
          if Ascii.eqb c "_" && is_lower l
          then String (to_upper l) (camel_case rest)
          else String c (camel_case tail)
      | EmptyString => String c EmptyString
      end
  end.

(** The order of the members of an object the driver has parsed from
    [JSONB]: the shorter name first, and names of one length by their
    bytes. *)
Definition jsonb_name_le (k1 k2 : string) : bool :=
  (String.length k1 <? String.length k2)%nat
  || ((String.length k1 =? String.length k2)%nat && String.leb k1 k2).

Definition jsonb_order {A} : relation (string * A) := λ a b, jsonb_name_le a.1 b.1.

Global Instance jsonb_order_dec {A} (a b : string * A) : Decision (jsonb_order a b).
Proof. unfold jsonb_order. apply _. Defined.

(** [for (const key in obj) { ...; result[camelKey] = ... }]: the members
    are assigned under their new names one after the other, so of two
    that come under one name the later is kept.  Names that are array
    indices, which [for ... in] visits before the others, are not renamed
    and meet no renamed name, which has a capital letter. *)
Definition assign_renamed {A} (members : gmap string A) : gmap string A :=
  foldl (λ result kv, <[camel_case kv.1 := kv.2]> result) ∅
    (merge_sort jsonb_order (map_to_list members)).

(** [database.toCamelCase]: the members of an object are renamed, and so
    are those of the objects inside it, at any depth and through arrays. *)
Fixpoint toCamelCase (v : json_value) : json_value :=
  match v with
  | json_array items => json_array (toCamelCase <$> items)
  | json_obj members => json_obj (assign_renamed (toCamelCase <$> members))
  | _ => v
  end.

(** [toCamelCase] on the members of an object. *)
Definition toCamelCase_members (o : json_object) : json_object :=
  assign_renamed (toCamelCase <$> o).

(** The [Transaction] of [types.ts], as the repository builds it. *)
Module Transaction.
Record t := {
  id : uuid;
  userId : uuid;
  transactionId : string;
  type : transaction_type;
  amount : Z;
  balanceBefore : Z;
  balanceAfter : Z;
  description : option string;
  metadata : option json_object;
  processedAt : timestamp;
  createdAt : json_object
}.
End Transaction.

(** [TransactionRepository.convertNumericFields].  The driver hands the
    two timestamps over as [Date] objects; [toCamelCase] copies the
    enumerable members of an object, and a [Date] has none: [createdAt] and
    [processedAt] become [{}].  An empty object for [processedAt] is then
    replaced by [new Date().toISOString()], the time [now] of the
    conversion.  The three decimals are parsed back to numbers. *)
Definition convertNumericFields (now : timestamp) (row : transaction)
    : Transaction.t :=
  {| Transaction.id := tx_id row;
     Transaction.userId := user_id row;
     Transaction.transactionId := transaction_id row;
     Transaction.type := tx_type row;
     Transaction.amount := amount row;
     Transaction.balanceBefore := balance_before row;
     Transaction.balanceAfter := balance_after row;
     Transaction.description := description row;
     Transaction.metadata := toCamelCase_members <$> metadata row;
     Transaction.processedAt := now;
     Transaction.createdAt := ∅ |}.

(** [TransactionRepository.getTransactionByTransactionId]:
    [SELECT ... FROM transactions WHERE transaction_id = $1], first row. *)
Definition find_transaction (rows : list transaction) (transactionId : string)
    : option transaction :=
  List.find (fun r => String.eqb (transaction_id r) transactionId) rows.

Definition getTransactionByTransactionId (rt : runtime) (transactionId : string)
    : service (option Transaction.t) :=
  let! _ := query (select_transaction_by_transaction_id transactionId) in
  λ w, (Ok (convertNumericFields (new_Date rt 0)
              <$> find_transaction (transactions (store w)) transactionId), w).

(** [UserRepository.getUserById] through [UserService.getUserById]; of the
    [User] it returns the services read [status] alone. *)
Definition getUserById (id : uuid) : service (option user) :=
  let! _ := query (select_user_by_id id) in
  λ w, (Ok (users (store w) !! id), w).

(** [UserService.validateUserExists]. *)
Definition validateUserExists (id : uuid) : service unit :=
  let! user := getUserById id in
  match user with
  | None => throw User_not_found
  | Some u =>
      if decide (status u = active) then ret tt
      else throw (User_account_is (status u))
  end.

(** [WalletService.validateAmount]. *)
Definition validateAmount (amount : number) : service unit :=
  if digits amount <=? 0 then throw Amount_must_be_positive
  else if (2 <? decimalPlaces amount)%nat
  then throw Amount_must_have_at_most_2_decimal_places
  else ret tt.

(** The [catch] block of [createTransaction]: errors are told apart by
    message and by SQLSTATE. *)
Definition translate_error (e : db_error) : service_error :=
  match e with
  | raise_user_not_found _ => User_not_found
  | raise_insufficient_funds _ _ => Insufficient_funds
  | unique_violation _ => Transaction_ID_already_exists
  | numeric_field_overflow | check_violation _ => database_error e
  end.

(** [transactionData.description || null]: the empty string is falsy. *)
Definition description_or_null (d : option string) : option string :=
  match d with
  | Some "" => None
  | _ => d
  end.

(** [TransactionRepository.createTransaction]:
    [SELECT * FROM process_transaction($1, $2, $3, $4, $5, $6)], and
    [convertNumericFields] on the row it returns. *)
Definition createTransaction (rt : runtime) (gen : row_defaults) (userId : uuid)
    (transactionId : string) (type : transaction_type) (amount : number)
    (description : option string) (metadata : option json_object)
    : service Transaction.t :=
  let! _ := query (select_process_transaction userId transactionId type amount) in
  λ w,
    match
      process_transaction gen userId transactionId type amount
        (description_or_null description) metadata (store w)
    with
    | (Ok row, db') =>
        (Ok (convertNumericFields (new_Date rt 0) row),
         {| store := db'; issued := issued w |})
    | (Err e, db') => (Err (translate_error e), {| store := db'; issued := issued w |})
    end.

(** The id of an account as the caller of [creditUser] or [debitUser]
    writes it: a string that PostgreSQL reads as the UUID [read_as] when a
    statement takes it as a parameter.  PostgreSQL reads the digits in
    upper case as in lower case, and prints a UUID in one way, in lower
    case and in groups of 8, 4, 4, 4 and 12 digits: [as_printed] says
    that the string is that text. *)
Record uuid_string := {
  read_as : uuid;
  as_printed : bool
}.

Bind Scope N_scope with uuid_string.

(** The text PostgreSQL prints for a UUID. *)
Definition printed (id : uuid) : uuid_string := {| read_as := id; as_printed := true |}.

Coercion printed : N >-> uuid_string.

(** [id_of_row === text] in JavaScript, for the id [id_of_row] of a row,
    which the driver hands over as PostgreSQL prints it: the two strings
    are the same string. *)
Definition is_text_of (id_of_row : uuid) (text : uuid_string) : bool :=
  as_printed text && N.eqb id_of_row (read_as text).

(** [CreditRequest] and [DebitRequest]. *)
Record WalletOperationRequest := {
  transactionId : string;
  req_amount : number;
  req_description : option string;
  req_metadata : option json_object
}.

(** The body that [creditUser] and [debitUser] share, for the operation
    type [op] each of them writes out.  [existingTransaction.userId !==
    userId] compares the caller's string with the text of the stored id;
    the statements that take [userId] as a parameter go by the UUID it is
    read as. *)
Definition credit_or_debit (op : transaction_type) (rt : runtime)
    (gen : row_defaults) (userId : uuid_string) (request : WalletOperationRequest)
    : service Transaction.t :=
  let! existingTransaction :=
    getTransactionByTransactionId rt (transactionId request) in
  match existingTransaction with
  | Some existing =>
      if negb (is_text_of (Transaction.userId existing) userId)
      then throw Transaction_ID_belongs_to_a_different_user
      else if negb (bool_decide (Transaction.type existing = op))
      then throw Transaction_ID_already_used_for_a_different_operation_type
      else ret existing
  | None =>
      let! _ := validateUserExists (read_as userId) in
      let! _ := validateAmount (req_amount request) in
      createTransaction rt gen (read_as userId) (transactionId request) op
        (req_amount request) (req_description request) (req_metadata request)
  end.

(** [WalletService.creditUser]. *)
Definition creditUser := credit_or_debit credit.

(** [WalletService.debitUser]. *)
Definition debitUser := credit_or_debit debit.

(** [{ gameId, ...metadata }]: the members of [metadata] win. *)
Definition game_metadata (gameId : option string) (metadata : option json_object)
    : json_object :=
  default ∅ metadata ∪ from_option (λ g, {[ "gameId" := json_string g ]}) ∅ gameId.

(** [WalletService.processWager]. *)
Definition processWager (rt : runtime) (gen : row_defaults) (userId : uuid)
    (amount : number) (gameId : option string) (metadata : option json_object)
    : service Transaction.t :=
  let transactionId := "wager_" +:+ uuidv4 rt +:+ "_" +:+ pretty (Date_now rt) in
  let! _ := validateUserExists userId in
  createTransaction rt gen userId transactionId wager amount
    (Some (match gameId with
           | Some g => if decide (g = "") then "Game wager" else "Wager for game " +:+ g
           | None => "Game wager"
           end))
    (Some (game_metadata gameId metadata)).

(** [WalletService.processPayout]. *)
Definition processPayout (rt : runtime) (gen : row_defaults) (userId : uuid)
    (amount : number) (gameId : option string) (metadata : option json_object)
    : service Transaction.t :=
  let transactionId := "payout_" +:+ uuidv4 rt +:+ "_" +:+ pretty (Date_now rt) in
  let! _ := validateUserExists userId in
  createTransaction rt gen userId transactionId payout amount
    (Some (match gameId with
           | Some g => if decide (g = "") then "Game payout" else "Payout for game " +:+ g
           | None => "Game payout"
           end))
    (Some (game_metadata gameId metadata)).

(** The four operations [WalletService] offers on a wallet. *)
Inductive operation :=
| credit_op (userId : uuid_string) (request : WalletOperationRequest)
| debit_op (userId : uuid_string) (request : WalletOperationRequest)
| wager_op (userId : uuid) (amount : number) (gameId : option string)
    (metadata : option json_object)
| payout_op (userId : uuid) (amount : number) (gameId : option string)
    (metadata : option json_object).

Definition perform (rt : runtime) (gen : row_defaults) (o : operation)
    : service Transaction.t :=
  match o with
  | credit_op userId request => creditUser rt gen userId request
  | debit_op userId request => debitUser rt gen userId request
  | wager_op userId amount gameId metadata =>
      processWager rt gen userId amount gameId metadata
  | payout_op userId amount gameId metadata =>
      processPayout rt gen userId amount gameId metadata
  end.

(** The account an operation is for, and the idempotency key it runs
    under: the caller's for a credit or a debit, a generated one for a
    wager or a payout. *)
Definition operation_user (o : operation) : uuid :=
  match o with
  | credit_op userId _ | debit_op userId _ => read_as userId
  | wager_op userId _ _ _ | payout_op userId _ _ _ => userId
  end.

Definition operation_key (rt : runtime) (o : operation) : string :=
  match o with
  | credit_op _ request | debit_op _ request => transactionId request
  | wager_op _ _ _ _ => "wager_" +:+ uuidv4 rt +:+ "_" +:+ pretty (Date_now rt)
  | payout_op _ _ _ _ => "payout_" +:+ uuidv4 rt +:+ "_" +:+ pretty (Date_now rt)
  end.

(** ** The other writers of [users] *)

(** [INSERT INTO users (username, email, password_hash, role, balance)]:
    [UserRepository.createUser] leaves [balance] to its default 0.00, the
    seeding script gives one.  [status] defaults to 'active'. *)
Definition insert_user (gen : row_defaults) (name mail hash : string)
    (r : user_role) (initial : numeric) : sql uuid :=
  let! stored_balance := lift (assign_decimal_15_2 initial) in
  λ db,
    if negb (0 <=? stored_balance)
    then (Err (check_violation "users_balance_check"), db)
    else if bool_decide (is_Some (users db !! uuid_generate_v4 gen))
    then (Err (unique_violation "users_pkey"), db)
    else if bool_decide (map_Exists (λ _ u, username u = name) (users db))
    then (Err (unique_violation "users_username_key"), db)
    else if bool_decide (map_Exists (λ _ u, email u = mail) (users db))
    then (Err (unique_violation "users_email_key"), db)
    else
      (Ok (uuid_generate_v4 gen),
       {| users :=
            <[uuid_generate_v4 gen :=
                {| username := name; email := mail; password_hash := hash;
                   balance := stored_balance; status := active; role := r;
                   created_at := current_timestamp gen;
                   updated_at := current_timestamp gen;
                   last_login := None |}]> (users db);
          transactions := transactions db |}).

(** [UserRepository.updateUserStatus]: [UPDATE users SET status = $1,
    updated_at = CURRENT_TIMESTAMP WHERE id = $2 RETURNING ...]. *)
Definition updateUserStatus (now : timestamp) (id : uuid) (s : user_status)
    : sql (option user) :=
  λ db, match users db !! id with
        | None => (Ok None, db)
        | Some u =>
            let u' := {| username := username u; email := email u;
                         password_hash := password_hash u; balance := balance u;
                         status := s; role := role u;
                         created_at := created_at u; updated_at := now;
                         last_login := last_login u |} in
            (Ok (Some u'),
             {| users := <[id := u']> (users db); transactions := transactions db |})
        end.

(** [UPDATE users SET last_login = CURRENT_TIMESTAMP WHERE id = $1] of
    [UserRepository.verifyPassword]; the trigger sets [updated_at]. *)
Definition update_last_login (now : timestamp) (id : uuid) : sql unit :=
  λ db, match users db !! id with
        | None => (Ok tt, db)
        | Some u =>
            (Ok tt,
             {| users :=
                  <[id := {| username := username u; email := email u;
                             password_hash := password_hash u; balance := balance u;
                             status := status u; role := role u;
                             created_at := created_at u; updated_at := now;
                             last_login := Some now |}]> (users db);
                transactions := transactions db |})
        end.

(** Everything that writes to the database. *)
Inductive action :=
| do_insert_user (gen : row_defaults) (name mail hash : string) (r : user_role)
    (initial : numeric)
| do_update_status (now : timestamp) (id : uuid) (s : user_status)
| do_login (now : timestamp) (id : uuid)
| do_operation (rt : runtime) (gen : row_defaults) (o : operation).

Definition act (a : action) (db : database) : database :=
  match a with
  | do_insert_user gen name mail hash r initial =>
      (atomically (insert_user gen name mail hash r initial) db).2
  | do_update_status now id s => (atomically (updateUserStatus now id s) db).2
  | do_login now id => (atomically (update_last_login now id) db).2
  | do_operation rt gen o =>
      store (perform rt gen o {| store := db; issued := [] |}).2
  end.

Definition empty_database : database := {| users := ∅; transactions := [] |}.

(** The database after a history of actions, oldest first. *)
Definition after (history : list action) : database :=
  foldl (λ db a, act a db) empty_database history.

(** ** The query layer: [TransactionRepository.getTransactions] *)

Inductive sort_order := asc | desc.

(** [ListTransactionsQuery]: every member is optional. *)
Record ListTransactionsQuery := {
  page : option Z;
  limit : option Z;
  sortBy : option string;
  sortOrder : option sort_order;
  userId : option uuid;
  type : option transaction_type;
  dateFrom : option timestamp;
  dateTo : option timestamp
}.

(** [sortBy.replace(/([A-Z])/g, '_$1').toLowerCase()]. *)
Definition is_upper (c : ascii) : bool :=
  (65 <=? nat_of_ascii c)%nat && (nat_of_ascii c <=? 90)%nat.

Definition to_lower (c : ascii) : ascii :=
  if is_upper c then ascii_of_nat (nat_of_ascii c + 32) else c.

Fixpoint snake_case (s : string) : string :=
  match s with
  | EmptyString => EmptyString
  | String c rest =>
      if is_upper c
      then String "_" (String (to_lower c) (snake_case rest))
      else String c (snake_case rest)
  end.

(** The place of a type in [CREATE TYPE transaction_type AS ENUM], which
    orders the values of the enum. *)
Definition enum_rank (t : transaction_type) : Z :=
  match t with
  | credit => 0 | debit => 1 | wager => 2 | payout => 3 | bonus => 4 | refund => 5
  end.

Inductive query_error :=
| undefined_column (name : string)
    (* SQLSTATE 42703 *)
| order_not_modelled (name : string)
    (* a text or JSONB column: its order is the collation's *)
| negative_limit
    (* SQLSTATE 2201W, LIMIT must not be negative *)
| negative_offset
    (* SQLSTATE 2201X, OFFSET must not be negative *).

(** [ORDER BY <column>]: the value rows are compared by.  The numeric,
    timestamp, UUID and enum columns are covered; the routes document
    [processedAt], [amount] and [type] as the fields to sort by. *)
Definition order_by_column (name : string) : result query_error (transaction → Z) :=
  if decide (name = "id") then Ok (λ r, Z.of_N (tx_id r))
  else if decide (name = "user_id") then Ok (λ r, Z.of_N (user_id r))
  else if decide (name = "type") then Ok (λ r, enum_rank (tx_type r))
  else if decide (name = "amount") then Ok amount
  else if decide (name = "balance_before") then Ok balance_before
  else if decide (name = "balance_after") then Ok balance_after
  else if decide (name = "processed_at") then Ok processed_at
  else if decide (name = "created_at") then Ok tx_created_at
  else if decide (name = "transaction_id") then Err (order_not_modelled name)
  else if decide (name = "description") then Err (order_not_modelled name)
  else if decide (name = "metadata") then Err (order_not_modelled name)
  else Err (undefined_column name).

(** [ORDER BY <column> ASC] and [ORDER BY <column> DESC]. *)
Definition in_order (key : transaction → Z) (o : sort_order) : relation transaction :=
  λ r1 r2, match o with
           | asc => key r1 ≤ key r2
           | desc => key r2 ≤ key r1
           end.

Global Instance in_order_dec key o r1 r2 : Decision (in_order key o r1 r2).
Proof. destruct o; simpl; apply _. Defined.

(** The [WHERE] clause built from the filters that are given. *)
Definition where_clause (q : ListTransactionsQuery) (r : transaction) : bool :=
  from_option (λ u, N.eqb (user_id r) u) true (userId q)
  && from_option (λ t, bool_decide (tx_type r = t)) true (type q)
  && from_option (λ d, d <=? processed_at r) true (dateFrom q)
  && from_option (λ d, processed_at r <=? d) true (dateTo q).

(** [PaginatedResponse<Transaction>]; [pages] is [Math.ceil(total / limit)],
    which is no integer when [limit] is 0. *)
Record PaginatedResponse := {
  data : list Transaction.t;
  pagination_page : Z;
  pagination_limit : Z;
  total : Z;
  pages : option Z
}.

(** [getTransactions] on the rows of [transactions] in the order [scan]
    in which the executor meets them in this query.  The query gives one
    sort key: [ORDER BY ${dbSortBy} ${sortOrder}], then [LIMIT] and
    [OFFSET]; the sort is the executor's, and rows with equal keys leave it
    in an order that depends on [scan].  [scan] is an input of each query:
    PostgreSQL plans each query on its own, and chooses the way rows are
    read and sorted by its [LIMIT] and [OFFSET] too, so two queries over
    one table, such as those for two pages, need not meet the rows in the
    same order.  Each row of the page goes through
    [convertNumericFields]. *)
Definition getTransactions (rt : runtime) (scan : list transaction)
    (params : ListTransactionsQuery) : result query_error PaginatedResponse :=
  let page := default 1 (page params) in
  let limit := default 20 (limit params) in
  let sortBy := default "processedAt" (sortBy params) in
  let sortOrder := default desc (sortOrder params) in
  let offset := (page - 1) * limit in
  let dbSortBy := snake_case sortBy in
  key ← order_by_column dbSortBy;
  if limit <? 0 then Err negative_limit
  else if offset <? 0 then Err negative_offset
  else
    let selected := List.filter (where_clause params) scan in
    let dataResult :=
      take (Z.to_nat limit) (drop (Z.to_nat offset)
                               (merge_sort (in_order key sortOrder) selected)) in
    let total := Z.of_nat (length selected) in
    Ok {| data := imap (λ i row, convertNumericFields (new_Date rt i) row) dataResult;
          pagination_page := page;
          pagination_limit := limit;
          total := total;
          pages := if limit =? 0 then None else Some ((total + limit - 1) / limit) |}.

(** [getUserTransactions]: [getTransactions({ ...params, userId })]. *)
Definition getUserTransactions (rt : runtime) (scan : list transaction) (id : uuid)
    (params : ListTransactionsQuery) : result query_error PaginatedResponse :=
  getTransactions rt scan
    {| page := page params; limit := limit params; sortBy := sortBy params;
       sortOrder := sortOrder params; userId := Some id; type := type params;
       dateFrom := dateFrom params; dateTo := dateTo params |}.

(** ** Concurrent calls of [process_transaction] *)

(** The arguments of one call, with what the database will supply to it. *)
Record call := {
  call_defaults : row_defaults;
  p_user_id : uuid;
  p_transaction_id : string;
  p_type : transaction_type;
  p_amount : numeric;
  p_description : option string;
  p_metadata : option json_object
}.

(** How far a call is: before [SELECT ... FOR UPDATE] has returned; holding
    the lock on the user's row, with the balance it read; or done, its
    transaction committed or rolled back and the lock released. *)
Inductive progress :=
| waiting
| locked (current_balance : Z)
| returned (r : result db_error transaction).

(** The committed database and the calls in flight. *)
Record system := {
  committed : database;
  calls : list (call * progress)
}.

(** Some call holds the lock on the row of [uid]. *)
Definition row_locked (cs : list (call * progress)) (uid : uuid) : bool :=
  existsb (λ cp, match cp.2 with
                 | locked _ => N.eqb (p_user_id cp.1) uid
                 | _ => false
                 end) cs.

(** The scheduler lets call [i] move.  A waiting call takes the row lock
    and reads the balance, unless another call holds the lock: then it
    keeps waiting.  A call that holds the lock runs the rest of
    [process_transaction] on the committed database and commits or rolls
    back, which releases the lock. *)
Definition step_call (i : nat) (sys : system) : system :=
  match calls sys !! i with
  | Some (c, waiting) =>
      if row_locked (calls sys) (p_user_id c) then sys
      else
        match select_balance_for_update (p_user_id c) (committed sys) with
        | (Ok current_balance, _) =>
            {| committed := committed sys;
               calls := <[i := (c, locked current_balance)]> (calls sys) |}
        | (Err e, _) =>
            {| committed := committed sys;
               calls := <[i := (c, returned (Err e))]> (calls sys) |}
        end
  | Some (c, locked current_balance) =>
      let run :=
        atomically
          (process_locked (call_defaults c) (p_user_id c) current_balance
             (p_transaction_id c) (p_type c) (p_amount c)
             (p_description c) (p_metadata c))
          (committed sys) in
      {| committed := run.2;
         calls := <[i := (c, returned run.1)]> (calls sys) |}
  | Some (_, returned _) | None => sys
  end.

(** An execution: the calls the scheduler picks, one after the other. *)
Definition run (schedule : list nat) (sys : system) : system :=
  foldl (λ s i, step_call i s) sys schedule.

(** All calls start waiting. *)
Definition start (db : database) (cs : list call) : system :=
  {| committed := db; calls := (λ c, (c, waiting)) <$> cs |}.

Definition has_returned (p : progress) : bool :=
  match p with
  | returned _ => true
  | waiting | locked _ => false
  end.

Fixpoint returned_count (cs : list (call * progress)) : nat :=
  match cs with
  | [] => 0
  | cp :: cs => (if has_returned cp.2 then 1 else 0) + returned_count cs
  end.

(** The steps the calls still have to take: two for a waiting call, one
    for a call that holds its lock. *)
Fixpoint pending (cs : list (call * progress)) : nat :=
  match cs with
  | [] => 0
  | cp :: cs =>
      match cp.2 with
      | waiting => 2
      | locked _ => 1
      | returned _ => 0
      end + pending cs
  end.

Definition all_returned (sys : system) : Prop :=
  ∀ i c p, calls sys !! i = Some (c, p) → has_returned p = true.

(** ** Vocabulary of the statements below *)

(** Neither the key nor the generated row id occurs in [transactions]. *)
Definition unused (db : database) (gen : row_defaults) (key : string) : Prop :=
  ∀ r, r ∈ transactions db → tx_id r ≠ uuid_generate_v4 gen ∧ transaction_id r ≠ key.

(** The exception 'Insufficient funds. ...' of [process_transaction]. *)
Definition is_insufficient_funds {A} (r : result db_error A) : Prop :=
  ∃ current_balance p_amount,
    r = Err (raise_insufficient_funds current_balance p_amount).

(** [CHECK (balance >= 0)] on every row of [users]. *)
Definition balances_non_negative (db : database) : Prop :=
  ∀ id u, users db !! id = Some u → 0 ≤ balance u.

(** No stored entry carries the key. *)
Definition no_entry (db : database) (key : string) : Prop :=
  ∀ r, r ∈ transactions db → transaction_id r ≠ key.

(** Rows with equal sort keys come ordered by [id], ascending or
    descending. *)
Definition ties_broken_by_id (key : Transaction.t → Z) (o : sort_order)
    (entries : list Transaction.t) : Prop :=
  ∀ i j e1 e2,
    (i < j)%nat → entries !! i = Some e1 → entries !! j = Some e2 → key e1 = key e2 →
    match o with
    | asc => (Transaction.id e1 < Transaction.id e2)%N
    | desc => (Transaction.id e2 < Transaction.id e1)%N
    end.

(** The row lock at work: a call that holds the lock of a row has read
    the balance that is committed now, and no two calls hold the lock of
    the same row. *)
Definition lock_consistent (sys : system) : Prop :=
  (∀ i c cur, calls sys !! i = Some (c, locked cur) →
     balance_of (committed sys) (p_user_id c) = Some cur) ∧
  (∀ i j ci cj curi curj,
     calls sys !! i = Some (ci, locked curi) →
     calls sys !! j = Some (cj, locked curj) →
     p_user_id ci = p_user_id cj → i = j).

(** The whole of [process_transaction] for the arguments of a call. *)
Definition process_call (c : call) : sql transaction :=
  process_transaction (call_defaults c) (p_user_id c) (p_transaction_id c)
    (p_type c) (p_amount c) (p_description c) (p_metadata c).

(** The calls [cs] are debits of [a] each from the account [uid], whose
    balance [B] in [db] covers them all; their keys and the row ids they
    will be given are distinct and new to [db]. *)
Record covered_debits (db : database) (uid : uuid) (B a : Z) (cs : list call)
    : Prop := {
  debits_account : balance_of db uid = Some B;
  debits_balance : fits_decimal_15_2 B = true;
  debits_amount : 0 < a;
  debits_covered : Z.of_nat (length cs) * a ≤ B;
  debits_calls :
    ∀ c, c ∈ cs → p_user_id c = uid ∧ p_type c = debit ∧ p_amount c = cents a;
  debits_keys : NoDup (p_transaction_id <$> cs);
  debits_ids : NoDup ((λ c, uuid_generate_v4 (call_defaults c)) <$> cs);
  debits_unused : ∀ c, c ∈ cs → unused db (call_defaults c) (p_transaction_id c)
}.

(** The entries [new] are a chain from the balance [B] in steps of [a]:
    each starts from the balance the one before it left. *)
Definition chained (B a : Z) (new : list transaction) : Prop :=
  ∀ k e, new !! k = Some e →
    balance_before e = B - Z.of_nat k * a ∧
    balance_after e = B - (Z.of_nat k + 1) * a.

(** What holds of the system at every point of an execution of covered
    debits: the ledger grew by one chained entry for each call that
    returned, the balance is what the last of them left, and at most one
    call holds the lock, having read that balance. *)
Definition serialized (db : database) (uid : uuid) (B a : Z) (cs : list call)
    (sys : system) : Prop :=
  ∃ new u,
    (calls sys).*1 = cs ∧
    transactions (committed sys) = transactions db ++ new ∧
    length new = returned_count (calls sys) ∧
    chained B a new ∧
    users (committed sys) !! uid = Some u ∧
    balance u = B - Z.of_nat (length new) * a ∧
    (∀ i c cur, calls sys !! i = Some (c, locked cur) →
       cur = B - Z.of_nat (length new) * a) ∧
    (∀ i j ci cj curi curj,
       calls sys !! i = Some (ci, locked curi) →
       calls sys !! j = Some (cj, locked curj) → i = j) ∧
    (∀ i c r, calls sys !! i = Some (c, returned r) → ∃ e, r = Ok e ∧ e ∈ new) ∧
    (∀ e, e ∈ new →
       ∃ i c r, calls sys !! i = Some (c, returned r) ∧
                tx_id e = uuid_generate_v4 (call_defaults c) ∧
                transaction_id e = p_transaction_id c).

(** ** A small ledger to evaluate the code on *)

Definition alice : user :=
  {| username := "alice"; email := "alice@example.com"; password_hash := "$2b$";
     balance := 5025; status := active; role := player;
     created_at := 0; updated_at := 0; last_login := None |}.

Definition bob : user :=
  {| username := "bob"; email := "bob@example.com"; password_hash := "$2b$";
     balance := 10000; status := suspended; role := player;
     created_at := 0; updated_at := 0; last_login := None |}.

(** Alice is account 1 with balance 50.25; Bob is account 2, suspended. *)
Definition two_accounts : database :=
  {| users := {[ 1%N := alice; 2%N := bob ]}; transactions := [] |}.

Definition at_time (id : uuid) (t : timestamp) : row_defaults :=
  {| uuid_generate_v4 := id; current_timestamp := t |}.

(** Alice is credited 100.50 under the key "k1". *)
Definition credit_k1 : transaction :=
  new_row (at_time 100 1000) 1 5025 "k1" credit 10050 15075 None None.

Definition after_credit_k1 : database :=
  {| users := <[1%N := set_balance alice 15075 1000]> (users two_accounts);
     transactions := [credit_k1] |}.

(** Then an administrator suspends Alice. *)
Definition alice_suspended : database :=
  (updateUserStatus 2000 1 suspended after_credit_k1).2.

(** Two debits of 100.00 of Bob, alike but for id and key. *)
Definition debit_a : transaction :=
  new_row (at_time 11 500) 2 30000 "a" debit 10000 20000 None None.

Definition debit_b : transaction :=
  new_row (at_time 12 500) 2 20000 "b" debit 10000 10000 None None.

Definition by_amount : ListTransactionsQuery :=
  {| page := Some 1; limit := Some 20; sortBy := Some "amount"; sortOrder := Some asc;
     userId := None; type := None; dateFrom := None; dateTo := None |}.

(** Carol is account 5 with balance 1000.00; five debits of 100.00. *)
Definition carol : user :=
  {| username := "carol"; email := "carol@example.com"; password_hash := "$2b$";
     balance := 100000; status := active; role := player;
     created_at := 0; updated_at := 0; last_login := None |}.

Definition one_account : database :=
  {| users := {[ 5%N := carol ]}; transactions := [] |}.

Definition debit_call (id : uuid) (key : string) : call :=
  {| call_defaults := at_time id 7000; p_user_id := 5; p_transaction_id := key;
     p_type := debit; p_amount := cents 10000; p_description := None;
     p_metadata := None |}.

Definition five_debits : list call :=
  [debit_call 21 "d1"; debit_call 22 "d2"; debit_call 23 "d3";
   debit_call 24 "d4"; debit_call 25 "d5"].

Definition fresh_world (db : database) : world := {| store := db; issued := [] |}.

(** Dana is account 9, just registered: balance 0.00. *)
Definition dana : user :=
  {| username := "dana"; email := "dana@example.com"; password_hash := "$2b$";
     balance := 0; status := active; role := player;
     created_at := 0; updated_at := 0; last_login := None |}.

Definition registered : database := {| users := {[ 9%N := dana ]}; transactions := [] |}.

(** Dana's entries of the scenarios: a credit of 100.50 under "k1", then
    a debit of 50.25 under "k2". *)
Definition dana_k1 : transaction :=
  new_row (at_time 31 100) 9 0 "k1" credit 10050 10050 None None.

Definition dana_k2 : transaction :=
  new_row (at_time 32 200) 9 10050 "k2" debit 5025 5025 None None.

Definition after_k1 : database :=
  {| users := {[ 9%N := set_balance dana 10050 100 ]}; transactions := [dana_k1] |}.

Definition after_k2 : database :=
  {| users := {[ 9%N := set_balance (set_balance dana 10050 100) 5025 200 ]};
     transactions := [dana_k1; dana_k2] |}.

Definition request (key : string) (c : Z) : WalletOperationRequest :=
  {| transactionId := key; req_amount := cents c;
     req_description := None; req_metadata := None |}.

(** A runtime whose clock reads [t] at the first [new Date()] of a call,
    and a millisecond more at each later one. *)
Definition clock (t : N) : runtime :=
  {| uuidv4 := "0b5c"; Date_now := t; new_Date := λ i, Z.of_N t + Z.of_nat i |}.

(** * The rest of the repositories and services *)

(** ** Accounts: [UserRepository] and [UserService] *)

(** What the libraries supply: [bcrypt.compare], and [jwt.sign] on the
    payload [{ id, username, role }] with the configured secret. *)
Record libraries := {
  bcrypt_compare : string → string → bool;
  jwt_sign : uuid → string → user_role → string
}.

(** The [Error]s these two classes throw. *)
Inductive account_error :=
| Username_already_exists
    (* 'Username already exists' *)
| Email_already_exists
    (* 'Email already exists' *)
| Account_is (s : user_status)
    (* `Account is ${user.status}` *)
| driver_error (e : db_error)
    (* an error of the driver, thrown on unchanged *).

Record CreateUserRequest := {
  new_username : string;
  new_email : string;
  new_password : string;
  new_role : option user_role
}.

(** The [catch] block of [UserRepository.createUser]: SQLSTATE 23505 is
    told apart by the constraint. *)
Definition translate_insert_error (e : db_error) : account_error :=
  match e with
  | unique_violation constraint =>
      if decide (constraint = "users_username_key") then Username_already_exists
      else if decide (constraint = "users_email_key") then Email_already_exists
      else driver_error e
  | _ => driver_error e
  end.

(** A user found by a unique column, with the [id] of the row. *)
Definition find_user (found : user → bool) (db : database) : option (uuid * user) :=
  List.find (λ iu, found iu.2) (map_to_list (users db)).

Module UserRepository.

(** [createUser]: [INSERT INTO users (username, email, password_hash,
    role) VALUES (...) RETURNING ...]; [balance] takes its default 0.00.
    [hashedPassword] is what [bcrypt.hash] gave.  Of the [User] returned
    the [id] is kept: the row is the one stored under it. *)
Definition createUser (gen : row_defaults) (hashedPassword : string)
    (userData : CreateUserRequest) : stateful database account_error uuid :=
  λ db,
    match
      atomically
        (insert_user gen (new_username userData) (new_email userData) hashedPassword
           (default player (new_role userData)) (cents 0)) db
    with
    | (Ok id, db') => (Ok id, db')
    | (Err e, db') => (Err (translate_insert_error e), db')
    end.

(** [verifyPassword]: the row is read by [email]; when the password
    matches, [last_login] is written, and the row as it was read is
    returned, without [password_hash]. *)
Definition verifyPassword (lib : libraries) (now : timestamp) (mail password : string)
    : stateful database account_error (option (uuid * user)) :=
  λ db,
    match find_user (λ u, String.eqb (email u) mail) db with
    | None => (Ok None, db)
    | Some (id, u) =>
        if negb (bcrypt_compare lib password (password_hash u)) then (Ok None, db)
        else (Ok (Some (id, u)), (atomically (update_last_login now id) db).2)
    end.

(** [getUserBalance]: [SELECT balance FROM users WHERE id = $1], the
    balance parsed, or [null]. *)
Definition getUserBalance (id : uuid) (db : database) : option Z :=
  balance <$> users db !! id.

End UserRepository.

Module UserService.

(** [createUser]: the new user and a token for it. *)
Definition createUser (lib : libraries) (gen : row_defaults) (hashedPassword : string)
    (userData : CreateUserRequest) : stateful database account_error (uuid * string) :=
  let! id := UserRepository.createUser gen hashedPassword userData in
  ret (id, jwt_sign lib id (new_username userData) (default player (new_role userData))).

(** [authenticateUser]. *)
Definition authenticateUser (lib : libraries) (now : timestamp) (mail password : string)
    : stateful database account_error (option (uuid * user * string)) :=
  let! found := UserRepository.verifyPassword lib now mail password in
  match found with
  | None => ret None
  | Some (id, u) =>
      if negb (bool_decide (status u = active)) then throw (Account_is (status u))
      else ret (Some (id, u, jwt_sign lib id (username u) (role u)))
  end.

End UserService.

(** ** Reads *)

(** The methods below send [SELECT]s alone: they run on the database as it
    stands and leave it as it is. *)

Module TransactionRepository.

(** [getTransactionById]: [SELECT ... FROM transactions WHERE id = $1],
    first row. *)
Definition getTransactionById (rt : runtime) (id : uuid) (db : database)
    : option Transaction.t :=
  convertNumericFields (new_Date rt 0)
    <$> List.find (λ r, N.eqb (tx_id r) id) (transactions db).

(** What [getTransactionStats] returns.  The four sums are amounts in
    cents: the query returns them as decimal text, which [parseFloat]
    reads to the nearest number, the very amount while it has no more than
    15 digits. *)
Record TransactionStats := {
  totalTransactions : Z;
  totalCredits : Z;
  totalDebits : Z;
  totalWagers : Z;
  totalPayouts : Z
}.

(** [COALESCE(SUM(CASE WHEN type IN (...) THEN amount ELSE 0 END), 0)],
    for the types [counted]. *)
Definition sum_amounts (counted : transaction_type → bool) (rows : list transaction)
    : Z :=
  foldr (λ r s, (if counted (tx_type r) then amount r else 0) + s) 0 rows.

(** [getTransactionStats]: the aggregates over all of [transactions], or
    over the rows [WHERE user_id = $1] when a [userId] is given. *)
Definition getTransactionStats (userId : option uuid) (db : database)
    : TransactionStats :=
  let rows :=
    List.filter (λ r, from_option (λ u, N.eqb (user_id r) u) true userId)
      (transactions db) in
  {| totalTransactions := Z.of_nat (length rows);
     totalCredits := sum_amounts is_credit_class rows;
     totalDebits := sum_amounts is_debit_class rows;
     totalWagers := sum_amounts (λ t, bool_decide (t = wager)) rows;
     totalPayouts := sum_amounts (λ t, bool_decide (t = payout)) rows |}.

End TransactionRepository.

(** What a read of [WalletService] throws: an [Error] of the services, or
    the driver's error for a query the database refuses. *)
Inductive read_error :=
| service_threw (e : service_error)
| query_threw (e : query_error).

Module WalletService.

(** [validateUserExists] as a read uses it: the outcome, for the database
    as it stands. *)
Definition validated (userId : uuid) (db : database) : result read_error unit :=
  match (validateUserExists userId {| store := db; issued := [] |}).1 with
  | Ok _ => Ok tt
  | Err e => Err (service_threw e)
  end.

(** [getTransaction]. *)
Definition getTransaction (rt : runtime) (id : uuid) (db : database)
    : option Transaction.t :=
  TransactionRepository.getTransactionById rt id db.

(** [getUserBalance]: what [UserService.getUserBalance] hands on from the
    repository, and 'User not found' for [null]. *)
Definition getUserBalance (userId : uuid) (db : database) : result read_error Z :=
  match UserRepository.getUserBalance userId db with
  | Some balance => Ok balance
  | None => Err (service_threw User_not_found)
  end.

(** [getUserTransactions]: the account must exist and be active; then the
    repository's [getUserTransactions], on the rows of [transactions] in
    the order [scan] the executor reads them in. *)
Definition getUserTransactions (rt : runtime) (scan : list transaction)
    (userId : uuid) (params : ListTransactionsQuery) (db : database)
    : result read_error PaginatedResponse :=
  _ ← validated userId db;
  match getUserTransactions rt scan userId params with
  | Ok r => Ok r
  | Err e => Err (query_threw e)
  end.

(** [getTransactionStats]: the account is validated when one is given. *)
Definition getTransactionStats (userId : option uuid) (db : database)
    : result read_error TransactionRepository.TransactionStats :=
  _ ← from_option (λ u, validated u db) (Ok tt) userId;
  Ok (TransactionRepository.getTransactionStats userId db).

End WalletService.

(** ** The handlers of [WalletController] *)

(** [String.prototype.includes]. *)
Fixpoint includes (s searchString : string) : bool :=
  String.prefix searchString s ||
  match s with
  | EmptyString => false
  | String _ rest => includes rest searchString
  end.

Definition status_name (s : user_status) : string :=
  match s with
  | active => "active"
  | suspended => "suspended"
  | inactive => "inactive"
  end.

(** [error.message]: the text given to [new Error] where the services and
    the repositories throw.  The text of an error of the driver is
    PostgreSQL's, [pg_message]. *)
Definition error_message (pg_message : db_error → string) (e : service_error)
    : string :=
  match e with
  | User_not_found => "User not found"
  | User_account_is s => "User account is " +:+ status_name s
  | Amount_must_be_positive => "Amount must be positive"
  | Amount_must_have_at_most_2_decimal_places =>
      "Amount must have at most 2 decimal places"
  | Transaction_ID_belongs_to_a_different_user =>
      "Transaction ID belongs to a different user"
  | Transaction_ID_already_used_for_a_different_operation_type =>
      "Transaction ID already used for a different operation type"
  | Insufficient_funds => "Insufficient funds"
  | Transaction_ID_already_exists => "Transaction ID already exists"
  | database_error e => pg_message e
  end.

(** What a handler answers: [res.status(status).json(body)], or the same
    with an [ApiResponse] that holds an [error] of a [code] and a
    [message]. *)
Inductive response (A : Type) :=
| json (status : nat) (body : A)
| json_error (status : nat) (code message : string).

Arguments json {A} status body.
Arguments json_error {A} status code message.

Module WalletController.

(** [creditUser], from the call of the service on: [userIdSchema] and
    [creditSchema] have accepted the request, and [userId] and
    [creditRequest] are the values they gave. *)
Definition creditUser (pg_message : db_error → string) (rt : runtime)
    (gen : row_defaults) (userId : uuid_string)
    (creditRequest : WalletOperationRequest)
    (w : world) : response Transaction.t * world :=
  match creditUser rt gen userId creditRequest w with
  | (Ok transaction, w') => (json 201 transaction, w')
  | (Err error, w') =>
      (if includes (error_message pg_message error) "User not found"
       then json_error 404 "NOT_FOUND" "User not found"
       else if includes (error_message pg_message error) "Transaction ID"
       then json_error 409 "CONFLICT" (error_message pg_message error)
       else json_error 500 "INTERNAL_ERROR" "Failed to process credit transaction",
       w')
  end.

(** [debitUser], from the call of the service on. *)
Definition debitUser (pg_message : db_error → string) (rt : runtime)
    (gen : row_defaults) (userId : uuid_string)
    (debitRequest : WalletOperationRequest)
    (w : world) : response Transaction.t * world :=
  match debitUser rt gen userId debitRequest w with
  | (Ok transaction, w') => (json 201 transaction, w')
  | (Err error, w') =>
      (if includes (error_message pg_message error) "User not found"
       then json_error 404 "NOT_FOUND" "User not found"
       else if includes (error_message pg_message error) "Insufficient funds"
       then json_error 400 "INSUFFICIENT_FUNDS" "Insufficient funds"
       else if includes (error_message pg_message error) "Transaction ID"
       then json_error 409 "CONFLICT" (error_message pg_message error)
       else json_error 500 "INTERNAL_ERROR" "Failed to process debit transaction",
       w')
  end.

End WalletController.

(** ** The seeding script *)

Definition hex_digit (d : N) : ascii :=
  ascii_of_N (if (d <? 10)%N then 48 + d else 87 + d).

(** The [n] low hexadecimal digits of [x], the most significant first. *)
Fixpoint hex (n : nat) (x : N) : list ascii :=
  match n with
  | O => []
  | S n' => hex n' (x `div` 16)%N ++ [hex_digit (x `mod` 16)%N]
  end.

(** The text of a [uuid]: 32 hexadecimal digits in groups of 8, 4, 4, 4
    and 12. *)
Definition uuid_text (id : uuid) : string :=
  let h := hex 32 id in
  String.string_of_list_ascii
    (take 8 h ++ ["-"%char] ++ take 4 (drop 8 h) ++ ["-"%char]
     ++ take 4 (drop 12 h) ++ ["-"%char] ++ take 4 (drop 16 h) ++ ["-"%char]
     ++ drop 20 h).

(** An element of [sampleUsers], or of [generateRandomUsers]. *)
Record SampleUser := {
  sample_username : string;
  sample_email : string;
  sample_role : user_role;
  sample_balance : number
}.

(** The body of the loop [for (const userData of allUsers)] of
    [seedDatabase]: the user is inserted with the balance of [userData];
    then, the balance being positive, an 'initial credit' of that amount is
    sent to [process_transaction].  An error of either statement is
    logged, and the loop goes on. *)
Definition seed_user (for_user for_entry : row_defaults) (Date_now : N)
    (passwordHash : string) (userData : SampleUser) (db : database) : database :=
  match
    atomically
      (insert_user for_user (sample_username userData) (sample_email userData)
         passwordHash (sample_role userData) (sample_balance userData)) db
  with
  | (Err _, db') => db'
  | (Ok id, db') =>
      if 0 <? digits (sample_balance userData)
      then
        (process_transaction for_entry id
           ("initial_credit_" +:+ uuid_text id +:+ "_" +:+ pretty Date_now)
           credit (sample_balance userData) (Some "Initial account funding")
           (Some {[ "source" := json_string "seed"; "type" := json_string "initial_funding" ]}) db').2
      else db'
  end.

(** * The code on values that are not numbers *)

(** A JavaScript [number] and a PostgreSQL [numeric] are, besides the
    decimals, NaN and the two infinities, and a [DECIMAL(15, 2)] column
    holds NaN as well.  The definitions above are the code on decimals.
    Those of this module are [process_transaction] and the four
    operations of [WalletService] on all these values, without the log
    of the statements.  On decimals they do what the definitions above
    do. *)

Module AnyNumber.

(** A JavaScript [number], and a [numeric] without a type modifier, as the
    parameter [p_amount] is: the driver sends a number as the text
    [toString] gives for it, and PostgreSQL reads 'NaN', 'Infinity' and
    '-Infinity' as it reads decimals. *)
Inductive value :=
| decimal (x : number)
| NaN
| Infinity
| minus_Infinity.

(** A [DECIMAL(15, 2)], in a column or in a PL/pgSQL variable: a number
    of cents, or NaN, which the type modifier lets pass. *)
Inductive decimal_15_2 :=
| in_cents (c : Z)
| not_a_number.

Definition to_value (d : decimal_15_2) : value :=
  match d with
  | in_cents c => decimal (cents c)
  | not_a_number => NaN
  end.

(** [x + y] and [x - y] on [numeric]: NaN with anything is NaN, and so is
    the difference of two infinities of one sign. *)
Definition plus (x y : value) : value :=
  match x, y with
  | NaN, _ | _, NaN => NaN
  | Infinity, minus_Infinity | minus_Infinity, Infinity => NaN
  | Infinity, _ | _, Infinity => Infinity
  | minus_Infinity, _ | _, minus_Infinity => minus_Infinity
  | decimal a, decimal b => decimal (plus a b)
  end.

Definition minus (x y : value) : value :=
  match x, y with
  | NaN, _ | _, NaN => NaN
  | Infinity, Infinity | minus_Infinity, minus_Infinity => NaN
  | Infinity, _ | _, minus_Infinity => Infinity
  | minus_Infinity, _ | _, Infinity => minus_Infinity
  | decimal a, decimal b => decimal (minus a b)
  end.

(** The comparisons the function and the [CHECK] constraints make.
    PostgreSQL takes NaN to be equal to NaN and greater than every
    number. *)
Definition is_negative (d : decimal_15_2) : bool :=
  match d with
  | in_cents c => c <? 0
  | not_a_number => false
  end.

Definition is_positive (d : decimal_15_2) : bool :=
  match d with
  | in_cents c => 0 <? c
  | not_a_number => true
  end.

Definition is_not_negative (d : decimal_15_2) : bool :=
  match d with
  | in_cents c => 0 <=? c
  | not_a_number => true
  end.

Definition equal (a b : decimal_15_2) : bool :=
  match a, b with
  | in_cents x, in_cents y => x =? y
  | not_a_number, not_a_number => true
  | _, _ => false
  end.

(** [balance_before + amount] and [balance_before - amount] on columns. *)
Definition added (a b : decimal_15_2) : decimal_15_2 :=
  match a, b with
  | in_cents x, in_cents y => in_cents (x + y)
  | _, _ => not_a_number
  end.

Definition subtracted (a b : decimal_15_2) : decimal_15_2 :=
  match a, b with
  | in_cents x, in_cents y => in_cents (x - y)
  | _, _ => not_a_number
  end.

(** What PostgreSQL raises. *)
Inductive db_error :=
| raise_user_not_found (p_user_id : uuid)
| raise_insufficient_funds (current_balance : decimal_15_2) (p_amount : value)
| numeric_field_overflow
| check_violation (constraint : string)
| unique_violation (constraint : string).

(** Assignment to a variable or a column declared [DECIMAL(15, 2)]: a
    decimal is rounded and must fit; NaN is stored; an infinity is
    refused, 'numeric field overflow'. *)
Definition assign_decimal_15_2 (v : value) : result db_error decimal_15_2 :=
  match v with
  | decimal x =>
      if fits_decimal_15_2 (round_to_cents x) then Ok (in_cents (round_to_cents x))
      else Err numeric_field_overflow
  | NaN => Ok not_a_number
  | Infinity | minus_Infinity => Err numeric_field_overflow
  end.

Record user := {
  username : string;
  email : string;
  password_hash : string;
  balance : decimal_15_2;
  status : user_status;
  role : user_role;
  created_at : timestamp;
  updated_at : timestamp;
  last_login : option timestamp
}.

Record transaction := {
  tx_id : uuid;
  user_id : uuid;
  transaction_id : string;
  tx_type : transaction_type;
  amount : decimal_15_2;
  balance_before : decimal_15_2;
  balance_after : decimal_15_2;
  description : option string;
  metadata : option json_object;
  processed_at : timestamp;
  tx_created_at : timestamp
}.

Record database := {
  users : gmap N user;
  transactions : list transaction
}.

(** The [CASE p_type] block of [process_transaction]. *)
Definition compute_new_balance (p_type : transaction_type)
    (current_balance : decimal_15_2) (p_amount : value)
    : result db_error decimal_15_2 :=
  match p_type with
  | credit | payout | bonus | refund =>
      assign_decimal_15_2 (plus (to_value current_balance) p_amount)
  | debit | wager =>
      new_balance ← assign_decimal_15_2 (minus (to_value current_balance) p_amount);
      if is_negative new_balance
      then Err (raise_insufficient_funds current_balance p_amount)
      else Ok new_balance
  end.

(** [CONSTRAINT transaction_balance_consistency CHECK (...)]. *)
Definition transaction_balance_consistency (r : transaction) : bool :=
  (is_credit_class (tx_type r)
   && equal (balance_after r) (added (balance_before r) (amount r)))
  || (is_debit_class (tx_type r)
      && equal (balance_after r) (subtracted (balance_before r) (amount r))).

(** The [CHECK] constraints of [transactions], in the order of their
    names. *)
Definition transactions_checks (r : transaction) : result db_error unit :=
  if negb (transaction_balance_consistency r)
  then Err (check_violation "transaction_balance_consistency")
  else if negb (is_positive (amount r))
  then Err (check_violation "transactions_amount_check")
  else if negb (is_not_negative (balance_after r))
  then Err (check_violation "transactions_balance_after_check")
  else if negb (is_not_negative (balance_before r))
  then Err (check_violation "transactions_balance_before_check")
  else Ok tt.

(** The unique indexes of [transactions]. *)
Definition transactions_unique (rows : list transaction) (r : transaction)
    : result db_error unit :=
  if existsb (fun r' => N.eqb (tx_id r') (tx_id r)) rows
  then Err (unique_violation "transactions_pkey")
  else if existsb (fun r' => String.eqb (transaction_id r') (transaction_id r)) rows
  then Err (unique_violation "transactions_transaction_id_key")
  else Ok tt.

Abbreviation sql := (stateful database db_error).

(** [SELECT balance INTO current_balance FROM users WHERE id = p_user_id
    FOR UPDATE], and [IF NOT FOUND THEN RAISE EXCEPTION]. *)
Definition select_balance_for_update (p_user_id : uuid) : sql decimal_15_2 :=
  λ db, match users db !! p_user_id with
        | Some u => (Ok (balance u), db)
        | None => (Err (raise_user_not_found p_user_id), db)
        end.

(** [INSERT INTO transactions (...) VALUES (...) RETURNING *]. *)
Definition insert_transaction (r : transaction) : sql transaction :=
  let! _ := lift (transactions_checks r) in
  let! _ := (λ db, (transactions_unique (transactions db) r, db)) in
  λ db, (Ok r, {| users := users db; transactions := transactions db ++ [r] |}).

Definition set_balance (u : user) (new_balance : decimal_15_2) (now : timestamp)
    : user :=
  {| username := username u; email := email u;
     password_hash := password_hash u;
     balance := new_balance;
     status := status u; role := role u;
     created_at := created_at u; updated_at := now;
     last_login := last_login u |}.

(** [UPDATE users SET balance = new_balance, updated_at =
    CURRENT_TIMESTAMP WHERE id = p_user_id], under [CHECK (balance >= 0)]. *)
Definition update_balance (p_user_id : uuid) (new_balance : decimal_15_2)
    (now : timestamp) : sql unit :=
  λ db, match users db !! p_user_id with
        | None => (Ok tt, db)
        | Some u =>
            if negb (is_not_negative new_balance)
            then (Err (check_violation "users_balance_check"), db)
            else (Ok tt, {| users := <[p_user_id := set_balance u new_balance now]> (users db);
                            transactions := transactions db |})
        end.

Definition new_row (gen : row_defaults) (p_user_id : uuid)
    (current_balance : decimal_15_2) (p_transaction_id : string)
    (p_type : transaction_type) (p_amount : decimal_15_2)
    (new_balance : decimal_15_2) (p_description : option string)
    (p_metadata : option json_object) : transaction :=
  {| tx_id := uuid_generate_v4 gen;
     user_id := p_user_id;
     transaction_id := p_transaction_id;
     tx_type := p_type;
     amount := p_amount;
     balance_before := current_balance;
     balance_after := new_balance;
     description := p_description;
     metadata := p_metadata;
     processed_at := current_timestamp gen;
     tx_created_at := current_timestamp gen |}.

(** The body of [process_transaction], between [BEGIN] and [END]. *)
Definition process_transaction_body (gen : row_defaults)
    (p_user_id : uuid) (p_transaction_id : string)
    (p_type : transaction_type) (p_amount : value)
    (p_description : option string) (p_metadata : option json_object)
    : sql transaction :=
  let! current_balance := select_balance_for_update p_user_id in
  let! new_balance := lift (compute_new_balance p_type current_balance p_amount) in
  let! stored_amount := lift (assign_decimal_15_2 p_amount) in
  let! transaction_record :=
    insert_transaction
      (new_row gen p_user_id current_balance p_transaction_id p_type stored_amount
         new_balance p_description p_metadata) in
  let! _ := update_balance p_user_id new_balance (current_timestamp gen) in
  ret transaction_record.

(** A statement is atomic: an exception undoes what it wrote. *)
Definition atomically {A} (body : sql A) : sql A :=
  λ db, match body db with
        | (Ok a, db') => (Ok a, db')
        | (Err e, _) => (Err e, db)
        end.

(** [SELECT * FROM process_transaction(...)] as one statement. *)
Definition process_transaction (gen : row_defaults)
    (p_user_id : uuid) (p_transaction_id : string)
    (p_type : transaction_type) (p_amount : value)
    (p_description : option string) (p_metadata : option json_object)
    : sql transaction :=
  atomically (process_transaction_body gen p_user_id p_transaction_id
                p_type p_amount p_description p_metadata).

Definition balance_of (db : database) (uid : uuid) : option decimal_15_2 :=
  balance <$> users db !! uid.

(** The [Error]s the services and repositories throw, by message. *)
Inductive service_error :=
| User_not_found
| User_account_is (s : user_status)
| Amount_must_be_positive
| Amount_must_have_at_most_2_decimal_places
| Transaction_ID_belongs_to_a_different_user
| Transaction_ID_already_used_for_a_different_operation_type
| Insufficient_funds
| Transaction_ID_already_exists
| database_error (e : db_error).

Abbreviation service := (stateful database service_error).

(** [amount <= 0] in JavaScript: false for NaN. *)
Definition le_zero (amount : value) : bool :=
  match amount with
  | decimal x => digits x <=? 0
  | NaN | Infinity => false
  | minus_Infinity => true
  end.

(** [amount.toString()]. *)
Definition toString (amount : value) : string :=
  match amount with
  | decimal x => toString x
  | NaN => "NaN"
  | Infinity => "Infinity"
  | minus_Infinity => "-Infinity"
  end.

(** [(amount.toString().split('.')[1] || '').length]. *)
Definition decimalPlaces (amount : value) : nat :=
  length (after_point (toString amount)).

(** [WalletService.validateAmount]. *)
Definition validateAmount (amount : value) : service unit :=
  if le_zero amount then throw Amount_must_be_positive
  else if (2 <? decimalPlaces amount)%nat
  then throw Amount_must_have_at_most_2_decimal_places
  else ret tt.

(** The [Transaction] of [types.ts]; [parseFloat] reads 'NaN' as NaN. *)
Module Transaction.
Record t := {
  id : uuid;
  userId : uuid;
  transactionId : string;
  type : transaction_type;
  amount : decimal_15_2;
  balanceBefore : decimal_15_2;
  balanceAfter : decimal_15_2;
  description : option string;
  metadata : option json_object;
  processedAt : timestamp;
  createdAt : json_object
}.
End Transaction.

(** [TransactionRepository.convertNumericFields]. *)
Definition convertNumericFields (now : timestamp) (row : transaction)
    : Transaction.t :=
  {| Transaction.id := tx_id row;
     Transaction.userId := user_id row;
     Transaction.transactionId := transaction_id row;
     Transaction.type := tx_type row;
     Transaction.amount := amount row;
     Transaction.balanceBefore := balance_before row;
     Transaction.balanceAfter := balance_after row;
     Transaction.description := description row;
     Transaction.metadata := toCamelCase_members <$> metadata row;
     Transaction.processedAt := now;
     Transaction.createdAt := ∅ |}.

(** [TransactionRepository.getTransactionByTransactionId]. *)
Definition getTransactionByTransactionId (rt : runtime) (transactionId : string)
    : service (option Transaction.t) :=
  λ db, (Ok (convertNumericFields (new_Date rt 0)
               <$> List.find (fun r => String.eqb (transaction_id r) transactionId)
                     (transactions db)), db).

(** [UserService.validateUserExists]. *)
Definition validateUserExists (id : uuid) : service unit :=
  λ db, match users db !! id with
        | None => (Err User_not_found, db)
        | Some u =>
            if decide (status u = active) then (Ok tt, db)
            else (Err (User_account_is (status u)), db)
        end.

(** The [catch] block of [createTransaction]. *)
Definition translate_error (e : db_error) : service_error :=
  match e with
  | raise_user_not_found _ => User_not_found
  | raise_insufficient_funds _ _ => Insufficient_funds
  | unique_violation _ => Transaction_ID_already_exists
  | numeric_field_overflow | check_violation _ => database_error e
  end.

(** [TransactionRepository.createTransaction]. *)
Definition createTransaction (rt : runtime) (gen : row_defaults) (userId : uuid)
    (transactionId : string) (type : transaction_type) (amount : value)
    (description : option string) (metadata : option json_object)
    : service Transaction.t :=
  λ db,
    match
      process_transaction gen userId transactionId type amount
        (description_or_null description) metadata db
    with
    | (Ok row, db') => (Ok (convertNumericFields (new_Date rt 0) row), db')
    | (Err e, db') => (Err (translate_error e), db')
    end.

(** [CreditRequest] and [DebitRequest]. *)
Record WalletOperationRequest := {
  transactionId : string;
  req_amount : value;
  req_description : option string;
  req_metadata : option json_object
}.

(** The body [creditUser] and [debitUser] share. *)
Definition credit_or_debit (op : transaction_type) (rt : runtime)
    (gen : row_defaults) (userId : uuid_string) (request : WalletOperationRequest)
    : service Transaction.t :=
  let! existingTransaction :=
    getTransactionByTransactionId rt (transactionId request) in
  match existingTransaction with
  | Some existing =>
      if negb (is_text_of (Transaction.userId existing) userId)
      then throw Transaction_ID_belongs_to_a_different_user
      else if negb (bool_decide (Transaction.type existing = op))
      then throw Transaction_ID_already_used_for_a_different_operation_type
      else ret existing
  | None =>
      let! _ := validateUserExists (read_as userId) in
      let! _ := validateAmount (req_amount request) in
      createTransaction rt gen (read_as userId) (transactionId request) op
        (req_amount request) (req_description request) (req_metadata request)
  end.

(** [WalletService.creditUser]. *)
Definition creditUser := credit_or_debit credit.

(** [WalletService.debitUser]. *)
Definition debitUser := credit_or_debit debit.

(** [WalletService.processWager]. *)
Definition processWager (rt : runtime) (gen : row_defaults) (userId : uuid)
    (amount : value) (gameId : option string) (metadata : option json_object)
    : service Transaction.t :=
  let transactionId := "wager_" +:+ uuidv4 rt +:+ "_" +:+ pretty (Date_now rt) in
  let! _ := validateUserExists userId in
  createTransaction rt gen userId transactionId wager amount
    (Some (match gameId with
           | Some g => if decide (g = "") then "Game wager" else "Wager for game " +:+ g
           | None => "Game wager"
           end))
    (Some (game_metadata gameId metadata)).

(** [WalletService.processPayout]. *)
Definition processPayout (rt : runtime) (gen : row_defaults) (userId : uuid)
    (amount : value) (gameId : option string) (metadata : option json_object)
    : service Transaction.t :=
  let transactionId := "payout_" +:+ uuidv4 rt +:+ "_" +:+ pretty (Date_now rt) in
  let! _ := validateUserExists userId in
  createTransaction rt gen userId transactionId payout amount
    (Some (match gameId with
           | Some g => if decide (g = "") then "Game payout" else "Payout for game " +:+ g
           | None => "Game payout"
           end))
    (Some (game_metadata gameId metadata)).

(** The four operations [WalletService] offers on a wallet. *)
Inductive operation :=
| credit_op (userId : uuid_string) (request : WalletOperationRequest)
| debit_op (userId : uuid_string) (request : WalletOperationRequest)
| wager_op (userId : uuid) (amount : value) (gameId : option string)
    (metadata : option json_object)
| payout_op (userId : uuid) (amount : value) (gameId : option string)
    (metadata : option json_object).

Definition perform (rt : runtime) (gen : row_defaults) (o : operation)
    : service Transaction.t :=
  match o with
  | credit_op userId request => creditUser rt gen userId request
  | debit_op userId request => debitUser rt gen userId request
  | wager_op userId amount gameId metadata =>
      processWager rt gen userId amount gameId metadata
  | payout_op userId amount gameId metadata =>
      processPayout rt gen userId amount gameId metadata
  end.

Definition operation_amount (o : operation) : value :=
  match o with
  | credit_op _ request | debit_op _ request => req_amount request
  | wager_op _ amount _ _ | payout_op _ amount _ _ => amount
  end.

(** Every balance is a number, and 0 or more. *)
Definition balances_non_negative (db : database) : Prop :=
  ∀ id u, users db !! id = Some u → ∃ c, balance u = in_cents c ∧ 0 ≤ c.

(** [CHECK (balance >= 0)] on every row of [users], as PostgreSQL
    evaluates it. *)
Definition balances_pass_the_check (db : database) : Prop :=
  ∀ id u, users db !! id = Some u → is_not_negative (balance u) = true.

(** Neither the key nor the generated row id occurs in [transactions]. *)
Definition unused (db : database) (gen : row_defaults) (key : string) : Prop :=
  ∀ r, r ∈ transactions db → tx_id r ≠ uuid_generate_v4 gen ∧ transaction_id r ≠ key.

(** The tables once [process_transaction] has inserted [row] for the
    account [uid], whose row was [u]. *)
Definition written (db : database) (uid : uuid) (u : user) (row : transaction)
    : database :=
  {| users := <[uid := set_balance u (balance_after row) (processed_at row)]> (users db);
     transactions := transactions db ++ [row] |}.

End AnyNumber.

(** A row, a table and a result of the code on decimals, among all the
    values. *)
Definition any_user (u : user) : AnyNumber.user :=
  {| AnyNumber.username := username u; AnyNumber.email := email u;
     AnyNumber.password_hash := password_hash u;
     AnyNumber.balance := AnyNumber.in_cents (balance u);
     AnyNumber.status := status u; AnyNumber.role := role u;
     AnyNumber.created_at := created_at u; AnyNumber.updated_at := updated_at u;
     AnyNumber.last_login := last_login u |}.

Definition any_transaction (r : transaction) : AnyNumber.transaction :=
  {| AnyNumber.tx_id := tx_id r;
     AnyNumber.user_id := user_id r;
     AnyNumber.transaction_id := transaction_id r;
     AnyNumber.tx_type := tx_type r;
     AnyNumber.amount := AnyNumber.in_cents (amount r);
     AnyNumber.balance_before := AnyNumber.in_cents (balance_before r);
     AnyNumber.balance_after := AnyNumber.in_cents (balance_after r);
     AnyNumber.description := description r;
     AnyNumber.metadata := metadata r;
     AnyNumber.processed_at := processed_at r;
     AnyNumber.tx_created_at := tx_created_at r |}.

Definition any_database (db : database) : AnyNumber.database :=
  {| AnyNumber.users := any_user <$> users db;
     AnyNumber.transactions := any_transaction <$> transactions db |}.

Definition any_db_error (e : db_error) : AnyNumber.db_error :=
  match e with
  | raise_user_not_found id => AnyNumber.raise_user_not_found id
  | raise_insufficient_funds c x =>
      AnyNumber.raise_insufficient_funds (AnyNumber.in_cents c) (AnyNumber.decimal x)
  | numeric_field_overflow => AnyNumber.numeric_field_overflow
  | check_violation c => AnyNumber.check_violation c
  | unique_violation c => AnyNumber.unique_violation c
  end.

Definition any_result {E E' A A'} (error : E → E') (value : A → A') (r : result E A)
    : result E' A' :=
  match r with
  | Ok a => Ok (value a)
  | Err e => Err (error e)
  end.

Definition any_service_error (e : service_error) : AnyNumber.service_error :=
  match e with
  | User_not_found => AnyNumber.User_not_found
  | User_account_is s => AnyNumber.User_account_is s
  | Amount_must_be_positive => AnyNumber.Amount_must_be_positive
  | Amount_must_have_at_most_2_decimal_places =>
      AnyNumber.Amount_must_have_at_most_2_decimal_places
  | Transaction_ID_belongs_to_a_different_user =>
      AnyNumber.Transaction_ID_belongs_to_a_different_user
  | Transaction_ID_already_used_for_a_different_operation_type =>
      AnyNumber.Transaction_ID_already_used_for_a_different_operation_type
  | Insufficient_funds => AnyNumber.Insufficient_funds
  | Transaction_ID_already_exists => AnyNumber.Transaction_ID_already_exists
  | database_error e => AnyNumber.database_error (any_db_error e)
  end.

Definition any_entry (e : Transaction.t) : AnyNumber.Transaction.t :=
  {| AnyNumber.Transaction.id := Transaction.id e;
     AnyNumber.Transaction.userId := Transaction.userId e;
     AnyNumber.Transaction.transactionId := Transaction.transactionId e;
     AnyNumber.Transaction.type := Transaction.type e;
     AnyNumber.Transaction.amount := AnyNumber.in_cents (Transaction.amount e);
     AnyNumber.Transaction.balanceBefore := AnyNumber.in_cents (Transaction.balanceBefore e);
     AnyNumber.Transaction.balanceAfter := AnyNumber.in_cents (Transaction.balanceAfter e);
     AnyNumber.Transaction.description := Transaction.description e;
     AnyNumber.Transaction.metadata := Transaction.metadata e;
     AnyNumber.Transaction.processedAt := Transaction.processedAt e;
     AnyNumber.Transaction.createdAt := Transaction.createdAt e |}.

Definition any_request (r : WalletOperationRequest) : AnyNumber.WalletOperationRequest :=
  {| AnyNumber.transactionId := transactionId r;
     AnyNumber.req_amount := AnyNumber.decimal (req_amount r);
     AnyNumber.req_description := req_description r;
     AnyNumber.req_metadata := req_metadata r |}.

Definition any_operation (o : operation) : AnyNumber.operation :=
  match o with
  | credit_op userId request => AnyNumber.credit_op userId (any_request request)
  | debit_op userId request => AnyNumber.debit_op userId (any_request request)
  | wager_op userId amount gameId metadata =>
      AnyNumber.wager_op userId (AnyNumber.decimal amount) gameId metadata
  | payout_op userId amount gameId metadata =>
      AnyNumber.payout_op userId (AnyNumber.decimal amount) gameId metadata
  end.

(** What a service returns or throws, and the tables it leaves. *)
Definition any_outcome (o : result service_error Transaction.t * world)
    : result AnyNumber.service_error AnyNumber.Transaction.t * AnyNumber.database :=
  (any_result any_service_error any_entry o.1, any_database (store o.2)).

(** ** Every writer of the two tables *)

(** The services and repositories write through [act]; the seeding script
    also calls [process_transaction] itself, with keys and types of its
    own. *)
Inductive write :=
| by_action (a : action)
| by_process_transaction (c : call).

Definition perform_write (w : write) (db : database) : database :=
  match w with
  | by_action a => act a db
  | by_process_transaction c => (process_call c db).2
  end.

(** The database after the writes [ws], oldest first, on the tables as
    [init.sql] creates them. *)
Definition after_writes (ws : list write) : database :=
  foldl (λ db w, perform_write w db) empty_database ws.

(** ** Vocabulary of the statements on the ledger *)

(** The entries of an account, oldest first. *)
Definition entries_of (db : database) (uid : uuid) : list transaction :=
  filter (λ r, user_id r = uid) (transactions db).

(** No two entries share an idempotency key, and no two share a row id. *)
Definition keys_unique (db : database) : Prop :=
  NoDup (transaction_id <$> transactions db) ∧ NoDup (tx_id <$> transactions db).

(** [user_id UUID NOT NULL REFERENCES users(id)]. *)
Definition owners_exist (db : database) : Prop :=
  ∀ r, r ∈ transactions db → is_Some (users db !! user_id r).

(** The entries of an account form a chain that ends at its balance: each
    starts from the balance the one before it left, and the last left the
    balance the account has. *)
Definition account_chained (db : database) (uid : uuid) : Prop :=
  (∀ k e1 e2,
     entries_of db uid !! k = Some e1 → entries_of db uid !! S k = Some e2 →
     balance_before e2 = balance_after e1) ∧
  (∀ e, last (entries_of db uid) = Some e →
     balance_of db uid = Some (balance_after e)).

(** What the statistics of an account say it received, less what they say
    it paid. *)
Definition net_credited (db : database) (uid : uuid) : Z :=
  let stats := TransactionRepository.getTransactionStats (Some uid) db in
  TransactionRepository.totalCredits stats - TransactionRepository.totalDebits stats.

(** An account that is opened is opened with balance 0.00, as
    [UserRepository.createUser] opens it. *)
Definition opens_at_zero (w : write) : Prop :=
  match w with
  | by_action (do_insert_user _ _ _ _ _ initial) => round_to_cents initial = 0
  | _ => True
  end.

(** What a write does to the two tables: it leaves the entries and every
    balance as they are; or it opens an account; or it is a call of
    [process_transaction] that returned. *)
Inductive write_effect (w : write) (db db' : database) : Prop :=
| touches_no_balance :
    transactions db' = transactions db →
    (∀ id, balance_of db' id = balance_of db id) →
    write_effect w db db'
| opens_account gen name mail hash r initial id u :
    w = by_action (do_insert_user gen name mail hash r initial) →
    transactions db' = transactions db →
    users db !! id = None →
    users db' = <[id := u]> (users db) →
    balance u = round_to_cents initial →
    write_effect w db db'
| adds_entry gen uid key ty amt d m entry :
    process_transaction gen uid key ty amt d m db = (Ok entry, db') →
    write_effect w db db'.

(** What the calls that have succeeded so far have left behind: the ledger
    has grown by the entries [new], which hold the entry of each of these
    calls under its key, a key the ledger did not have at the start; and
    no two of these calls had the same key. *)
Definition commits_recorded (db : database) (sys : system) : Prop :=
  (∃ new, transactions (committed sys) = transactions db ++ new ∧
     ∀ i c r, calls sys !! i = Some (c, returned (Ok r)) →
       r ∈ new ∧ transaction_id r = p_transaction_id c ∧
       p_transaction_id c ∉ transaction_id <$> transactions db) ∧
  (∀ i j ci cj ri rj,
     calls sys !! i = Some (ci, returned (Ok ri)) →
     calls sys !! j = Some (cj, returned (Ok rj)) →
     p_transaction_id ci = p_transaction_id cj → i = j).

(** ** Vocabulary of the statements on names *)

(** Some character of [s] is one of [A-Z]. *)
Fixpoint has_upper (s : string) : bool :=
  match s with
  | EmptyString => false
  | String c rest => is_upper c || has_upper rest
  end.

(** Somewhere in [s] an underscore stands before one of [a-z]. *)
Fixpoint has_snake (s : string) : bool :=
  match s with
  | EmptyString => false
  | String c rest =>
      match rest with
      | String l _ => (Ascii.eqb c "_" && is_lower l) || has_snake rest
      | EmptyString => false
      end
  end.

(** No member name of [v], at any depth, has an underscore before one of
    [a-z]. *)
Fixpoint no_snake_names (v : json_value) : bool :=
  match v with
  | json_array items => forallb no_snake_names items
  | json_obj members =>
      map_fold (λ name member ok, negb (has_snake name) && no_snake_names member && ok)
        true members
  | _ => true
  end.

(** The number of values in [v], to reason by induction on. *)
Fixpoint json_size (v : json_value) : nat :=
  match v with
  | json_array items => S (foldr (λ item n, json_size item + n)%nat 0%nat items)
  | json_obj members =>
      S (map_fold (λ _ member n, json_size member + n)%nat 0%nat members)
  | _ => 1%nat
  end.

(** Every character of [s] is an ASCII character: [toLowerCase] changes
    [A-Z] alone. *)
Fixpoint ascii_only (s : string) : bool :=
  match s with
  | EmptyString => true
  | String c rest => (nat_of_ascii c <? 128)%nat && ascii_only rest
  end.

(** ** More samples *)

(** Dana registers through [createUser], is credited 100.50 under "k1"
    and debited 50.25 under "k2". *)
Definition dana_history : list write :=
  [by_action (do_insert_user (at_time 9 0) "dana" "dana@example.com" "$2b$" player
                (cents 0));
   by_action (do_operation (clock 101) (at_time 31 100)
                (credit_op 9 (request "k1" 10050)));
   by_action (do_operation (clock 201) (at_time 32 200)
                (debit_op 9 (request "k2" 5025)))].

(** The query [q] asked for page [p]. *)
Definition on_page (p : Z) (q : ListTransactionsQuery) : ListTransactionsQuery :=
  {| page := Some p; limit := limit q; sortBy := sortBy q; sortOrder := sortOrder q;
     userId := userId q; type := type q; dateFrom := dateFrom q; dateTo := dateTo q |}.

Definition two_by_id : ListTransactionsQuery :=
  {| page := Some 1; limit := Some 2; sortBy := Some "id"; sortOrder := Some asc;
     userId := None; type := None; dateFrom := None; dateTo := None |}.

Definition two_to_a_page : ListTransactionsQuery :=
  {| page := Some 1; limit := Some 2; sortBy := Some "amount"; sortOrder := Some asc;
     userId := None; type := None; dateFrom := None; dateTo := None |}.

(** A [bcrypt.compare] that knows one password for every hash, and a
    [jwt.sign] that writes the name into the token. *)
Definition sample_libraries : libraries :=
  {| bcrypt_compare := λ password _, String.eqb password "secret";
     jwt_sign := λ _ name _, "token for " +:+ name |}.

(** A credit of 100.5, printed with one decimal, with an empty
    description and metadata that hold an object and an array. *)
Definition noted_request : WalletOperationRequest :=
  {| transactionId := "k1"; req_amount := {| digits := 1005; places := 1 |};
     req_description := Some "";
     req_metadata :=
       Some {[ "source" := json_string "bank";
               "batch" := json_obj {[ "batchNo" := json_number (cents 700) ]};
               "tags" := json_array [json_string "a_b"; json_null] ]} |}.

(** Greta is account 8 and holds 9,999,999,999,999.98. *)
Definition greta : user :=
  {| username := "greta"; email := "greta@example.com"; password_hash := "$2b$";
     balance := 10 ^ 15 - 2; status := active; role := player;
     created_at := 0; updated_at := 0; last_login := None |}.

Definition full_account : database :=
  {| users := {[ 8%N := greta ]}; transactions := [] |}.

(** The second of the [sampleUsers] of the seeding script. *)
Definition johndoe : SampleUser :=
  {| sample_username := "johndoe"; sample_email := "john@example.com";
     sample_role := player; sample_balance := cents 100050 |}.

(** Texts in the way of PostgreSQL's, without the quotation marks and
    the values it prints, to run the handlers with. *)
Definition sample_pg_message (e : db_error) : string :=
  match e with
  | numeric_field_overflow => "numeric field overflow"
  | check_violation constraint => "violates check constraint " +:+ constraint
  | unique_violation constraint =>
      "duplicate key value violates unique constraint " +:+ constraint
  | raise_user_not_found p_user_id => "User not found: " +:+ uuid_text p_user_id
  | raise_insufficient_funds _ _ => "Insufficient funds."
  end.

(** Alice is credited 100.50 under "k1", with a description and with
    metadata that hold an object; then an administrator suspends her. *)
Definition noted_k1 : transaction :=
  new_row (at_time 100 1000) 1 5025 "k1" credit 10050 15075 (Some "first")
    (Some {[ "source" := json_string "bank";
             "outer" := json_obj {[ "inner_key" := json_string "1" ]} ]}).

Definition alice_noted_suspended : database :=
  (updateUserStatus 2000 1 suspended
     {| users := <[1%N := set_balance alice 15075 1000]> (users two_accounts);
        transactions := [noted_k1] |}).2.

(** The id of Alice written without its hyphens: PostgreSQL reads it as
    her id, and prints her id with them. *)
Definition alice_without_hyphens : uuid_string :=
  {| read_as := 1; as_printed := false |}.

(** A request under the key "k1", and one under the key "k9", new to
    every sample. *)
Definition request_k1 : WalletOperationRequest :=
  {| transactionId := "k1"; req_amount := cents 10050;
     req_description := None; req_metadata := None |}.

Definition request_k9 : WalletOperationRequest :=
  {| transactionId := "k9"; req_amount := cents 10050;
     req_description := None; req_metadata := None |}.

(** * Properties *)

(** ** The scenarios of the specification, evaluated *)

Module Scenarios.

(** A: a new account is credited 100.50 under "k1". *)
Example scenario_A :
  (creditUser (clock 101) (at_time 31 100) 9 (request "k1" 10050)
     (fresh_world registered)).1
  = Ok (convertNumericFields 101 dana_k1) ∧
  store (creditUser (clock 101) (at_time 31 100) 9 (request "k1" 10050)
           (fresh_world registered)).2
  = after_k1 ∧
  balance_of after_k1 9 = Some 10050.
Proof. by vm_compute. Qed.

(** B: a debit of 50.25 under "k2". *)
Example scenario_B :
  (debitUser (clock 201) (at_time 32 200) 9 (request "k2" 5025)
     (fresh_world after_k1)).1
  = Ok (convertNumericFields 201 dana_k2) ∧
  store (debitUser (clock 201) (at_time 32 200) 9 (request "k2" 5025)
           (fresh_world after_k1)).2
  = after_k2 ∧
  balance_of after_k2 9 = Some 5025.
Proof. by vm_compute. Qed.

(** C: the credit under "k1" is sent again. *)
Example scenario_C :
  creditUser (clock 301) (at_time 33 300) 9 (request "k1" 10050) (fresh_world after_k2)
  = (Ok (convertNumericFields 301 dana_k1),
     {| store := after_k2; issued := [select_transaction_by_transaction_id "k1"] |}).
Proof. by vm_compute. Qed.

(** D: a debit of 1000.00 under "k3" exceeds the balance of 50.25. *)
Example scenario_D :
  (debitUser (clock 401) (at_time 34 400) 9 (request "k3" 100000)
     (fresh_world after_k2)).1
  = Err Insufficient_funds ∧
  store (debitUser (clock 401) (at_time 34 400) 9 (request "k3" 100000)
           (fresh_world after_k2)).2
  = after_k2 ∧
  find_transaction (transactions after_k2) "k3" = None.
Proof. by vm_compute. Qed.

(** E: five debits of 100.00 from 1000.00, interleaved. *)
Example scenario_E :
  let final := run [0; 1; 2; 1; 0; 0; 1; 1; 2; 2; 3; 4; 3; 4; 4]%nat
                 (start one_account five_debits) in
  balance_of (committed final) 5 = Some 50000 ∧
  length (transactions (committed final)) = 5%nat ∧
  returned_count (calls final) = 5%nat.
Proof. by vm_compute. Qed.

End Scenarios.

(** ** JSON values *)

Module Json.

Local Arguments camel_case : simpl never.

Lemma camel_case_same s : has_snake s = false → camel_case s = s.
Proof.
  remember (String.length s) as n eqn:Hn. revert s Hn.
  induction n as [n IH] using lt_wf_ind. intros s Hn Hsn.
  destruct s as [|c [|l rest]]; [done|done|].
  change (has_snake (String c (String l rest)))
    with ((Ascii.eqb c "_" && is_lower l) || has_snake (String l rest)) in Hsn.
  apply orb_false_elim in Hsn as [Hhere Hrest].
  change (camel_case (String c (String l rest)))
    with (if Ascii.eqb c "_" && is_lower l
          then String (to_upper l) (camel_case rest)
          else String c (camel_case (String l rest))).
  rewrite Hhere. f_equal. apply (IH (String.length (String l rest))); [|done|done].
  simpl in *. lia.
Qed.

Lemma json_size_member (m : json_object) k v :
  m !! k = Some v → (json_size v < json_size (json_obj m))%nat.
Proof.
  simpl. revert k v.
  induction m as [|k' v' m Hk' Hfold IH] using map_first_key_ind.
  - intros k v. by rewrite lookup_empty.
  - intros k v. rewrite map_fold_insert_first_key by done.
    intros [[-> ->]|[? Hm]]%lookup_insert_Some; [lia|].
    apply IH in Hm. lia.
Qed.

Lemma json_size_item items v :
  v ∈ items → (json_size v < json_size (json_array items))%nat.
Proof. simpl. induction 1; simpl; lia. Qed.

Lemma no_snake_names_member (m : json_object) k v :
  no_snake_names (json_obj m) = true → m !! k = Some v →
  has_snake k = false ∧ no_snake_names v = true.
Proof.
  simpl. revert k v.
  induction m as [|k' v' m Hk' Hfold IH] using map_first_key_ind.
  - intros k v _. by rewrite lookup_empty.
  - intros k v. rewrite map_fold_insert_first_key by done.
    intros [[Hk Hv]%andb_prop Hrest]%andb_prop.
    intros [[-> ->]|[? Hm]]%lookup_insert_Some.
    + split; [by apply negb_true_iff|done].
    + by apply IH.
Qed.

(** Assignments one after the other: the last one under a name stays. *)
Lemma foldl_insert {A} (f : string → string) (l : list (string * A))
    (acc : gmap string A) :
  foldl (λ result kv, <[f kv.1 := kv.2]> result) acc l
  = list_to_map (reverse ((λ kv, (f kv.1, kv.2)) <$> l)) ∪ acc.
Proof.
  revert acc. induction l as [|[k v] l IH]; intros acc; simpl.
  - change (reverse []) with (@nil (string * A)). simpl. by rewrite map_empty_union.
  - rewrite IH, reverse_cons, list_to_map_app. simpl.
    rewrite <- map_union_assoc. f_equal.
    by rewrite insert_empty, <- insert_union_singleton_l.
Qed.

Lemma assign_renamed_same {A} (m : gmap string A) :
  (∀ k, is_Some (m !! k) → has_snake k = false) → assign_renamed m = m.
Proof.
  intros Hkeys. unfold assign_renamed. rewrite foldl_insert, map_union_empty.
  set (sorted := merge_sort jsonb_order (map_to_list m)).
  assert (sorted ≡ₚ map_to_list m) as Hperm by apply merge_sort_Permutation.
  assert ((λ kv : string * A, (camel_case kv.1, kv.2)) <$> sorted = sorted) as ->.
  { rewrite <- (list_fmap_id sorted) at 2.
    apply Forall_fmap_ext, Forall_forall. intros [k v] Hin. simpl.
    rewrite Hperm in Hin. apply elem_of_map_to_list in Hin.
    rewrite camel_case_same; [done|]. apply Hkeys. by eexists. }
  etrans; [|apply (list_to_map_to_list m)].
  apply list_to_map_proper.
  - rewrite reverse_Permutation, Hperm. apply NoDup_fst_map_to_list.
  - by rewrite reverse_Permutation.
Qed.

(** A value without such names comes back from [toCamelCase] as it went
    in. *)
Lemma toCamelCase_same v : no_snake_names v = true → toCamelCase v = v.
Proof.
  remember (json_size v) as n eqn:Hn. revert v Hn.
  induction n as [n IH] using lt_wf_ind. intros v -> Hv.
  destruct v as [| | | |items|m]; try done.
  - simpl. f_equal. rewrite <- (list_fmap_id items) at 2.
    apply Forall_fmap_ext, Forall_forall. intros item Hin.
    apply (IH (json_size item)); [by apply json_size_item|done|].
    simpl in Hv. rewrite forallb_forall in Hv. apply Hv. by apply list_elem_of_In.
  - simpl. f_equal.
    assert (toCamelCase <$> m = m) as ->.
    { apply map_eq. intros k. rewrite lookup_fmap.
      destruct (m !! k) as [member|] eqn:Hk; [|done]. simpl. f_equal.
      apply (IH (json_size member)); [by eapply json_size_member|done|].
      by destruct (no_snake_names_member _ _ _ Hv Hk). }
    apply assign_renamed_same. intros k [member Hk].
    by destruct (no_snake_names_member _ _ _ Hv Hk).
Qed.

Lemma toCamelCase_members_same (o : json_object) :
  no_snake_names (json_obj o) = true → toCamelCase_members o = o.
Proof.
  intros H%toCamelCase_same. simpl in H. by injection H.
Qed.

End Json.

(** ** The transaction engine *)

Module Engine.

(** Values of scale 2 are added, subtracted and stored without rounding. *)
Lemma round_to_cents_cents c : round_to_cents (cents c) = c.
Proof. unfold round_to_cents, cents. simpl. lia. Qed.

Lemma round_hundredths m :
  Z.sgn (m * 100) * ((Z.abs (m * 100) + 100 / 2) / 100) = m.
Proof.
  rewrite Z.abs_mul, Z.sgn_mul. change (Z.abs 100) with 100.
  change (Z.sgn 100) with 1. change (100 / 2) with 50.
  rewrite Z.div_add_l by lia. change (50 / 100) with 0.
  rewrite Z.mul_1_r, Z.add_0_r. destruct m; simpl; lia.
Qed.

Lemma round_plus_cents x y : round_to_cents (plus (cents x) (cents y)) = x + y.
Proof.
  unfold round_to_cents, plus, cents. cbn [digits places].
  change (2 + 2 <=? 2)%nat with false. cbv iota.
  change (10 ^ Z.of_nat (2 + 2 - 2)) with 100.
  change (10 ^ Z.of_nat 2) with 100.
  replace (x * 100 + y * 100) with ((x + y) * 100) by lia.
  apply round_hundredths.
Qed.

Lemma round_minus_cents x y : round_to_cents (minus (cents x) (cents y)) = x - y.
Proof.
  unfold round_to_cents, minus, cents. cbn [digits places].
  change (2 + 2 <=? 2)%nat with false. cbv iota.
  change (10 ^ Z.of_nat (2 + 2 - 2)) with 100.
  change (10 ^ Z.of_nat 2) with 100.
  replace (x * 100 - y * 100) with ((x - y) * 100) by lia.
  apply round_hundredths.
Qed.

Lemma fits_decimal_15_2_spec v :
  fits_decimal_15_2 v = true ↔ - decimal_15_2_limit < v < decimal_15_2_limit.
Proof.
  unfold fits_decimal_15_2. rewrite andb_true_iff, !Z.ltb_lt. tauto.
Qed.

Lemma assign_decimal_15_2_Ok v c :
  assign_decimal_15_2 v = Ok c → c = round_to_cents v ∧ fits_decimal_15_2 c = true.
Proof.
  unfold assign_decimal_15_2.
  destruct (fits_decimal_15_2 (round_to_cents v)) eqn:Hfit; [|discriminate].
  by intros [= <-].
Qed.

Lemma assign_decimal_15_2_cents c :
  fits_decimal_15_2 c = true → assign_decimal_15_2 (cents c) = Ok c.
Proof. intros H. unfold assign_decimal_15_2. by rewrite round_to_cents_cents, H. Qed.

(** A successful insert: the row is appended, it satisfies the checks and
    collides with no stored row. *)
Lemma insert_transaction_Ok r db r' db' :
  insert_transaction r db = (Ok r', db') →
  r' = r ∧
  db' = {| users := users db; transactions := transactions db ++ [r] |} ∧
  transactions_checks r = Ok tt ∧
  transactions_unique (transactions db) r = Ok tt.
Proof.
  unfold insert_transaction, bind, lift.
  destruct (transactions_checks r) as [[]|]; [|discriminate].
  destruct (transactions_unique (transactions db) r) as [[]|]; [|discriminate].
  intros [= <- <-]. done.
Qed.

Lemma transactions_checks_Ok r :
  transactions_checks r = Ok tt →
  transaction_balance_consistency r = true ∧
  0 < amount r ∧ 0 ≤ balance_after r ∧ 0 ≤ balance_before r.
Proof.
  unfold transactions_checks.
  destruct (transaction_balance_consistency r); [|discriminate].
  destruct (Z.ltb_spec 0 (amount r)); [|discriminate].
  destruct (Z.leb_spec 0 (balance_after r)); [|discriminate].
  destruct (Z.leb_spec 0 (balance_before r)); [|discriminate].
  done.
Qed.

(** What [transaction_balance_consistency] says of a row, by the class of
    its type. *)
Lemma transaction_balance_consistency_spec r :
  transaction_balance_consistency r = true →
  (is_credit_class (tx_type r) = true →
     balance_after r = balance_before r + amount r) ∧
  (is_debit_class (tx_type r) = true →
     balance_after r = balance_before r - amount r).
Proof.
  unfold transaction_balance_consistency.
  destruct (tx_type r); simpl; rewrite ?orb_false_r;
    intros H%Z.eqb_eq; split; done.
Qed.

Lemma transactions_unique_fresh rows r :
  (∀ r', r' ∈ rows → tx_id r' ≠ tx_id r) →
  (∀ r', r' ∈ rows → transaction_id r' ≠ transaction_id r) →
  transactions_unique rows r = Ok tt.
Proof.
  intros Hid Hkey. unfold transactions_unique.
  destruct (existsb _ rows) eqn:E1.
  { apply existsb_exists in E1 as (r' & Hin & Heq).
    apply N.eqb_eq in Heq. apply list_elem_of_In in Hin. by destruct (Hid r'). }
  destruct (existsb (λ r', String.eqb _ _) rows) eqn:E2; [|done].
  apply existsb_exists in E2 as (r' & Hin & Heq).
  apply String.eqb_eq in Heq. apply list_elem_of_In in Hin. by destruct (Hkey r').
Qed.

(** What a successful run of the locked part did. *)
Lemma process_locked_Ok gen uid cur key ty amt d m db entry db' :
  process_locked gen uid cur key ty amt d m db = (Ok entry, db') →
  ∃ nb,
    compute_new_balance ty cur amt = Ok nb ∧
    entry = new_row gen uid cur key ty (round_to_cents amt) nb d m ∧
    transactions_checks entry = Ok tt ∧
    transactions_unique (transactions db) entry = Ok tt ∧
    0 ≤ nb ∧
    transactions db' = transactions db ++ [entry] ∧
    users db' =
      match users db !! uid with
      | Some u => <[uid := set_balance u nb (current_timestamp gen)]> (users db)
      | None => users db
      end.
Proof.
  unfold process_locked, bind at 1, lift.
  destruct (compute_new_balance ty cur amt) as [nb|] eqn:Hnb; [|discriminate].
  unfold bind at 1.
  destruct (assign_decimal_15_2 amt) as [stored|] eqn:Hst; [|discriminate].
  apply assign_decimal_15_2_Ok in Hst as [-> _].
  unfold bind at 1.
  destruct (insert_transaction _ db) as [[r|] db1] eqn:Hins; [|discriminate].
  apply insert_transaction_Ok in Hins as (-> & -> & Hchk & Huniq).
  apply transactions_checks_Ok in Hchk as Hc. simpl in Hc.
  unfold bind, update_balance, ret; simpl.
  destruct (users db !! uid) as [u|] eqn:Hu.
  - destruct (Z.leb_spec 0 nb); simpl; [|discriminate].
    intros [= <- <-]. exists nb. by rewrite ?Hu.
  - intros [= <- <-]. exists nb. simpl. split_and!; try done. lia.
Qed.

(** A failed run of the whole statement leaves the database as it was. *)
Lemma process_transaction_Err gen uid key ty amt d m db e db' :
  process_transaction gen uid key ty amt d m db = (Err e, db') → db' = db.
Proof.
  unfold process_transaction, atomically.
  destruct (process_transaction_body _ _ _ _ _ _ _ db) as [[?|?] ?]; [discriminate|].
  by intros [= _ <-].
Qed.

(** What a successful call did. *)
Lemma process_transaction_Ok gen uid key ty amt d m db entry db' :
  process_transaction gen uid key ty amt d m db = (Ok entry, db') →
  ∃ u nb,
    users db !! uid = Some u ∧
    compute_new_balance ty (balance u) amt = Ok nb ∧
    entry = new_row gen uid (balance u) key ty (round_to_cents amt) nb d m ∧
    transactions_checks entry = Ok tt ∧
    transactions_unique (transactions db) entry = Ok tt ∧
    0 ≤ nb ∧
    db' = {| users := <[uid := set_balance u nb (current_timestamp gen)]> (users db);
             transactions := transactions db ++ [entry] |}.
Proof.
  unfold process_transaction, atomically.
  destruct (process_transaction_body _ _ _ _ _ _ _ db) as [[r|?] db1] eqn:Hbody;
    [|discriminate].
  intros [= -> ->].
  unfold process_transaction_body, bind at 1, select_balance_for_update in Hbody.
  destruct (users db !! uid) as [u|] eqn:Hu; [|discriminate].
  apply process_locked_Ok in Hbody as (nb & Hnb & -> & Hchk & Huniq & Hpos & Htx & Hus).
  rewrite Hu in Hus. exists u, nb. split_and!; try done.
  destruct db'; simpl in *; by subst.
Qed.

Lemma compute_new_balance_Ok ty cur amt nb :
  compute_new_balance ty cur amt = Ok nb →
  fits_decimal_15_2 nb = true ∧
  (is_credit_class ty = true → nb = round_to_cents (plus (cents cur) amt)) ∧
  (is_debit_class ty = true →
     nb = round_to_cents (minus (cents cur) amt) ∧ 0 ≤ nb).
Proof.
  unfold compute_new_balance.
  destruct ty; simpl;
    repeat match goal with
    | |- context [assign_decimal_15_2 ?v] =>
        destruct (assign_decimal_15_2 v) as [c|] eqn:Hc; simpl;
        [apply assign_decimal_15_2_Ok in Hc as [-> Hfit]|]
    | |- context [if ?v <? 0 then _ else _] => destruct (Z.ltb_spec v 0)
    end;
    intros [= <-] || discriminate; split_and!; done || (split; done || lia).
Qed.

Lemma process_transaction_locked gen uid key ty amt d m db u :
  users db !! uid = Some u →
  process_transaction gen uid key ty amt d m db =
  atomically (process_locked gen uid (balance u) key ty amt d m) db.
Proof.
  intros Hu.
  unfold process_transaction, atomically, process_transaction_body, bind,
    select_balance_for_update.
  by rewrite Hu.
Qed.

(** An exception of the [CASE] block is raised before anything is written. *)
Lemma process_locked_raise gen uid cur key ty amt d m db e :
  compute_new_balance ty cur amt = Err e →
  process_locked gen uid cur key ty amt d m db = (Err e, db).
Proof. intros H. unfold process_locked, bind, lift. by rewrite H. Qed.

(** Past the [CASE] block no 'Insufficient funds' is raised. *)
Lemma process_locked_past_case gen uid cur key ty amt d m db nb :
  compute_new_balance ty cur amt = Ok nb →
  ¬ is_insufficient_funds (process_locked gen uid cur key ty amt d m db).1.
Proof.
  intros H (c & a & Hr). revert Hr.
  unfold process_locked, bind, lift, insert_transaction, bind, lift,
    assign_decimal_15_2, transactions_checks, transactions_unique,
    update_balance, ret.
  rewrite H. simpl.
  repeat match goal with
  | |- context [if ?b then _ else _] => destruct b; simpl
  | |- context [match ?x !! ?i with _ => _ end] => destruct (x !! i); simpl
  end; discriminate.
Qed.

(** The locked part succeeds for an amount of scale 2 when the amount is
    positive, the balances are not negative, and the key and the row id
    are new. *)
Lemma process_locked_succeeds gen uid cur key ty amt d m db nb u :
  compute_new_balance ty cur (cents amt) = Ok nb →
  users db !! uid = Some u →
  0 < amt → fits_decimal_15_2 amt = true →
  0 ≤ cur → 0 ≤ nb →
  unused db gen key →
  process_locked gen uid cur key ty (cents amt) d m db =
  (Ok (new_row gen uid cur key ty amt nb d m),
   {| users := <[uid := set_balance u nb (current_timestamp gen)]> (users db);
      transactions := transactions db ++ [new_row gen uid cur key ty amt nb d m] |}).
Proof.
  intros Hnb Hu Hamt Hfit Hcur Hpos Hfresh.
  apply compute_new_balance_Ok in Hnb as Hnb'. destruct Hnb' as (_ & Hc & Hd).
  rewrite round_plus_cents in Hc. rewrite round_minus_cents in Hd.
  unfold process_locked, bind at 1, lift. rewrite Hnb.
  unfold bind at 1. rewrite (assign_decimal_15_2_cents _ Hfit).
  unfold bind at 1, insert_transaction, bind, lift. simpl.
  assert (transactions_checks (new_row gen uid cur key ty amt nb d m) = Ok tt) as ->.
  { unfold transactions_checks, transaction_balance_consistency. simpl.
    assert ((is_credit_class ty && (nb =? cur + amt)
             || is_debit_class ty && (nb =? cur - amt)) = true) as ->.
    { destruct ty; simpl in *;
        (destruct (Hd eq_refl) as [-> _] || rewrite (Hc eq_refl));
        rewrite ?Z.eqb_refl; done. }
    simpl.
    destruct (Z.ltb_spec 0 amt); [|lia]. destruct (Z.leb_spec 0 nb); [|lia].
    destruct (Z.leb_spec 0 cur); [|lia]. done. }
  rewrite (transactions_unique_fresh (transactions db)); cycle 1.
  { intros r' Hin. by destruct (Hfresh r' Hin). }
  { intros r' Hin. by destruct (Hfresh r' Hin). }
  unfold update_balance, ret. simpl. rewrite Hu.
  destruct (Z.leb_spec 0 nb); [|lia]. done.
Qed.

(** C1.  A successful call of [process_transaction] returns an entry whose
    [balance_before] is the balance the account had when its row was locked,
    whose [balance_after] is [balance_before + amount] for the credit-class
    types and [balance_before - amount] for the debit-class types, and the
    stored balance of the account becomes exactly [balance_after].  The
    amount is the one the entry stores: the amount of the call at the scale
    of the column. *)
Theorem process_transaction_bookkeeping gen uid key ty amt d m db entry db' :
  process_transaction gen uid key ty amt d m db = (Ok entry, db') →
  ∃ cur,
    balance_of db uid = Some cur ∧
    amount entry = round_to_cents amt ∧ tx_type entry = ty ∧
    balance_before entry = cur ∧
    (is_credit_class ty = true →
       balance_after entry = balance_before entry + amount entry) ∧
    (is_debit_class ty = true →
       balance_after entry = balance_before entry - amount entry) ∧
    balance_of db' uid = Some (balance_after entry).
Proof.
  intros H.
  apply process_transaction_Ok in H as (u & nb & Hu & Hnb & -> & Hchk & _ & _ & ->).
  apply transactions_checks_Ok in Hchk as (Hcons & _).
  apply transaction_balance_consistency_spec in Hcons as [Hc Hd]. simpl in Hc, Hd.
  exists (balance u). unfold balance_of. rewrite Hu. simpl.
  split_and!; try done. by rewrite lookup_insert_eq.
Qed.

Lemma process_transaction_bookkeeping_witness :
  process_transaction (at_time 100 1000) 1 "k1" credit (cents 10050) None None
    two_accounts
  = (Ok credit_k1, after_credit_k1)
  ∧ ∃ cur,
      balance_of two_accounts 1 = Some cur ∧
      amount credit_k1 = round_to_cents (cents 10050) ∧ tx_type credit_k1 = credit ∧
      balance_before credit_k1 = cur ∧
      (is_credit_class credit = true →
         balance_after credit_k1 = balance_before credit_k1 + amount credit_k1) ∧
      (is_debit_class credit = true →
         balance_after credit_k1 = balance_before credit_k1 - amount credit_k1) ∧
      balance_of after_credit_k1 1 = Some (balance_after credit_k1).
Proof.
  assert (process_transaction (at_time 100 1000) 1 "k1" credit (cents 10050) None None
            two_accounts = (Ok credit_k1, after_credit_k1)) as H
    by (vm_compute; reflexivity).
  split; [exact H|].
  exact (process_transaction_bookkeeping _ _ _ _ _ _ _ _ _ _ H).
Defined.

Lemma compute_new_balance_short ty cur amt :
  is_debit_class ty = true →
  0 ≤ cur → fits_decimal_15_2 amt = true → cur - amt < 0 →
  compute_new_balance ty cur (cents amt)
  = Err (raise_insufficient_funds cur (cents amt)).
Proof.
  intros Hty Hcur Hamt%fits_decimal_15_2_spec Hneg.
  assert (fits_decimal_15_2 (cur - amt) = true) as Hfit.
  { apply fits_decimal_15_2_spec. unfold decimal_15_2_limit in *. lia. }
  destruct ty; try discriminate; simpl;
    unfold assign_decimal_15_2; rewrite round_minus_cents, Hfit; simpl;
    destruct (Z.ltb_spec (cur - amt) 0); (done || lia).
Qed.

Lemma compute_new_balance_covered ty cur amt :
  is_debit_class ty = true → 0 ≤ cur - amt →
  compute_new_balance ty cur (cents amt) = Ok (cur - amt) ∨
  compute_new_balance ty cur (cents amt) = Err numeric_field_overflow.
Proof.
  intros Hty Hpos.
  destruct ty; try discriminate; simpl; unfold assign_decimal_15_2;
    rewrite round_minus_cents;
    (destruct (fits_decimal_15_2 (cur - amt)); simpl; [|by right]);
    destruct (Z.ltb_spec (cur - amt) 0); (lia || by left).
Qed.

(** The [CASE] block for the debit-class types, by the new balance: the
    difference of the balance and the amount, rounded to the scale of
    [new_balance]. *)
Lemma compute_new_balance_debit ty cur amt :
  is_debit_class ty = true →
  compute_new_balance ty cur amt =
  if fits_decimal_15_2 (round_to_cents (minus (cents cur) amt))
  then if round_to_cents (minus (cents cur) amt) <? 0
       then Err (raise_insufficient_funds cur amt)
       else Ok (round_to_cents (minus (cents cur) amt))
  else Err numeric_field_overflow.
Proof.
  intros Hty. destruct ty; try discriminate; simpl; unfold assign_decimal_15_2;
    by destruct (fits_decimal_15_2 _).
Qed.

(** C2, as the code has it.  A debit-class call against an existing
    account computes the new balance as the balance minus the amount,
    rounded to cents (halves away from zero) as [DECIMAL(15, 2)] rounds.
    It raises 'Insufficient funds' exactly when that new balance fits
    [DECIMAL(15, 2)] and is negative, and it then returns the database,
    ledger and balances, as it was; a new balance that does not fit raises
    'numeric field overflow' instead.  For an amount of whole cents that
    fits the column and a balance that is not negative this is: exactly
    when the balance minus the amount is negative.  A debit of the whole
    balance succeeds and leaves 0; a debit of the balance plus one cent is
    refused. *)
Theorem debit_insufficient_funds gen uid key ty amt d m db cur :
  is_debit_class ty = true →
  balance_of db uid = Some cur →
  (is_insufficient_funds (process_transaction gen uid key ty amt d m db).1
     ↔ fits_decimal_15_2 (round_to_cents (minus (cents cur) amt)) = true ∧
       round_to_cents (minus (cents cur) amt) < 0) ∧
  (fits_decimal_15_2 (round_to_cents (minus (cents cur) amt)) = true →
   round_to_cents (minus (cents cur) amt) < 0 →
     process_transaction gen uid key ty amt d m db
     = (Err (raise_insufficient_funds cur amt), db)) ∧
  (fits_decimal_15_2 (round_to_cents (minus (cents cur) amt)) = false →
     process_transaction gen uid key ty amt d m db = (Err numeric_field_overflow, db)) ∧
  (∀ c, amt = cents c → fits_decimal_15_2 c = true → 0 ≤ cur →
     (is_insufficient_funds (process_transaction gen uid key ty amt d m db).1
        ↔ cur - c < 0) ∧
     (cur - c < 0 →
        process_transaction gen uid key ty amt d m db
        = (Err (raise_insufficient_funds cur amt), db)) ∧
     (c = cur → 0 < c → unused db gen key →
        ∃ entry db',
          process_transaction gen uid key ty amt d m db = (Ok entry, db') ∧
          balance_after entry = 0 ∧ balance_of db' uid = Some 0) ∧
     (c = cur + 1 →
        process_transaction gen uid key ty amt d m db
        = (Err (raise_insufficient_funds cur amt), db))).
Proof.
  intros Hty Hbal.
  unfold balance_of in Hbal.
  destruct (users db !! uid) as [u|] eqn:Hu; [|discriminate].
  injection Hbal as Hbal.
  rewrite (process_transaction_locked _ _ _ _ _ _ _ _ _ Hu), Hbal.
  pose proof (compute_new_balance_debit ty cur amt Hty) as Hcase.
  set (nb := round_to_cents (minus (cents cur) amt)) in *.
  assert (fits_decimal_15_2 nb = true → nb < 0 →
          atomically (process_locked gen uid cur key ty amt d m) db
          = (Err (raise_insufficient_funds cur amt), db)) as Hshort.
  { intros Hfit Hneg. unfold atomically. rewrite Hfit in Hcase.
    destruct (Z.ltb_spec nb 0); [|lia].
    by rewrite (process_locked_raise _ _ _ _ _ _ _ _ _ _ Hcase). }
  assert (is_insufficient_funds
            (atomically (process_locked gen uid cur key ty amt d m) db).1
          ↔ fits_decimal_15_2 nb = true ∧ nb < 0) as Hiff.
  { split.
    - intros Hins. unfold atomically in Hins.
      destruct (fits_decimal_15_2 nb) eqn:Hfit.
      + split; [done|]. destruct (Z.ltb_spec nb 0) as [|Hge]; [done|]. exfalso.
        pose proof (process_locked_past_case gen uid cur key ty amt d m db _ Hcase)
          as Hn.
        destruct (process_locked gen uid cur key ty amt d m db) as [[?|?] ?];
          simpl in *; [by destruct Hins as (? & ? & ?)|done].
      + rewrite (process_locked_raise _ _ _ _ _ _ _ _ _ _ Hcase) in Hins.
        by destruct Hins as (? & ? & ?).
    - intros [Hfit Hneg]. rewrite (Hshort Hfit Hneg). by eexists _, _. }
  split; [done|]. split; [done|]. split.
  { intros Hfit. rewrite Hfit in Hcase. unfold atomically.
    by rewrite (process_locked_raise _ _ _ _ _ _ _ _ _ _ Hcase). }
  intros c -> Hamt Hcur.
  assert (nb = cur - c) as Hnb by apply round_minus_cents.
  assert (cur - c < 0 → fits_decimal_15_2 nb = true) as Hfits.
  { intros Hneg. rewrite Hnb. apply fits_decimal_15_2_spec.
    apply fits_decimal_15_2_spec in Hamt. unfold decimal_15_2_limit in *. lia. }
  split; [|split; [|split]].
  - rewrite Hiff. split; [intros [_ H]; lia|]. intros Hneg. split; [auto|lia].
  - intros Hneg. apply Hshort; [auto|lia].
  - intros -> Hpos Hfresh.
    destruct (compute_new_balance_covered ty cur cur Hty ltac:(lia)) as [Hc|Hc].
    + eexists _, _. unfold atomically.
      rewrite (process_locked_succeeds _ _ _ _ _ _ _ _ _ _ _ Hc Hu); [|done ..|lia|done].
      split; [done|]. simpl. split; [lia|].
      unfold balance_of. simpl. rewrite lookup_insert_eq. simpl. f_equal. lia.
    + exfalso. revert Hc. destruct ty; try discriminate; simpl;
        unfold assign_decimal_15_2; rewrite round_minus_cents, Z.sub_diag; simpl;
        discriminate.
  - intros ->. apply Hshort; [apply Hfits|]; lia.
Qed.

(** Alice holds 50.25 and withdraws 50.25 under the key "k2". *)
Lemma debit_insufficient_funds_witness :
  (is_insufficient_funds
     (process_transaction (at_time 101 1001) 1 "k2" debit (cents 5025) None None
        two_accounts).1
     ↔ 5025 - 5025 < 0) ∧
  (∃ entry db',
     process_transaction (at_time 101 1001) 1 "k2" debit (cents 5025) None None
       two_accounts
     = (Ok entry, db') ∧
     balance_after entry = 0 ∧ balance_of db' 1 = Some 0).
Proof.
  assert (unused two_accounts (at_time 101 1001) "k2") as Hfresh.
  { intros r Hin. by apply not_elem_of_nil in Hin. }
  destruct (debit_insufficient_funds (at_time 101 1001) 1 "k2" debit (cents 5025)
              None None two_accounts 5025 eq_refl eq_refl)
    as (_ & _ & _ & Hcents).
  destruct (Hcents 5025 eq_refl eq_refl ltac:(lia)) as (Hiff & _ & Hall & _).
  split; [exact Hiff|]. apply Hall; [reflexivity|lia|exact Hfresh].
Defined.

(** C2, where the code departs from it.  Alice holds 50.25.  A wager of 50.254 is more
    than she holds, yet it is accepted: the new balance, -0.004, is
    rounded to 0.00, the entry is of 50.25 and the balance becomes 0.  A
    debit of 20,000,000,000,000.00 is refused, but with 'numeric field
    overflow', not with 'Insufficient funds'. *)
Lemma debit_beyond_the_balance :
  digits (minus (cents 5025) {| digits := 50254; places := 3 |}) < 0 ∧
  (∃ entry db',
     process_transaction (at_time 101 1001) 1 "k2" wager
       {| digits := 50254; places := 3 |} None None two_accounts
     = (Ok entry, db') ∧
     amount entry = 5025 ∧ balance_after entry = 0 ∧ balance_of db' 1 = Some 0) ∧
  5025 - 2 * 10 ^ 15 < 0 ∧
  process_transaction (at_time 101 1001) 1 "k2" debit (cents (2 * 10 ^ 15)) None None
    two_accounts
  = (Err numeric_field_overflow, two_accounts).
Proof.
  split; [by vm_compute|]. split; [|split; [by vm_compute|by vm_compute]].
  eexists _, _. split; [vm_compute; reflexivity|]. by vm_compute.
Qed.

End Engine.

(** ** The ledger service *)

Module Service.

Lemma find_transaction_None rows key :
  find_transaction rows key = None ↔ ∀ r, r ∈ rows → transaction_id r ≠ key.
Proof.
  unfold find_transaction. induction rows as [|r rows IH]; simpl.
  - split; [|done]. intros _ r Hin. by apply not_elem_of_nil in Hin.
  - destruct (String.eqb_spec (transaction_id r) key) as [Heq|Hne].
    + split; [done|]. intros H. destruct (H r); [left|done].
    + rewrite IH. split.
      * intros H r' [->|Hin]%elem_of_cons; auto.
      * intros H r' Hin. apply H. by right.
Qed.

Lemma find_transaction_Some rows key r :
  find_transaction rows key = Some r → r ∈ rows ∧ transaction_id r = key.
Proof.
  unfold find_transaction. intros H. apply find_some in H as [Hin Heq].
  split; [by apply list_elem_of_In|by apply String.eqb_eq].
Qed.

Lemma find_transaction_app_new rows key r :
  find_transaction rows key = None → transaction_id r = key →
  find_transaction (rows ++ [r]) key = Some r.
Proof.
  unfold find_transaction. intros Hnone Hkey.
  induction rows as [|r' rows IH]; simpl in *.
  - by rewrite Hkey, String.eqb_refl.
  - destruct (String.eqb (transaction_id r') key); [done|auto].
Qed.

(** What [createTransaction] does, by the outcome of
    [process_transaction]. *)
Lemma createTransaction_run rt gen uid key ty amt d m w :
  createTransaction rt gen uid key ty amt d m w =
  let w1 := logged (select_process_transaction uid key ty amt) w in
  match process_transaction gen uid key ty amt (description_or_null d) m (store w) with
  | (Ok row, db') =>
      (Ok (convertNumericFields (new_Date rt 0) row),
       {| store := db'; issued := issued w1 |})
  | (Err e, db') => (Err (translate_error e), {| store := db'; issued := issued w1 |})
  end.
Proof.
  unfold createTransaction, bind, query. simpl.
  by destruct (process_transaction _ _ _ _ _ _ _ _) as [[?|?] ?].
Qed.

Lemma createTransaction_Err rt gen uid key ty amt d m w e w' :
  createTransaction rt gen uid key ty amt d m w = (Err e, w') →
  store w' = store w.
Proof.
  rewrite createTransaction_run. simpl.
  destruct (process_transaction _ _ _ _ _ _ _ _) as [[?|?] db'] eqn:Hp; [done|].
  apply Engine.process_transaction_Err in Hp as ->. by intros [= _ <-].
Qed.

Lemma createTransaction_Ok rt gen uid key ty amt d m w entry w' :
  createTransaction rt gen uid key ty amt d m w = (Ok entry, w') →
  ∃ row,
    process_transaction gen uid key ty amt (description_or_null d) m (store w)
    = (Ok row, store w') ∧
    entry = convertNumericFields (new_Date rt 0) row ∧
    issued w' = issued w ++ [select_process_transaction uid key ty amt].
Proof.
  rewrite createTransaction_run. simpl.
  destruct (process_transaction _ _ _ _ _ _ _ _) as [[row|?] db'] eqn:Hp; [|done].
  intros [= <- <-]. by exists row.
Qed.

(** [validateUserExists], by the row of the account. *)
Lemma validateUserExists_run id w :
  validateUserExists id w =
  match users (store w) !! id with
  | None => (Err User_not_found, logged (select_user_by_id id) w)
  | Some u =>
      if decide (status u = active)
      then (Ok tt, logged (select_user_by_id id) w)
      else (Err (User_account_is (status u)), logged (select_user_by_id id) w)
  end.
Proof.
  unfold validateUserExists, getUserById, bind, query. simpl.
  destruct (users (store w) !! id) as [u|]; [|done].
  by destruct (decide (status u = active)).
Qed.

(** The path of [creditUser] and [debitUser] when an entry is stored
    under the key. *)
Lemma credit_or_debit_found op rt gen (uid : uuid_string) req w e :
  find_transaction (transactions (store w)) (transactionId req) = Some e →
  credit_or_debit op rt gen uid req w =
  let w1 := logged (select_transaction_by_transaction_id (transactionId req)) w in
  if negb (is_text_of (user_id e) uid)
  then (Err Transaction_ID_belongs_to_a_different_user, w1)
  else if negb (bool_decide (tx_type e = op))
  then (Err Transaction_ID_already_used_for_a_different_operation_type, w1)
  else (Ok (convertNumericFields (new_Date rt 0) e), w1).
Proof.
  intros H. unfold credit_or_debit, getTransactionByTransactionId, bind, query.
  simpl. rewrite H. simpl.
  destruct (negb (is_text_of (user_id e) uid)); [done|].
  by destruct (negb (bool_decide (tx_type e = op))).
Qed.

(** The text PostgreSQL prints for an id is the text of that id alone. *)
Lemma is_text_of_printed (id id' : uuid) : is_text_of id (printed id') = N.eqb id id'.
Proof. done. Qed.

(** The path when no entry is stored under the key. *)
Lemma credit_or_debit_new op rt gen (uid : uuid_string) req w :
  find_transaction (transactions (store w)) (transactionId req) = None →
  credit_or_debit op rt gen uid req w =
  (let! _ := validateUserExists (read_as uid) in
   let! _ := validateAmount (req_amount req) in
   createTransaction rt gen (read_as uid) (transactionId req) op
     (req_amount req) (req_description req) (req_metadata req))
    (logged (select_transaction_by_transaction_id (transactionId req)) w).
Proof.
  intros H. unfold credit_or_debit, getTransactionByTransactionId, bind at 1 2, query.
  simpl. by rewrite H.
Qed.

Lemma validateAmount_run amt (w : world) :
  validateAmount amt w =
  if digits amt <=? 0 then (Err Amount_must_be_positive, w)
  else if (2 <? decimalPlaces amt)%nat
  then (Err Amount_must_have_at_most_2_decimal_places, w)
  else (Ok tt, w).
Proof.
  unfold validateAmount.
  destruct (digits amt <=? 0); [done|]. by destruct (2 <? decimalPlaces amt)%nat.
Qed.

(** A service operation that throws has written nothing. *)
Lemma credit_or_debit_Err op rt gen uid req w e w' :
  credit_or_debit op rt gen uid req w = (Err e, w') → store w' = store w.
Proof.
  destruct (find_transaction (transactions (store w)) (transactionId req))
    as [ex|] eqn:Hfind.
  - rewrite (credit_or_debit_found _ _ _ _ _ _ _ Hfind). simpl.
    destruct (negb _); [by intros [= _ <-]|].
    destruct (negb _); by intros [= _ <-].
  - rewrite (credit_or_debit_new _ _ _ _ _ _ Hfind).
    unfold bind at 1. rewrite validateUserExists_run. simpl.
    destruct (users (store w) !! read_as uid) as [u|]; [|by intros [= _ <-]].
    destruct (decide (status u = active)); [|by intros [= _ <-]].
    unfold bind. rewrite validateAmount_run.
    destruct (digits _ <=? 0); [by intros [= _ <-]|].
    destruct (2 <? _)%nat; [by intros [= _ <-]|].
    intros H%createTransaction_Err. done.
Qed.

Lemma wager_or_payout_Err rt gen o w e w' :
  (∃ uid amt g md, o = wager_op uid amt g md ∨ o = payout_op uid amt g md) →
  perform rt gen o w = (Err e, w') → store w' = store w.
Proof.
  intros (uid & amt & g & md & [->| ->]); simpl;
    unfold processWager, processPayout, bind; rewrite validateUserExists_run;
    (destruct (users (store w) !! uid) as [u|]; [|by intros [= _ <-]]);
    (destruct (decide (status u = active)); [|by intros [= _ <-]]);
    by intros H%createTransaction_Err.
Qed.

Lemma perform_Err rt gen o w e w' :
  perform rt gen o w = (Err e, w') → store w' = store w.
Proof.
  destruct o as [uid req|uid req|uid amt g md|uid amt g md].
  - apply credit_or_debit_Err.
  - apply credit_or_debit_Err.
  - apply wager_or_payout_Err. exists uid, amt, g, md. by left.
  - apply wager_or_payout_Err. exists uid, amt, g, md. by right.
Qed.

(** A row that passes the checks moves the balance. *)
Lemma checked_row_moves r :
  transactions_checks r = Ok tt → balance_before r ≠ balance_after r.
Proof.
  intros (Hcons & Hamt & _)%Engine.transactions_checks_Ok.
  apply Engine.transaction_balance_consistency_spec in Hcons as [Hc Hd].
  destruct (tx_type r); simpl in *;
    (rewrite (Hc eq_refl) || rewrite (Hd eq_refl)); lia.
Qed.

(** C3, as the code has it.  When [creditUser] or [debitUser]
    ([credit_or_debit] at [credit] and at [debit]) has returned an entry, it
    is the conversion of a row stored under the key for the account the
    caller's id is read as.  A second call with the same id and the same key,
    whatever else the second request carries, sends the lookup by key and
    nothing else, so [process_transaction] does not run, and the database
    stays as the first call left it.  When the caller writes the id as
    PostgreSQL prints it, the second call returns the conversion of that same
    row: the two results agree in every field but [processedAt], which in
    each is the reading of the clock in that call.  When the caller writes
    the id in another way, the second call throws 'Transaction ID belongs to
    a different user'.  When the first call found no entry under the key,
    the balance moved once, from the entry's [balanceBefore] to its
    [balanceAfter]. *)
Theorem replay_returns_stored_entry op rt rt' gen gen' (uid : uuid_string) req req' w
    entry w1 :
  credit_or_debit op rt gen uid req w = (Ok entry, w1) →
  transactionId req' = transactionId req →
  ∃ row w2,
    find_transaction (transactions (store w1)) (transactionId req) = Some row ∧
    entry = convertNumericFields (new_Date rt 0) row ∧
    user_id row = read_as uid ∧
    credit_or_debit op rt' gen' uid req' w1
    = (if as_printed uid then Ok (convertNumericFields (new_Date rt' 0) row)
       else Err Transaction_ID_belongs_to_a_different_user, w2) ∧
    issued w2 = issued w1 ++ [select_transaction_by_transaction_id (transactionId req)] ∧
    store w2 = store w1 ∧
    (no_entry (store w) (transactionId req) →
       balance_of (store w) (read_as uid) = Some (Transaction.balanceBefore entry) ∧
       Transaction.balanceBefore entry ≠ Transaction.balanceAfter entry ∧
       balance_of (store w1) (read_as uid) = Some (Transaction.balanceAfter entry) ∧
       balance_of (store w2) (read_as uid) = Some (Transaction.balanceAfter entry)).
Proof.
  intros Hfirst Hkey.
  assert (∃ row,
            find_transaction (transactions (store w1)) (transactionId req) = Some row
            ∧ entry = convertNumericFields (new_Date rt 0) row
            ∧ user_id row = read_as uid ∧ tx_type row = op
            ∧ (no_entry (store w) (transactionId req) →
                 balance_of (store w) (read_as uid) = Some (balance_before row) ∧
                 balance_before row ≠ balance_after row ∧
                 balance_of (store w1) (read_as uid) = Some (balance_after row)))
    as (row & Hfind & -> & Huid & Hop & Hbal).
  { destruct (find_transaction (transactions (store w)) (transactionId req))
      as [ex|] eqn:Hex.
    - rewrite (credit_or_debit_found _ _ _ _ _ _ _ Hex) in Hfirst. simpl in Hfirst.
      destruct (is_text_of (user_id ex) uid) eqn:Htext; simpl in Hfirst; [|done].
      apply andb_prop in Htext as [_ Hu%N.eqb_eq].
      destruct (bool_decide_reflect (tx_type ex = op)) as [Ht|]; simpl in Hfirst;
        [|done].
      injection Hfirst as <- <-. simpl. exists ex.
      split; [done|split; [done|split; [done|split; [done|]]]].
      intros Hno. apply find_transaction_Some in Hex as [Hin Hk].
      by destruct (Hno _ Hin).
    - rewrite (credit_or_debit_new _ _ _ _ _ _ Hex) in Hfirst.
      unfold bind at 1 in Hfirst. rewrite validateUserExists_run in Hfirst.
      simpl in Hfirst.
      destruct (users (store w) !! read_as uid) as [u|] eqn:Hu; [|done].
      destruct (decide (status u = active)); [|done].
      unfold bind in Hfirst. rewrite validateAmount_run in Hfirst.
      destruct (digits _ <=? 0); [done|]. destruct (2 <? _)%nat; [done|].
      apply createTransaction_Ok in Hfirst as (row & Hp & -> & _). simpl in Hp.
      pose proof (Engine.process_transaction_Ok _ _ _ _ _ _ _ _ _ _ Hp)
        as (u' & nb & Hu' & Hnb & -> & Hchk & _ & _ & Hdb).
      rewrite Hdb. simpl. eexists.
      split; [by apply find_transaction_app_new|].
      split; [done|split; [done|split; [done|]]]. intros _.
      split; [|split].
      + unfold balance_of. by rewrite Hu'.
      + by apply checked_row_moves in Hchk.
      + unfold balance_of. simpl. by rewrite lookup_insert_eq. }
  exists row. eexists. split; [done|]. split; [done|]. split; [done|].
  rewrite <- Hkey in Hfind.
  rewrite (credit_or_debit_found _ _ _ _ _ _ _ Hfind). simpl.
  unfold is_text_of. rewrite Huid, N.eqb_refl, andb_true_r.
  destruct (as_printed uid); simpl.
  - rewrite bool_decide_eq_true_2 by done. simpl.
    rewrite Hkey. split; [done|]. split; [done|]. split; [done|].
    intros Hno. destruct (Hbal Hno) as (? & ? & ?). done.
  - rewrite Hkey. split; [done|]. split; [done|]. split; [done|].
    intros Hno. destruct (Hbal Hno) as (? & ? & ?). done.
Qed.

(** Alice is credited 100.50 under "k1" when the clock reads 1001, then
    the request is sent again with another amount when it reads 5000:
    once with her id as PostgreSQL prints it, once with her id written
    without the hyphens. *)
Lemma replay_returns_stored_entry_witness :
  (creditUser (clock 1001) (at_time 100 1000) 1 (request "k1" 10050)
     (fresh_world two_accounts)
   = (Ok (convertNumericFields 1001 credit_k1),
      {| store := after_credit_k1;
         issued := [select_transaction_by_transaction_id "k1"; select_user_by_id 1;
                    select_process_transaction 1 "k1" credit (cents 10050)] |})
   ∧ ∃ w2,
       creditUser (clock 5000) (at_time 101 4999) 1 (request "k1" 99)
         {| store := after_credit_k1;
            issued := [select_transaction_by_transaction_id "k1"; select_user_by_id 1;
                       select_process_transaction 1 "k1" credit (cents 10050)] |}
       = (Ok (convertNumericFields 5000 credit_k1), w2) ∧
       issued w2 =
         [select_transaction_by_transaction_id "k1"; select_user_by_id 1;
          select_process_transaction 1 "k1" credit (cents 10050)]
         ++ [select_transaction_by_transaction_id "k1"] ∧
       store w2 = after_credit_k1 ∧
       balance_of two_accounts 1 = Some 5025 ∧
       balance_of after_credit_k1 1 = Some 15075 ∧
       balance_of (store w2) 1 = Some 15075)
  ∧
  (creditUser (clock 1001) (at_time 100 1000) alice_without_hyphens
     (request "k1" 10050) (fresh_world two_accounts)
   = (Ok (convertNumericFields 1001 credit_k1),
      {| store := after_credit_k1;
         issued := [select_transaction_by_transaction_id "k1"; select_user_by_id 1;
                    select_process_transaction 1 "k1" credit (cents 10050)] |})
   ∧ ∃ w2,
       creditUser (clock 5000) (at_time 101 4999) alice_without_hyphens
         (request "k1" 10050)
         {| store := after_credit_k1;
            issued := [select_transaction_by_transaction_id "k1"; select_user_by_id 1;
                       select_process_transaction 1 "k1" credit (cents 10050)] |}
       = (Err Transaction_ID_belongs_to_a_different_user, w2) ∧
       store w2 = after_credit_k1).
Proof.
  assert (∀ uid : uuid_string, read_as uid = 1%N →
          creditUser (clock 1001) (at_time 100 1000) uid (request "k1" 10050)
            (fresh_world two_accounts)
          = (Ok (convertNumericFields 1001 credit_k1),
             {| store := after_credit_k1;
                issued := [select_transaction_by_transaction_id "k1"; select_user_by_id 1;
                           select_process_transaction 1 "k1" credit (cents 10050)] |}))
    as H.
  { intros [id p] Hid. simpl in Hid. subst id. by destruct p; vm_compute. }
  assert (no_entry (store (fresh_world two_accounts)) "k1") as Hno.
  { intros r Hin. by apply not_elem_of_nil in Hin. }
  split.
  - split; [exact (H 1%N eq_refl)|].
    destruct (replay_returns_stored_entry credit (clock 1001) (clock 5000)
                (at_time 100 1000) (at_time 101 4999) 1
                (request "k1" 10050) (request "k1" 99)
                _ _ _ (H 1%N eq_refl) eq_refl)
      as (row & w2 & Hrow & _ & _ & Hreplay & Hlog & Hstore & Hbal).
    vm_compute in Hrow. injection Hrow as <-.
    exists w2. split; [exact Hreplay|]. split; [exact Hlog|]. split; [exact Hstore|].
    destruct (Hbal Hno) as (Hb & _ & Ha & Ha2). by split_and!.
  - split; [exact (H alice_without_hyphens eq_refl)|].
    destruct (replay_returns_stored_entry credit (clock 1001) (clock 5000)
                (at_time 100 1000) (at_time 101 4999) alice_without_hyphens
                (request "k1" 10050) (request "k1" 10050)
                _ _ _ (H alice_without_hyphens eq_refl) eq_refl)
      as (row & w2 & _ & _ & _ & Hreplay & _ & Hstore & _).
    exists w2. by split.
Defined.

(** C3, where the code departs from it.  Alice is credited 100.50 under
    "k1" when the clock reads 1001 and the same request is sent again when
    it reads 5000: the second call returns the stored entry with
    [processedAt] 5000, the first returned it with 1001. *)
Lemma replay_differs_in_processedAt :
  ∃ first second w1 w2,
    creditUser (clock 1001) (at_time 100 1000) 1 (request "k1" 10050)
      (fresh_world two_accounts) = (Ok first, w1) ∧
    creditUser (clock 5000) (at_time 101 4999) 1 (request "k1" 10050) w1
    = (Ok second, w2) ∧
    store w1 = after_credit_k1 ∧
    processed_at <$> find_transaction (transactions (store w1)) "k1" = Some 1000 ∧
    Transaction.processedAt first = 1001 ∧
    Transaction.processedAt second = 5000 ∧
    second ≠ first.
Proof.
  eexists _, _, _, _.
  split; [vm_compute; reflexivity|].
  split; [vm_compute; reflexivity|].
  split; [vm_compute; reflexivity|].
  split; [vm_compute; reflexivity|].
  split; [reflexivity|]. split; [reflexivity|].
  intros H. apply (f_equal Transaction.processedAt) in H. vm_compute in H.
  discriminate.
Qed.

(** C7.  When an entry is stored under the key of a [creditUser] or
    [debitUser] call and it belongs to another account, the call throws
    'Transaction ID belongs to a different user'; when it belongs to the
    account but has another type than the operation, the call throws
    'Transaction ID already used for a different operation type', or,
    when the caller writes the id of the account otherwise than
    PostgreSQL prints it, 'Transaction ID belongs to a different user'
    again.  Either way only the lookup was sent and the database is as
    before. *)
Theorem key_conflict op rt gen (uid : uuid_string) req w e :
  find_transaction (transactions (store w)) (transactionId req) = Some e →
  user_id e ≠ read_as uid ∨ tx_type e ≠ op →
  ∃ err w',
    credit_or_debit op rt gen uid req w = (Err err, w') ∧
    (user_id e ≠ read_as uid → err = Transaction_ID_belongs_to_a_different_user) ∧
    (user_id e = read_as uid →
       err = if as_printed uid
             then Transaction_ID_already_used_for_a_different_operation_type
             else Transaction_ID_belongs_to_a_different_user) ∧
    store w' = store w ∧
    issued w' = issued w ++ [select_transaction_by_transaction_id (transactionId req)].
Proof.
  intros Hfind Hdiff. rewrite (credit_or_debit_found _ _ _ _ _ _ _ Hfind).
  unfold is_text_of. simpl.
  destruct (N.eqb_spec (user_id e) (read_as uid)) as [Hu|Hu]; simpl.
  - destruct Hdiff as [|Ht]; [done|].
    destruct (as_printed uid); simpl.
    + rewrite bool_decide_eq_false_2 by done. simpl.
      eexists _, _. repeat split; done.
    + eexists _, _. repeat split; done.
  - rewrite andb_false_r. simpl. eexists _, _. repeat split; done.
Qed.

(** The key "k1" holds a credit of Alice: Bob cannot credit under it, and
    Alice cannot debit under it. *)
Lemma key_conflict_witness :
  (∃ err w',
     creditUser (clock 1002) (at_time 101 1001) 2 (request "k1" 10050)
       (fresh_world after_credit_k1)
     = (Err err, w') ∧
     (user_id credit_k1 ≠ 2%N → err = Transaction_ID_belongs_to_a_different_user) ∧
     (user_id credit_k1 = 2%N →
        err = Transaction_ID_already_used_for_a_different_operation_type) ∧
     store w' = after_credit_k1 ∧
     issued w' = [] ++ [select_transaction_by_transaction_id "k1"]) ∧
  (∃ err w',
     debitUser (clock 1002) (at_time 101 1001) 1 (request "k1" 10050)
       (fresh_world after_credit_k1)
     = (Err err, w') ∧
     (user_id credit_k1 ≠ 1%N → err = Transaction_ID_belongs_to_a_different_user) ∧
     (user_id credit_k1 = 1%N →
        err = Transaction_ID_already_used_for_a_different_operation_type) ∧
     store w' = after_credit_k1 ∧
     issued w' = [] ++ [select_transaction_by_transaction_id "k1"]).
Proof.
  split.
  - apply (key_conflict credit (clock 1002) (at_time 101 1001) 2 (request "k1" 10050)
             (fresh_world after_credit_k1) credit_k1).
    + vm_compute; reflexivity.
    + left. vm_compute. discriminate.
  - apply (key_conflict debit (clock 1002) (at_time 101 1001) 1 (request "k1" 10050)
             (fresh_world after_credit_k1) credit_k1).
    + vm_compute; reflexivity.
    + right. vm_compute. discriminate.
Defined.

(** C9, as the code has it.  When the entry stored under the key belongs
    to the account the caller's id is read as and has the type of the
    operation, [creditUser] and [debitUser] send the lookup alone and write
    nothing: the account is not read, so its status does not matter, and
    the amount, description and metadata of the request are not looked at.
    When the caller writes the id as PostgreSQL prints it, they return the
    stored entry as [getTransactionByTransactionId] has read it: the id,
    account, key, type, amount, balances and description of the stored
    row, its metadata with the member names in camel case at every depth
    (the stored metadata themselves when no name has an underscore before
    a small letter), and the time of the read as [processedAt].  When the
    caller writes the id in another way, they throw 'Transaction ID
    belongs to a different user'. *)
Theorem replay_skips_validation op rt gen (uid : uuid_string) req w e :
  find_transaction (transactions (store w)) (transactionId req) = Some e →
  user_id e = read_as uid →
  tx_type e = op →
  credit_or_debit op rt gen uid req w
  = (if as_printed uid
     then Ok {| Transaction.id := tx_id e;
                Transaction.userId := user_id e;
                Transaction.transactionId := transaction_id e;
                Transaction.type := tx_type e;
                Transaction.amount := amount e;
                Transaction.balanceBefore := balance_before e;
                Transaction.balanceAfter := balance_after e;
                Transaction.description := description e;
                Transaction.metadata := toCamelCase_members <$> metadata e;
                Transaction.processedAt := new_Date rt 0;
                Transaction.createdAt := ∅ |}
     else Err Transaction_ID_belongs_to_a_different_user,
     {| store := store w;
        issued := issued w ++ [select_transaction_by_transaction_id (transactionId req)] |})
  ∧ ((∀ m, metadata e = Some m → no_snake_names (json_obj m) = true) →
     toCamelCase_members <$> metadata e = metadata e).
Proof.
  intros Hfind Hu Ht. split.
  - rewrite (credit_or_debit_found _ _ _ _ _ _ _ Hfind). simpl.
    assert (is_text_of (user_id e) uid = as_printed uid) as ->
      by (unfold is_text_of; rewrite Hu, N.eqb_refl; apply andb_true_r).
    destruct (as_printed uid); simpl; [|done].
    by rewrite bool_decide_eq_true_2.
  - intros Hnames. destruct (metadata e) as [m|]; [|done]. simpl. f_equal.
    apply Json.toCamelCase_members_same. by apply Hnames.
Qed.

(** Alice is suspended after her credit under "k1", which carries
    metadata; the key is replayed with a negative amount of three
    decimals, another description and other metadata. *)
Lemma replay_skips_validation_witness :
  status <$> users alice_noted_suspended !! 1%N = Some suspended ∧
  creditUser (clock 3001) (at_time 101 3000) 1
    {| transactionId := "k1"; req_amount := {| digits := -12345; places := 3 |};
       req_description := Some "again";
       req_metadata := Some {[ "n" := json_string "2" ]} |}
    (fresh_world alice_noted_suspended)
  = (Ok {| Transaction.id := 100;
           Transaction.userId := 1;
           Transaction.transactionId := "k1";
           Transaction.type := credit;
           Transaction.amount := 10050;
           Transaction.balanceBefore := 5025;
           Transaction.balanceAfter := 15075;
           Transaction.description := Some "first";
           Transaction.metadata :=
             Some {[ "source" := json_string "bank";
                     "outer" := json_obj {[ "innerKey" := json_string "1" ]} ]};
           Transaction.processedAt := 3001;
           Transaction.createdAt := ∅ |},
     {| store := alice_noted_suspended;
        issued := [select_transaction_by_transaction_id "k1"] |}).
Proof.
  split; [vm_compute; reflexivity|].
  etrans;
    [exact (proj1 (replay_skips_validation credit (clock 3001) (at_time 101 3000) 1
                     {| transactionId := "k1";
                        req_amount := {| digits := -12345; places := 3 |};
                        req_description := Some "again";
                        req_metadata := Some {[ "n" := json_string "2" ]} |}
                     (fresh_world alice_noted_suspended) noted_k1
                     eq_refl eq_refl eq_refl))|].
  vm_compute. reflexivity.
Defined.

(** C9, where the code departs from it.  The entry under "k1" is a credit
    of Alice.  The credit is sent again with the id of Alice written
    without its hyphens, which PostgreSQL reads as her id: the replay does
    not succeed, it throws 'Transaction ID belongs to a different user'.
    Sent again with the id as PostgreSQL prints it, when the clock reads
    3001, it returns the entry with [processedAt] 3001, and the row was
    processed at 1000. *)
Lemma replay_in_another_spelling_is_refused :
  find_transaction (transactions alice_noted_suspended) "k1" = Some noted_k1 ∧
  user_id noted_k1 = read_as alice_without_hyphens ∧
  tx_type noted_k1 = credit ∧
  creditUser (clock 3001) (at_time 101 3000) alice_without_hyphens
    (request "k1" 10050) (fresh_world alice_noted_suspended)
  = (Err Transaction_ID_belongs_to_a_different_user,
     {| store := alice_noted_suspended;
        issued := [select_transaction_by_transaction_id "k1"] |}) ∧
  processed_at noted_k1 = 1000 ∧
  Transaction.processedAt
    <$> match (creditUser (clock 3001) (at_time 101 3000) 1 (request "k1" 10050)
                 (fresh_world alice_noted_suspended)).1 with
        | Ok entry => Some entry
        | Err _ => None
        end
  = Some 3001.
Proof. split_and!; vm_compute; reflexivity. Qed.

(** C8.  With no entry stored under the key of the operation, each of
    the four operations throws 'User not found' when the account does not
    exist and 'User account is ...' when it exists with a status other
    than 'active'; the database is then as before: no entry, no balance
    change. *)
Theorem account_must_be_active rt gen o w :
  no_entry (store w) (operation_key rt o) →
  (users (store w) !! operation_user o = None →
     ∃ w', perform rt gen o w = (Err User_not_found, w') ∧ store w' = store w) ∧
  (∀ u, users (store w) !! operation_user o = Some u → status u ≠ active →
     ∃ w', perform rt gen o w = (Err (User_account_is (status u)), w') ∧
           store w' = store w).
Proof.
  intros Hno%find_transaction_None.
  destruct o as [uid req|uid req|uid amt g md|uid amt g md]; simpl in *.
  1, 2: unfold creditUser, debitUser; rewrite (credit_or_debit_new _ _ _ _ _ _ Hno).
  all: unfold processWager, processPayout, bind; rewrite validateUserExists_run; simpl.
  all: split; [intros ->; by eexists|].
  all: intros u -> Hst; destruct (decide (status u = active)); [done|by eexists].
Qed.

(** Bob is suspended and account 3 does not exist: a debit is refused for
    both. *)
Lemma account_must_be_active_witness :
  no_entry two_accounts "k5" ∧
  ((users two_accounts !! 3%N = None →
      ∃ w', debitUser (clock 1002) (at_time 101 1001) 3 (request "k5" 100)
              (fresh_world two_accounts)
            = (Err User_not_found, w') ∧ store w' = two_accounts) ∧
   (∀ u, users two_accounts !! 3%N = Some u → status u ≠ active →
      ∃ w', debitUser (clock 1002) (at_time 101 1001) 3 (request "k5" 100)
              (fresh_world two_accounts)
            = (Err (User_account_is (status u)), w') ∧ store w' = two_accounts)) ∧
  ((users two_accounts !! 2%N = None →
      ∃ w', debitUser (clock 1002) (at_time 101 1001) 2 (request "k5" 100)
              (fresh_world two_accounts)
            = (Err User_not_found, w') ∧ store w' = two_accounts) ∧
   (∀ u, users two_accounts !! 2%N = Some u → status u ≠ active →
      ∃ w', debitUser (clock 1002) (at_time 101 1001) 2 (request "k5" 100)
              (fresh_world two_accounts)
            = (Err (User_account_is (status u)), w') ∧ store w' = two_accounts)).
Proof.
  assert (no_entry two_accounts "k5") as Hno.
  { intros r Hin. by apply not_elem_of_nil in Hin. }
  split; [exact Hno|]. split.
  - exact (account_must_be_active (clock 1002) (at_time 101 1001)
             (debit_op 3 (request "k5" 100)) (fresh_world two_accounts) Hno).
  - exact (account_must_be_active (clock 1002) (at_time 101 1001)
             (debit_op 2 (request "k5" 100)) (fresh_world two_accounts) Hno).
Defined.

(** [creditUser] and [debitUser] validate the amount: for a new key and an
    active account, an amount that is not positive or has more than two
    decimals is refused and nothing is written. *)
Lemma credit_or_debit_validates_amount op rt gen (uid : uuid_string) req w u :
  no_entry (store w) (transactionId req) →
  users (store w) !! read_as uid = Some u → status u = active →
  digits (req_amount req) ≤ 0 ∨ (2 < decimalPlaces (req_amount req))%nat →
  ∃ err w',
    credit_or_debit op rt gen uid req w = (Err err, w') ∧
    (err = Amount_must_be_positive ∨ err = Amount_must_have_at_most_2_decimal_places) ∧
    store w' = store w.
Proof.
  intros Hno%find_transaction_None Hu Hst Hbad.
  rewrite (credit_or_debit_new _ _ _ _ _ _ Hno).
  unfold bind at 1. rewrite validateUserExists_run. simpl. rewrite Hu.
  destruct (decide (status u = active)); [|done].
  unfold bind. rewrite validateAmount_run.
  destruct (Z.leb_spec (digits (req_amount req)) 0).
  - eexists _, _. split; [done|]. split; [by left|done].
  - destruct Hbad as [|Hbad]; [lia|].
    apply Nat.ltb_lt in Hbad. rewrite Hbad.
    eexists _, _. split; [done|]. split; [by right|done].
Qed.

(** C6, where the code departs from it.  [processWager] does not call
    [validateAmount].  A wager of 10.004, three decimals, by Alice, whose
    account is active and holds 50.25, is accepted: an entry of amount
    10.00 is stored and returned.  A wager of -5 is refused by the
    database only, [CHECK (amount > 0)], and what is thrown is the driver's
    error, not 'Amount must be positive'.  On the credit path
    [validateAmount] lets 0.0000001 pass, which JavaScript prints as
    "1e-7", without a point: it is again the [CHECK] that refuses it. *)
Theorem processWager_does_not_validate_amount :
  let rt := clock 1700000000000 in
  let w := fresh_world two_accounts in
  (toString {| digits := 10004; places := 3 |} = "10.004" ∧
   ∃ entry w',
     processWager rt (at_time 102 1002) 1 {| digits := 10004; places := 3 |} None None w
     = (Ok entry, w') ∧
     Transaction.amount entry = 1000 ∧ Transaction.balanceAfter entry = 4025 ∧
     amount <$> transactions (store w') = [1000] ∧
     balance_of (store w') 1 = Some 4025) ∧
  processWager rt (at_time 102 1002) 1 {| digits := -5; places := 0 |} None None w
  = (Err (database_error (check_violation "transactions_amount_check")),
     {| store := two_accounts;
        issued := [select_user_by_id 1;
                   select_process_transaction 1 "wager_0b5c_1700000000000" wager
                     {| digits := -5; places := 0 |}] |}) ∧
  (toString {| digits := 1; places := 7 |} = "1e-7" ∧
   (creditUser rt (at_time 102 1002) 1
      {| transactionId := "k6"; req_amount := {| digits := 1; places := 7 |};
         req_description := None; req_metadata := None |} w).1
   = Err (database_error (check_violation "transactions_amount_check"))).
Proof.
  intros rt w. split; [split; [reflexivity|]|split; [|split]].
  - subst rt w.
    destruct (processWager _ _ _ _ _ _ _) as [r w'] eqn:H.
    vm_compute in H. injection H as <- <-.
    eexists _, _. split; [reflexivity|]. by vm_compute.
  - vm_compute. reflexivity.
  - reflexivity.
  - vm_compute. reflexivity.
Qed.

(** What an operation leaves in the database: what was there, or what a
    successful [process_transaction] wrote. *)
Lemma perform_writes rt gen o w :
  store (perform rt gen o w).2 = store w ∨
  ∃ uid key ty amt d m row,
    process_transaction gen uid key ty amt d m (store w)
    = (Ok row, store (perform rt gen o w).2).
Proof.
  destruct (perform rt gen o w) as [[row|e] w'] eqn:Hrun; simpl;
    [|left; by eapply perform_Err].
  assert (∀ uid key ty amt d m w0 row w',
            store w0 = store w →
            createTransaction rt gen uid key ty amt d m w0 = (Ok row, w') →
            ∃ uid key ty amt d m row,
              process_transaction gen uid key ty amt d m (store w) = (Ok row, store w'))
    as Hcreate.
  { intros uid key ty amt d m w0 row0 w0' Hw0 (r & Hp & _)%createTransaction_Ok.
    rewrite Hw0 in Hp. by eexists _, _, _, _, _, _, _. }
  assert (∀ op uid req, credit_or_debit op rt gen uid req w = (Ok row, w') →
            store w' = store w ∨
            ∃ uid key ty amt d m row,
              process_transaction gen uid key ty amt d m (store w) = (Ok row, store w'))
    as Hcd.
  { intros op uid req H.
    destruct (find_transaction (transactions (store w)) (transactionId req))
      as [ex|] eqn:Hfind.
    - left. rewrite (credit_or_debit_found _ _ _ _ _ _ _ Hfind) in H. simpl in H.
      destruct (negb _); [done|]. destruct (negb _); [done|]. by injection H as _ <-.
    - right. rewrite (credit_or_debit_new _ _ _ _ _ _ Hfind) in H.
      unfold bind at 1 in H. rewrite validateUserExists_run in H. simpl in H.
      destruct (users (store w) !! read_as uid) as [u|]; [|done].
      destruct (decide (status u = active)); [|done].
      unfold bind in H. rewrite validateAmount_run in H.
      destruct (digits _ <=? 0); [done|]. destruct (2 <? _)%nat; [done|].
      by eapply Hcreate in H. }
  destruct o as [uid req|uid req|uid amt g md|uid amt g md]; simpl in Hrun.
  1, 2: by eapply Hcd.
  all: right; unfold processWager, processPayout, bind in Hrun;
    rewrite validateUserExists_run in Hrun;
    (destruct (users (store w) !! uid) as [u|]; [|done]);
    (destruct (decide (status u = active)); [|done]);
    by eapply Hcreate in Hrun.
Qed.

Lemma process_transaction_keeps_balances gen uid key ty amt d m db row db' :
  process_transaction gen uid key ty amt d m db = (Ok row, db') →
  balances_non_negative db → balances_non_negative db'.
Proof.
  intros (u & nb & Hu & _ & _ & _ & _ & Hnb & ->)%Engine.process_transaction_Ok Hinv.
  intros id u'. simpl. rewrite lookup_insert. case_decide.
  - by intros [= <-].
  - apply Hinv.
Qed.

Lemma act_keeps_balances a db :
  balances_non_negative db → balances_non_negative (act a db).
Proof.
  intros Hinv.
  destruct a as [gen name mail hash r initial|now id st|now id|rt gen o]; simpl.
  - unfold atomically, insert_user, bind, lift, assign_decimal_15_2.
    destruct (fits_decimal_15_2 (round_to_cents initial)); simpl; [|done].
    destruct (Z.leb_spec 0 (round_to_cents initial)); simpl; [|done].
    repeat (case_bool_decide; simpl; [done|]).
    intros id u. simpl. rewrite lookup_insert. case_decide.
    + by intros [= <-].
    + apply Hinv.
  - unfold atomically, updateUserStatus.
    destruct (users db !! id) as [u|] eqn:Hu; simpl; [|done].
    intros id' u'. simpl. rewrite lookup_insert. case_decide.
    + intros [= <-]. simpl. by eapply Hinv.
    + apply Hinv.
  - unfold atomically, update_last_login.
    destruct (users db !! id) as [u|] eqn:Hu; simpl; [|done].
    intros id' u'. simpl. rewrite lookup_insert. case_decide.
    + intros [= <-]. simpl. by eapply Hinv.
    + apply Hinv.
  - destruct (perform_writes rt gen o {| store := db; issued := [] |})
      as [->|(? & ? & ? & ? & ? & ? & ? & Hp)]; [done|].
    by eapply process_transaction_keeps_balances.
Qed.

(** With decimals for amounts no balance is ever negative: not after any
    history of actions on the empty database, and each of the four
    operations takes a database without negative balances to one without,
    whether it returns or throws. *)
Theorem balance_never_negative :
  (∀ history, balances_non_negative (after history)) ∧
  (∀ db, balances_non_negative db →
     ∀ rt gen o log,
       balances_non_negative (store (perform rt gen o {| store := db; issued := log |}).2)).
Proof.
  split.
  - intros history. unfold after.
    induction history as [|a history IH] using rev_ind.
    + intros id u. simpl. by rewrite lookup_empty.
    + rewrite foldl_snoc. by apply act_keeps_balances.
  - intros db Hinv rt gen o log.
    destruct (perform_writes rt gen o {| store := db; issued := log |})
      as [->|(? & ? & ? & ? & ? & ? & ? & Hp)]; [done|].
    by eapply process_transaction_keeps_balances.
Qed.

(** Alice tries to wager 100.00 out of 50.25. *)
Lemma balance_never_negative_witness :
  balances_non_negative two_accounts ∧
  balances_non_negative
    (store (perform (clock 1700000000000) (at_time 102 1002)
              (wager_op 1 {| digits := 100; places := 0 |} None None)
              {| store := two_accounts; issued := [] |}).2).
Proof.
  assert (balances_non_negative two_accounts) as H.
  { apply (bool_decide_unpack (map_Forall (λ _ u, 0 ≤ balance u) (users two_accounts))).
    vm_compute. exact I. }
  split; [exact H|].
  exact (proj2 balance_never_negative two_accounts H
           (clock 1700000000000) (at_time 102 1002)
           (wager_op 1 {| digits := 100; places := 0 |} None None) []).
Defined.

End Service.

(** ** The query layer *)

Module Query.

Global Instance in_order_transitive key o : Transitive (in_order key o).
Proof. intros r1 r2 r3. destruct o; simpl; lia. Qed.

Global Instance in_order_total key o : Total (in_order key o).
Proof. intros r1 r2. destruct o; simpl; lia. Qed.

Lemma StronglySorted_take {A} (R : relation A) n l :
  StronglySorted R l → StronglySorted R (take n l).
Proof.
  intros H. rewrite <- (take_drop n l) in H. by apply StronglySorted_app_1_l in H.
Qed.

Lemma StronglySorted_drop {A} (R : relation A) n l :
  StronglySorted R l → StronglySorted R (drop n l).
Proof.
  intros H. rewrite <- (take_drop n l) in H. by apply StronglySorted_app_1_r in H.
Qed.

(** C10, as the code has it.  The entries [getTransactions] returns are
    the conversions of rows that are in the order of the requested sort
    column, in the requested direction, and these rows are the requested
    page of one such ordering of the rows the filters select.  There is no
    second sort key: the order of rows with equal keys is the one the sort
    leaves them in. *)
Theorem getTransactions_sorted rt scan q r :
  getTransactions rt scan q = Ok r →
  ∃ key sorted rows,
    order_by_column (snake_case (default "processedAt" (sortBy q))) = Ok key ∧
    sorted ≡ₚ List.filter (where_clause q) scan ∧
    StronglySorted (in_order key (default desc (sortOrder q))) sorted ∧
    rows = take (Z.to_nat (default 20 (limit q)))
             (drop (Z.to_nat ((default 1 (page q) - 1) * default 20 (limit q))) sorted) ∧
    StronglySorted (in_order key (default desc (sortOrder q))) rows ∧
    data r = imap (λ i row, convertNumericFields (new_Date rt i) row) rows.
Proof.
  unfold getTransactions.
  destruct (order_by_column _) as [key|] eqn:Hkey; simpl; [|done].
  destruct (_ <? 0); [done|]. destruct (_ <? 0); [done|].
  intros [= <-]. simpl.
  exists key, (merge_sort (in_order key (default desc (sortOrder q)))
                 (List.filter (where_clause q) scan)).
  eexists.
  pose proof (StronglySorted_merge_sort (in_order key (default desc (sortOrder q)))
                (List.filter (where_clause q) scan)) as Hs.
  split; [done|]. split; [apply merge_sort_Permutation|]. split; [done|].
  split; [reflexivity|]. split; [|done].
  by apply StronglySorted_take, StronglySorted_drop.
Qed.

Lemma getTransactions_sorted_witness :
  ∃ r, getTransactions (clock 9000) [debit_b; credit_k1; debit_a] by_amount = Ok r ∧
  ∃ key sorted rows,
    order_by_column (snake_case (default "processedAt" (sortBy by_amount))) = Ok key ∧
    sorted ≡ₚ List.filter (where_clause by_amount) [debit_b; credit_k1; debit_a] ∧
    StronglySorted (in_order key (default desc (sortOrder by_amount))) sorted ∧
    rows = take (Z.to_nat (default 20 (limit by_amount)))
             (drop (Z.to_nat ((default 1 (page by_amount) - 1)
                               * default 20 (limit by_amount))) sorted) ∧
    StronglySorted (in_order key (default desc (sortOrder by_amount))) rows ∧
    data r = imap (λ i row, convertNumericFields (new_Date (clock 9000) i) row) rows.
Proof.
  eexists. split; [vm_compute; reflexivity|].
  apply (getTransactions_sorted (clock 9000) [debit_b; credit_k1; debit_a] by_amount).
  vm_compute; reflexivity.
Defined.

(** C10, as the specification has it, fails.  Two debits of the same
    amount are sorted by amount: read in the order [debit_a], [debit_b]
    they are returned in that order, read in the other order they are
    returned in the other order.  The order of the result is not a
    function of the rows and the query, and neither ascending nor
    descending [id] orders the ties. *)
Lemma ties_are_not_broken_by_id :
  [debit_a; debit_b] ≡ₚ [debit_b; debit_a] ∧
  amount debit_a = amount debit_b ∧
  (tx_id debit_a < tx_id debit_b)%N ∧
  (∃ r, getTransactions (clock 9000) [debit_a; debit_b] by_amount = Ok r ∧
        Transaction.id <$> data r = [tx_id debit_a; tx_id debit_b] ∧
        ¬ ties_broken_by_id Transaction.amount desc (data r)) ∧
  (∃ r, getTransactions (clock 9000) [debit_b; debit_a] by_amount = Ok r ∧
        Transaction.id <$> data r = [tx_id debit_b; tx_id debit_a] ∧
        ¬ ties_broken_by_id Transaction.amount asc (data r)).
Proof.
  split; [apply Permutation_swap|].
  split; [reflexivity|]. split; [reflexivity|]. split.
  - eexists. split; [vm_compute; reflexivity|]. split; [reflexivity|].
    intros H.
    specialize (H 0%nat 1%nat _ _ ltac:(lia) eq_refl eq_refl eq_refl).
    vm_compute in H. discriminate.
  - eexists. split; [vm_compute; reflexivity|]. split; [reflexivity|].
    intros H.
    specialize (H 0%nat 1%nat _ _ ltac:(lia) eq_refl eq_refl eq_refl).
    vm_compute in H. discriminate.
Qed.

End Query.

(** ** Concurrent calls *)

Module Concurrent.

Lemma returned_count_le cs : (returned_count cs ≤ length cs)%nat.
Proof. induction cs as [|[c p] cs IH]; simpl; [lia|]. destruct (has_returned p); lia. Qed.

Lemma returned_count_lt cs i c p :
  cs !! i = Some (c, p) → has_returned p = false →
  (returned_count cs < length cs)%nat.
Proof.
  revert i. induction cs as [|[c' p'] cs IH]; intros [|i] H Hp; simpl in *; try done.
  - injection H as -> ->. rewrite Hp. pose proof (returned_count_le cs). lia.
  - apply IH in H; [|done]. destruct (has_returned p'); lia.
Qed.

Lemma returned_count_insert cs i c p p' :
  cs !! i = Some (c, p) →
  (returned_count (<[i := (c, p')]> cs) + (if has_returned p then 1 else 0)
   = returned_count cs + (if has_returned p' then 1 else 0))%nat.
Proof.
  revert i. induction cs as [|[c0 p0] cs IH]; intros [|i] H; simpl in *; try done.
  - injection H as -> ->. lia.
  - apply IH in H. lia.
Qed.

Lemma pending_insert cs i c p p' :
  cs !! i = Some (c, p) →
  (pending (<[i := (c, p')]> cs) + pending [(c, p)]
   = pending cs + pending [(c, p')])%nat.
Proof.
  revert i. induction cs as [|[c0 p0] cs IH]; intros [|i] H; simpl in *; try done.
  - injection H as -> ->. lia.
  - apply IH in H. simpl in H. lia.
Qed.

Lemma pending_zero cs :
  pending cs = 0%nat ↔ ∀ i c p, cs !! i = Some (c, p) → has_returned p = true.
Proof.
  induction cs as [|[c0 p0] cs IH]; simpl.
  - split; [|done]. by intros _ [|?] ? ? ?.
  - split.
    + intros H [|i] c p Hi; simpl in Hi.
      * injection Hi as -> ->. destruct p; simpl in *; done || lia.
      * apply (proj1 IH) with i c; [|done]. destruct p0; simpl in *; lia.
    + intros H. pose proof (H 0%nat c0 p0 eq_refl) as H0.
      destruct p0; try done. simpl. apply IH. intros i c p Hi. by apply (H (S i) c p).
Qed.

Lemma row_locked_false cs uid i c cur :
  row_locked cs uid = false → cs !! i = Some (c, locked cur) → p_user_id c ≠ uid.
Proof.
  unfold row_locked. intros Hex Hi Hu.
  assert (existsb (λ cp, match cp.2 with
                         | locked _ => N.eqb (p_user_id cp.1) uid
                         | _ => false
                         end) cs = true) as E; [|congruence].
  apply existsb_exists. exists (c, locked cur). split.
  - apply list_elem_of_In. by eapply list_elem_of_lookup_2.
  - simpl. by apply N.eqb_eq.
Qed.

Lemma row_locked_true cs uid :
  row_locked cs uid = true → ∃ i c cur, cs !! i = Some (c, locked cur).
Proof.
  unfold row_locked. intros ([c p] & Hin & Hp)%existsb_exists.
  apply list_elem_of_In, list_elem_of_lookup in Hin as [i Hi].
  destruct p; simpl in Hp; try done. by exists i, c, current_balance.
Qed.

Lemma calls_insert_fst (cs : list (call * progress)) i c p p' :
  cs !! i = Some (c, p) → (<[i := (c, p')]> cs).*1 = cs.*1.
Proof.
  intros H. rewrite list_fmap_insert. simpl. apply list_insert_id.
  by rewrite list_lookup_fmap, H.
Qed.

Lemma start_calls db cs i c p :
  calls (start db cs) !! i = Some (c, p) → p = waiting ∧ cs !! i = Some c.
Proof.
  unfold start. simpl. rewrite list_lookup_fmap.
  destruct (cs !! i); simpl; [|done]. by intros [= -> ->].
Qed.

Lemma returned_count_start cs :
  returned_count ((λ c, (c, waiting)) <$> cs) = 0%nat.
Proof. induction cs; simpl; done. Qed.

Lemma pending_nonzero cs :
  pending cs ≠ 0%nat → ∃ i c p, cs !! i = Some (c, p) ∧ has_returned p = false.
Proof.
  induction cs as [|[c0 p0] cs IH]; simpl; [done|]. intros H.
  destruct (has_returned p0) eqn:Hp0.
  - destruct p0; try done. simpl in H.
    destruct (IH H) as (i & c & p & Hi & Hp). by exists (S i), c, p.
  - by exists 0%nat, c0, p0.
Qed.

Lemma returned_count_all cs :
  (∀ i c p, cs !! i = Some (c, p) → has_returned p = true) →
  returned_count cs = length cs.
Proof.
  induction cs as [|[c0 p0] cs IH]; simpl; [done|]. intros H.
  rewrite (H 0%nat c0 p0 eq_refl). rewrite IH; [done|].
  intros i c p Hi. by apply (H (S i) c p).
Qed.

Lemma run_app s1 s2 sys : run (s1 ++ s2) sys = run s2 (run s1 sys).
Proof. apply foldl_app. Qed.

(** [process_locked] writes to no row of [users] but that of its user. *)
Lemma process_locked_other_rows gen uid cur key ty amt d m db uid' :
  uid' ≠ uid →
  users (atomically (process_locked gen uid cur key ty amt d m) db).2 !! uid'
  = users db !! uid'.
Proof.
  intros Hne. unfold atomically.
  destruct (process_locked gen uid cur key ty amt d m db) as [[e|?] db'] eqn:Hp;
    [|done].
  apply Engine.process_locked_Ok in Hp as (nb & _ & _ & _ & _ & _ & _ & Hus).
  simpl. rewrite Hus. destruct (users db !! uid); [|done].
  by rewrite lookup_insert_ne.
Qed.

Lemma lock_consistent_start db cs : lock_consistent (start db cs).
Proof.
  split.
  - by intros i c cur [? _]%start_calls.
  - by intros i j ci cj curi curj [? _]%start_calls.
Qed.

(** Every step keeps the locks consistent, whatever the calls are. *)
Lemma lock_consistent_step i sys :
  lock_consistent sys → lock_consistent (step_call i sys).
Proof.
  intros [Hread Hone]. unfold step_call.
  destruct (calls sys !! i) as [[c [|cur|r]]|] eqn:Hi; [| |done|done].
  - destruct (row_locked (calls sys) (p_user_id c)) eqn:Hrl; [done|].
    unfold select_balance_for_update.
    destruct (users (committed sys) !! p_user_id c) as [u|] eqn:Hu; simpl.
    + split.
      * intros j cj curj [(-> & [= <- <-] & _)|(_ & Hj)]%list_lookup_insert_Some;
          [|by eapply Hread]. unfold balance_of. simpl. by rewrite Hu.
      * intros j1 j2 c1 c2 cur1 cur2
          [(<- & [= <- <-] & _)|(Hn1 & Hj1)]%list_lookup_insert_Some
          [(<- & [= <- <-] & _)|(Hn2 & Hj2)]%list_lookup_insert_Some Hsame; try done.
        -- by destruct (row_locked_false _ _ _ _ _ Hrl Hj2).
        -- by destruct (row_locked_false _ _ _ _ _ Hrl Hj1).
        -- by eapply Hone.
    + split.
      * intros j cj curj [(_ & [=] & _)|(_ & Hj)]%list_lookup_insert_Some.
        by eapply Hread.
      * intros j1 j2 c1 c2 cur1 cur2
          [(_ & [=] & _)|(_ & Hj1)]%list_lookup_insert_Some
          [(_ & [=] & _)|(_ & Hj2)]%list_lookup_insert_Some. by eapply Hone.
  - split; simpl.
    + intros j cj curj [(_ & [=] & _)|(Hne & Hj)]%list_lookup_insert_Some.
      unfold balance_of. rewrite process_locked_other_rows; [by apply (Hread j)|].
      intros Heq. by destruct (Hne (Hone _ _ _ _ _ _ Hi Hj (eq_sym Heq))).
    + intros j1 j2 c1 c2 cur1 cur2
        [(_ & [=] & _)|(_ & Hj1)]%list_lookup_insert_Some
        [(_ & [=] & _)|(_ & Hj2)]%list_lookup_insert_Some. by eapply Hone.
Qed.

Lemma lock_consistent_run schedule sys :
  lock_consistent sys → lock_consistent (run schedule sys).
Proof.
  revert sys. induction schedule as [|i schedule IH]; intros sys H; [done|].
  apply IH. by apply lock_consistent_step.
Qed.

(** Strict serialization: when a call that holds its lock moves, the
    committed database and the call's result are those of the whole of
    [process_transaction] run alone on the committed database. *)
Lemma commit_is_process_transaction i sys c cur :
  lock_consistent sys →
  calls sys !! i = Some (c, locked cur) →
  step_call i sys
  = {| committed := (process_call c (committed sys)).2;
       calls := <[i := (c, returned (process_call c (committed sys)).1)]> (calls sys) |}.
Proof.
  intros [Hread _] Hi. unfold step_call. rewrite Hi.
  pose proof (Hread _ _ _ Hi) as Hbal. unfold balance_of in Hbal.
  destruct (users (committed sys) !! p_user_id c) as [u|] eqn:Hu; [|done].
  injection Hbal as Hbal. unfold process_call.
  by rewrite (Engine.process_transaction_locked _ _ _ _ _ _ _ _ _ Hu), Hbal.
Qed.

Section debits.
Variables (db : database) (uid : uuid) (B a : Z) (cs : list call).
Hypothesis Hcov : covered_debits db uid B a cs.

Lemma serialized_start : serialized db uid B a cs (start db cs).
Proof.
  destruct Hcov as [Hacct _ _ _ _ _ _ _]. unfold balance_of in Hacct.
  destruct (users db !! uid) as [u|] eqn:Hu; [|done]. injection Hacct as Hbal.
  exists [], u. simpl. split_and!.
  - rewrite <- list_fmap_compose. apply list_fmap_id.
  - by rewrite app_nil_r.
  - by rewrite returned_count_start.
  - intros k e Hk. done.
  - done.
  - lia.
  - by intros i c cur [? _]%start_calls.
  - by intros i j ci cj ? ? [? _]%start_calls.
  - by intros i c r [? _]%start_calls.
  - by intros e Hin%not_elem_of_nil.
Qed.

Lemma call_of sys i c p :
  (calls sys).*1 = cs → calls sys !! i = Some (c, p) →
  cs !! i = Some c ∧ p_user_id c = uid ∧ p_type c = debit ∧ p_amount c = cents a.
Proof.
  intros Hcs Hi.
  assert (cs !! i = Some c) as Hc.
  { by rewrite <- Hcs, list_lookup_fmap, Hi. }
  split; [done|]. apply (debits_calls _ _ _ _ _ Hcov).
  by eapply list_elem_of_lookup_2.
Qed.

(** The key and the row id of a call that has not returned are not in
    the committed ledger. *)
Lemma pending_call_unused sys new i c p :
  (calls sys).*1 = cs →
  transactions (committed sys) = transactions db ++ new →
  (∀ e, e ∈ new →
     ∃ j cj r, calls sys !! j = Some (cj, returned r) ∧
               tx_id e = uuid_generate_v4 (call_defaults cj) ∧
               transaction_id e = p_transaction_id cj) →
  calls sys !! i = Some (c, p) → has_returned p = false →
  unused (committed sys) (call_defaults c) (p_transaction_id c).
Proof.
  intros Hcs Htx Hnew Hi Hp r Hr.
  destruct (call_of _ _ _ _ Hcs Hi) as (Hc & _).
  rewrite Htx in Hr. apply elem_of_app in Hr as [Hr|Hr].
  - apply (debits_unused _ _ _ _ _ Hcov c); [|done]. by eapply list_elem_of_lookup_2.
  - destruct (Hnew r Hr) as (j & cj & res & Hj & Hid & Hkey).
    destruct (call_of _ _ _ _ Hcs Hj) as (Hcj & _).
    assert (i ≠ j) as Hne.
    { intros ->. rewrite Hi in Hj. injection Hj as _ ->. done. }
    rewrite Hid, Hkey. split; intros Heq; apply Hne.
    + eapply (NoDup_lookup _ i j); [apply (debits_ids _ _ _ _ _ Hcov)|..];
        rewrite list_lookup_fmap; [by rewrite Hc|]. rewrite Hcj. simpl. by rewrite Heq.
    + eapply (NoDup_lookup _ i j); [apply (debits_keys _ _ _ _ _ Hcov)|..];
        rewrite list_lookup_fmap; [by rewrite Hc|]. rewrite Hcj. simpl. by rewrite Heq.
Qed.

Lemma serialized_step i sys :
  serialized db uid B a cs sys → serialized db uid B a cs (step_call i sys).
Proof.
  intros (new & u & Hcs & Htx & Hlen & Hchain & Hu & Hbal & Hlock & Hone & Hret & Hnew).
  pose proof Hcov as [_ HB Ha Hfunds _ _ _ _].
  apply Engine.fits_decimal_15_2_spec in HB.
  unfold step_call.
  destruct (calls sys !! i) as [[c [|cur|r]]|] eqn:Hi.
  - (* the call takes the lock, or keeps waiting *)
    destruct (call_of _ _ _ _ Hcs Hi) as (Hc & Hcu & Hty & Hamt).
    destruct (row_locked (calls sys) (p_user_id c)) eqn:Hrl.
    { by exists new, u. }
    unfold select_balance_for_update. rewrite Hcu, Hu.
    assert (∀ j cj curj, calls sys !! j = Some (cj, locked curj) → False) as Hfree.
    { intros j cj curj Hj. destruct (call_of _ _ _ _ Hcs Hj) as (_ & Hju & _).
      apply (row_locked_false _ _ _ _ _ Hrl Hj). congruence. }
    exists new, u. simpl. split_and!; try done.
    + by rewrite (calls_insert_fst _ _ _ _ _ Hi).
    + pose proof (returned_count_insert _ _ _ _ (locked (balance u)) Hi) as Hn.
      simpl in Hn. lia.
    + intros j cj curj [(-> & [= <- <-] & _)|(_ & Hj)]%list_lookup_insert_Some;
        [done|by destruct (Hfree _ _ _ Hj)].
    + intros j1 j2 c1 c2 cur1 cur2
        [(<- & _ & _)|(_ & Hj1)]%list_lookup_insert_Some
        [(<- & _ & _)|(_ & Hj2)]%list_lookup_insert_Some;
        done || by (destruct (Hfree _ _ _ Hj1) || destruct (Hfree _ _ _ Hj2)).
    + intros j cj r [(_ & [=] & _)|(_ & Hj)]%list_lookup_insert_Some. by eapply Hret.
    + intros e He. destruct (Hnew e He) as (j & cj & r & Hj & Hid & Hkey).
      exists j, cj, r. split; [|done]. rewrite list_lookup_insert_ne; [done|].
      intros ->. by rewrite Hi in Hj.
  - (* the call commits *)
    destruct (call_of _ _ _ _ Hcs Hi) as (Hc & Hcu & Hty & Hamt).
    pose proof (Hlock _ _ _ Hi) as Hcur.
    pose proof (returned_count_lt _ _ _ _ Hi eq_refl) as Hlt.
    assert (length (calls sys) = length cs) as Hlencs.
    { by rewrite <- Hcs, length_fmap. }
    assert ((Z.of_nat (length new) + 1) * a ≤ B) as Hroom by nia.
    rewrite Hamt, Hty.
    assert (compute_new_balance debit cur (cents a) = Ok (cur - a)) as Hnb.
    { simpl. unfold assign_decimal_15_2. rewrite Engine.round_minus_cents.
      rewrite (proj2 (Engine.fits_decimal_15_2_spec (cur - a)))
        by (unfold decimal_15_2_limit in *; lia).
      simpl. destruct (Z.ltb_spec (cur - a) 0); [lia|done]. }
    unfold atomically.
    rewrite (Engine.process_locked_succeeds _ _ _ _ _ _ _ _ _ _ u Hnb); cycle 1.
    { by rewrite Hcu. }
    { lia. }
    { apply Engine.fits_decimal_15_2_spec. unfold decimal_15_2_limit in *. lia. }
    { lia. }
    { lia. }
    { by eapply pending_call_unused. }
    set (e := new_row _ _ _ _ _ _ _ _ _).
    exists (new ++ [e]), (set_balance u (cur - a) (current_timestamp (call_defaults c))).
    simpl. rewrite length_app. simpl. split_and!.
    + by rewrite (calls_insert_fst _ _ _ _ _ Hi).
    + by rewrite Htx, app_assoc.
    + pose proof (returned_count_insert _ _ _ _ (returned (Ok e)) Hi) as Hn.
      simpl in Hn. lia.
    + intros k e' [[_ Hk]|(-> & He')]%lookup_snoc_Some; [by apply Hchain|].
      rewrite <- He'. unfold e. simpl. lia.
    + by rewrite Hcu, lookup_insert_eq.
    + simpl. lia.
    + intros j cj curj [(_ & [=] & _)|(Hne & Hj)]%list_lookup_insert_Some.
      by destruct (Hne (Hone _ _ _ _ _ _ Hi Hj)).
    + intros j1 j2 c1 c2 cur1 cur2 [(_ & [=] & _)|(Hne & Hj)]%list_lookup_insert_Some.
      by destruct (Hne (Hone _ _ _ _ _ _ Hi Hj)).
    + intros j cj r [(_ & [= <- <-] & _)|(_ & Hj)]%list_lookup_insert_Some.
      * exists e. split; [done|]. apply elem_of_app. right. by apply list_elem_of_singleton.
      * destruct (Hret _ _ _ Hj) as (e' & -> & He'). exists e'. split; [done|].
        apply elem_of_app. by left.
    + intros e' [He'|He'%list_elem_of_singleton]%elem_of_app; [|rewrite He'].
      * destruct (Hnew e' He') as (j & cj & r & Hj & Hid & Hkey).
        exists j, cj, r. split; [|done]. rewrite list_lookup_insert_ne; [done|].
        intros ->. by rewrite Hi in Hj.
      * exists i, c, (Ok e). split; [|done].
        apply list_lookup_insert_eq. by eapply lookup_lt_Some.
  - by exists new, u.
  - by exists new, u.
Qed.

Lemma serialized_run schedule sys :
  serialized db uid B a cs sys → serialized db uid B a cs (run schedule sys).
Proof.
  revert sys. induction schedule as [|i schedule IH]; intros sys H; [done|].
  apply IH. by apply serialized_step.
Qed.

(** No deadlock: unless all calls have returned, some call can move. *)
Lemma serialized_progress sys :
  serialized db uid B a cs sys →
  all_returned sys ∨
  ∃ i, (pending (calls (step_call i sys)) < pending (calls sys))%nat.
Proof.
  intros (new & u & Hcs & Htx & Hlen & Hchain & Hu & Hbal & Hlock & Hone & Hret & Hnew).
  destruct (row_locked (calls sys) uid) eqn:Hrl.
  - right. destruct (row_locked_true _ _ Hrl) as (i & c & cur & Hi).
    exists i. unfold step_call. rewrite Hi. simpl.
    pose proof (pending_insert _ _ _ _
                  (returned (atomically
                     (process_locked (call_defaults c) (p_user_id c) cur
                        (p_transaction_id c) (p_type c) (p_amount c)
                        (p_description c) (p_metadata c)) (committed sys)).1) Hi) as Hp.
    simpl in Hp. lia.
  - destruct (decide (pending (calls sys) = 0%nat)) as [Hz|Hnz].
    { left. exact (proj1 (pending_zero (calls sys)) Hz). }
    right. destruct (pending_nonzero _ Hnz) as (i & c & p & Hi & Hp).
    destruct (call_of _ _ _ _ Hcs Hi) as (_ & Hcu & _).
    destruct p as [|cur|r]; [| |done].
    + exists i. unfold step_call. rewrite Hi, Hcu, Hrl.
      unfold select_balance_for_update. rewrite Hu. simpl.
      pose proof (pending_insert _ _ _ _ (locked (balance u)) Hi) as Hq.
      simpl in Hq. lia.
    + destruct (row_locked_false _ _ _ _ _ Hrl Hi Hcu).
Qed.

(** Every execution can be carried on until all calls have returned. *)
Lemma serialized_completes n sys :
  (pending (calls sys) ≤ n)%nat →
  serialized db uid B a cs sys →
  ∃ more, all_returned (run more sys).
Proof.
  revert sys. induction n as [|n IH]; intros sys Hn Hs.
  - exists []. simpl. refine (proj1 (pending_zero (calls sys)) _). lia.
  - destruct (serialized_progress sys Hs) as [Hall|[i Hi]]; [by exists []|].
    destruct (IH (step_call i sys)) as [more Hmore]; [lia|by apply serialized_step|].
    by exists (i :: more).
Qed.

End debits.

(** C5.  Calls of [process_transaction] that debit the same amount from one
    account run under any schedule; the balance covers them all.  At
    every point of the execution: each call that has returned has
    succeeded and its entry is in the ledger; the ledger has grown by one
    entry for each of them, and these form a chain, each having read as
    [balance_before] the [balance_after] its predecessor committed; the
    stored balance is the initial one minus the amount for each entry.
    When all calls have returned the balance is [B - N * a].  The
    execution never blocks for good: some call can always move until all
    have returned, and it can be carried on to that point.  The row lock
    serializes the calls: no two hold the lock at once, the holder has
    read the balance committed last, and its step has the effect of the
    whole of [process_transaction] run alone on the committed database. *)
Theorem concurrent_debits_serialized db uid B a cs schedule :
  covered_debits db uid B a cs →
  (∀ i c r, calls (run schedule (start db cs)) !! i = Some (c, returned r) →
     ∃ e, r = Ok e ∧ e ∈ transactions (committed (run schedule (start db cs)))) ∧
  (∃ new,
     transactions (committed (run schedule (start db cs))) = transactions db ++ new ∧
     length new = returned_count (calls (run schedule (start db cs))) ∧
     chained B a new ∧
     balance_of (committed (run schedule (start db cs))) uid
     = Some (B - Z.of_nat (length new) * a)) ∧
  (all_returned (run schedule (start db cs)) →
     balance_of (committed (run schedule (start db cs))) uid
     = Some (B - Z.of_nat (length cs) * a)) ∧
  (all_returned (run schedule (start db cs)) ∨
   ∃ i, (pending (calls (step_call i (run schedule (start db cs))))
         < pending (calls (run schedule (start db cs))))%nat) ∧
  (∃ more, all_returned (run (schedule ++ more) (start db cs))) ∧
  lock_consistent (run schedule (start db cs)) ∧
  (∀ i c cur,
     calls (run schedule (start db cs)) !! i = Some (c, locked cur) →
     step_call i (run schedule (start db cs))
     = {| committed := (process_call c (committed (run schedule (start db cs)))).2;
          calls :=
            <[i := (c, returned
                         (process_call c (committed (run schedule (start db cs)))).1)]>
              (calls (run schedule (start db cs))) |}).
Proof.
  intros Hcov.
  pose proof (lock_consistent_run schedule _ (lock_consistent_start db cs)) as Hlc.
  pose proof (serialized_run _ _ _ _ _ Hcov schedule _
                (serialized_start _ _ _ _ _ Hcov)) as Hs.
  pose proof Hs as
    (new & u & Hcs & Htx & Hlen & Hchain & Hu & Hbal & Hlock & Hone & Hret & Hnew).
  split_and!.
  - intros i c r Hi. destruct (Hret _ _ _ Hi) as (e & -> & He).
    exists e. split; [done|]. rewrite Htx. apply elem_of_app. by right.
  - exists new. split_and!; try done. unfold balance_of. rewrite Hu. simpl. by rewrite Hbal.
  - intros Hall. unfold balance_of. rewrite Hu. simpl. rewrite Hbal. do 3 f_equal.
    rewrite Hlen, (returned_count_all _ Hall). f_equal.
    rewrite <- Hcs at 2. by rewrite length_fmap.
  - by eapply serialized_progress.
  - destruct (serialized_completes _ _ _ _ _ Hcov _ _ (Nat.le_refl _) Hs) as [more Hmore].
    exists more. by rewrite run_app.
  - done.
  - intros i c cur Hi. by apply (commit_is_process_transaction i _ c cur).
Qed.

(** Five concurrent debits of 100.00 from a balance of 1000.00, the first
    three calls all started before any has committed. *)
Lemma concurrent_debits_serialized_witness :
  covered_debits one_account 5 100000 10000 five_debits ∧
  balance_of
    (committed (run [0; 1; 2; 1; 0; 0; 1; 1; 2; 2; 3; 4; 3; 4; 4]%nat
                  (start one_account five_debits))) 5 = Some 50000 ∧
  ((∀ i c r,
      calls (run [0; 1; 2; 1; 0]%nat (start one_account five_debits)) !! i
      = Some (c, returned r) →
      ∃ e, r = Ok e ∧
           e ∈ transactions (committed (run [0; 1; 2; 1; 0]%nat
                                          (start one_account five_debits)))) ∧
   (∃ new,
      transactions (committed (run [0; 1; 2; 1; 0]%nat (start one_account five_debits)))
      = transactions one_account ++ new ∧
      length new
      = returned_count (calls (run [0; 1; 2; 1; 0]%nat (start one_account five_debits))) ∧
      chained 100000 10000 new ∧
      balance_of (committed (run [0; 1; 2; 1; 0]%nat (start one_account five_debits))) 5
      = Some (100000 - Z.of_nat (length new) * 10000)) ∧
   (all_returned (run [0; 1; 2; 1; 0]%nat (start one_account five_debits)) →
      balance_of (committed (run [0; 1; 2; 1; 0]%nat (start one_account five_debits))) 5
      = Some (100000 - Z.of_nat (length five_debits) * 10000)) ∧
   (all_returned (run [0; 1; 2; 1; 0]%nat (start one_account five_debits)) ∨
    ∃ i, (pending (calls (step_call i (run [0; 1; 2; 1; 0]%nat
                                         (start one_account five_debits))))
          < pending (calls (run [0; 1; 2; 1; 0]%nat
                              (start one_account five_debits))))%nat) ∧
   (∃ more,
      all_returned (run ([0; 1; 2; 1; 0]%nat ++ more) (start one_account five_debits))) ∧
   lock_consistent (run [0; 1; 2; 1; 0]%nat (start one_account five_debits)) ∧
   (∀ i c cur,
      calls (run [0; 1; 2; 1; 0]%nat (start one_account five_debits)) !! i
      = Some (c, locked cur) →
      step_call i (run [0; 1; 2; 1; 0]%nat (start one_account five_debits))
      = {| committed :=
             (process_call c
                (committed (run [0; 1; 2; 1; 0]%nat (start one_account five_debits)))).2;
           calls :=
             <[i := (c, returned
                          (process_call c
                             (committed (run [0; 1; 2; 1; 0]%nat
                                           (start one_account five_debits)))).1)]>
               (calls (run [0; 1; 2; 1; 0]%nat (start one_account five_debits))) |})).
Proof.
  assert (covered_debits one_account 5 100000 10000 five_debits) as H.
  { split.
    - vm_compute; reflexivity.
    - vm_compute; reflexivity.
    - lia.
    - simpl; lia.
    - apply Forall_forall. repeat constructor.
    - apply (bool_decide_unpack (NoDup (p_transaction_id <$> five_debits))).
      vm_compute. exact I.
    - apply (bool_decide_unpack
               (NoDup ((λ c, uuid_generate_v4 (call_defaults c)) <$> five_debits))).
      vm_compute. exact I.
    - intros c _ r Hr. by apply not_elem_of_nil in Hr. }
  split; [exact H|]. split; [vm_compute; reflexivity|].
  exact (concurrent_debits_serialized one_account 5 100000 10000 five_debits
           [0; 1; 2; 1; 0]%nat H).
Defined.

End Concurrent.

(** ** The ledger as the writers keep it *)

Module Ledger.

Lemma perform_write_effect w db : write_effect w db (perform_write w db).
Proof.
  destruct w as [[gen name mail hash r initial|now id st|now id|rt gen o]|c]; simpl.
  - unfold atomically, insert_user, bind, lift, assign_decimal_15_2.
    destruct (fits_decimal_15_2 (round_to_cents initial)); simpl;
      [|by apply touches_no_balance].
    destruct (negb _); simpl; [by apply touches_no_balance|].
    case_bool_decide as Hid; simpl; [by apply touches_no_balance|].
    repeat (case_bool_decide; simpl; [by apply touches_no_balance|]).
    eapply opens_account; [done|done| |done|done].
    by apply eq_None_not_Some.
  - unfold atomically, updateUserStatus.
    destruct (users db !! id) as [u|] eqn:Hu; simpl; [|by apply touches_no_balance].
    apply touches_no_balance; [done|]. intros id'. unfold balance_of. simpl.
    rewrite lookup_insert. case_decide; [subst; by rewrite Hu|done].
  - unfold atomically, update_last_login.
    destruct (users db !! id) as [u|] eqn:Hu; simpl; [|by apply touches_no_balance].
    apply touches_no_balance; [done|]. intros id'. unfold balance_of. simpl.
    rewrite lookup_insert. case_decide; [subst; by rewrite Hu|done].
  - destruct (Service.perform_writes rt gen o {| store := db; issued := [] |})
      as [->|(? & ? & ? & ? & ? & ? & ? & Hp)]; simpl in *.
    + by apply touches_no_balance.
    + by eapply adds_entry.
  - unfold process_call.
    destruct (process_transaction _ _ _ _ _ _ _ db) as [[entry|e] db'] eqn:Hp; simpl.
    + by eapply adds_entry.
    + apply Engine.process_transaction_Err in Hp as ->. by apply touches_no_balance.
Qed.

Lemma transactions_unique_Ok rows r :
  transactions_unique rows r = Ok tt →
  (tx_id r ∉ tx_id <$> rows) ∧ (transaction_id r ∉ transaction_id <$> rows).
Proof.
  unfold transactions_unique.
  destruct (existsb _ rows) eqn:E1; [discriminate|].
  destruct (existsb (λ r', String.eqb _ _) rows) eqn:E2; [discriminate|].
  intros _. split; intros (r' & Heq & Hin)%list_elem_of_fmap.
  - assert (existsb (λ r', N.eqb (tx_id r') (tx_id r)) rows = true) as H; [|congruence].
    apply existsb_exists. exists r'. split; [by apply list_elem_of_In|].
    by apply N.eqb_eq.
  - assert (existsb (λ r', String.eqb (transaction_id r') (transaction_id r)) rows = true)
      as H; [|congruence].
    apply existsb_exists. exists r'. split; [by apply list_elem_of_In|].
    by apply String.eqb_eq.
Qed.

Lemma NoDup_snoc {A} (l : list A) (x : A) : NoDup l → x ∉ l → NoDup (l ++ [x]).
Proof.
  intros Hl Hx. apply NoDup_app. split; [done|]. split; [|apply NoDup_singleton].
  intros y Hy ->%list_elem_of_singleton. done.
Qed.

Lemma effect_keys_unique w db db' :
  write_effect w db db' → keys_unique db → keys_unique db'.
Proof.
  intros [Htx _|g nm ml hs rl ini id u0 _ Htx _ _ _|gen uid key ty amt d m entry Hp]
    [Hk Hi]; unfold keys_unique.
  - by rewrite Htx.
  - by rewrite Htx.
  - apply Engine.process_transaction_Ok in Hp
      as (u & nb & _ & _ & _ & _ & Huniq & _ & ->).
    apply transactions_unique_Ok in Huniq as [Hid Hkey]. simpl.
    rewrite !fmap_app. simpl. split; by apply NoDup_snoc.
Qed.

Lemma effect_owners_exist w db db' :
  write_effect w db db' → owners_exist db → owners_exist db'.
Proof.
  intros [Htx Hbal|g nm ml hs rl ini id u0 _ Htx Hnone Hus _
          |gen uid key ty amt d m entry Hp] Hown r.
  - rewrite Htx. intros Hin. specialize (Hown r Hin).
    specialize (Hbal (user_id r)). unfold balance_of in Hbal.
    destruct Hown as [u Hu]. rewrite Hu in Hbal. simpl in Hbal.
    destruct (users db' !! user_id r); [by eexists|done].
  - rewrite Htx, Hus. intros Hin. specialize (Hown r Hin).
    rewrite lookup_insert. case_decide; [by eexists|done].
  - apply Engine.process_transaction_Ok in Hp
      as (u & nb & Hu & _ & -> & _ & _ & _ & ->). simpl.
    intros [Hin| ->%list_elem_of_singleton]%elem_of_app; simpl.
    + rewrite lookup_insert. case_decide; [by eexists|by apply Hown].
    + rewrite lookup_insert_eq. by eexists.
Qed.

Lemma entries_of_snoc db db' entry uid :
  transactions db' = transactions db ++ [entry] →
  entries_of db' uid =
  entries_of db uid ++ (if decide (user_id entry = uid) then [entry] else []).
Proof.
  intros Htx. unfold entries_of. by rewrite Htx, filter_app.
Qed.

Lemma effect_chained w db db' uid :
  write_effect w db db' → owners_exist db →
  account_chained db uid → account_chained db' uid.
Proof.
  intros [Htx Hbal|g nm ml hs rl ini id u0 _ Htx Hnone Hus _
          |gen uid0 key ty amt d m entry Hp] Hown [Hlink Hlast].
  - unfold account_chained, entries_of. rewrite Htx, Hbal. by split.
  - unfold account_chained, entries_of, balance_of. rewrite Htx, Hus.
    split; [done|]. intros e He. rewrite lookup_insert. case_decide as Hid.
    + subst id. apply last_Some_elem_of in He.
      apply list_elem_of_filter in He as [Hu Hin].
      destruct (Hown e Hin) as [u Hsome]. congruence.
    + by apply Hlast.
  - apply Engine.process_transaction_Ok in Hp
      as (u & nb & Hu & _ & -> & _ & _ & _ & ->).
    unfold account_chained.
    erewrite (entries_of_snoc db) by reflexivity. simpl.
    unfold balance_of. simpl.
    case_decide as Hid.
    + subst uid0. split.
      * intros k e1 e2 [[_ H1]|[Hk _]]%lookup_snoc_Some H2.
        -- apply lookup_snoc_Some in H2 as [[_ H2]|[Hk <-]]; [by eapply Hlink|].
           simpl. assert (last (entries_of db uid) = Some e1) as Hl.
           { rewrite last_lookup, <- Hk. done. }
           apply Hlast in Hl. unfold balance_of in Hl. rewrite Hu in Hl.
           by injection Hl.
        -- apply lookup_lt_Some in H2. rewrite length_app in H2. simpl in H2. lia.
      * intros e. rewrite last_snoc. intros [= <-]. by rewrite lookup_insert_eq.
    + rewrite app_nil_r. split; [done|]. intros e He.
      rewrite lookup_insert_ne by done. by apply Hlast.
Qed.

Lemma sum_amounts_app counted l k :
  TransactionRepository.sum_amounts counted (l ++ k)
  = TransactionRepository.sum_amounts counted l
    + TransactionRepository.sum_amounts counted k.
Proof.
  unfold TransactionRepository.sum_amounts.
  induction l as [|r l IH]; simpl; [done|]. rewrite IH. lia.
Qed.

Lemma net_credited_same db db' uid :
  transactions db' = transactions db → net_credited db' uid = net_credited db uid.
Proof.
  intros Htx. unfold net_credited, TransactionRepository.getTransactionStats.
  by rewrite Htx.
Qed.

Lemma net_credited_snoc db db' entry uid :
  transactions db' = transactions db ++ [entry] →
  net_credited db' uid =
  net_credited db uid
  + (if N.eqb (user_id entry) uid
     then (if is_credit_class (tx_type entry) then amount entry else 0)
          - (if is_debit_class (tx_type entry) then amount entry else 0)
     else 0).
Proof.
  intros Htx. unfold net_credited, TransactionRepository.getTransactionStats. simpl.
  rewrite Htx, List.filter_app, !sum_amounts_app. simpl.
  destruct (N.eqb (user_id entry) uid); simpl; lia.
Qed.

Lemma net_credited_none db uid :
  owners_exist db → users db !! uid = None → net_credited db uid = 0.
Proof.
  intros Hown Hnone. unfold net_credited, TransactionRepository.getTransactionStats.
  simpl.
  assert (List.filter (λ r, N.eqb (user_id r) uid) (transactions db) = []) as ->; [|done].
  unfold owners_exist in Hown. revert Hown.
  induction (transactions db) as [|r rows IH]; intros Hown; simpl; [done|].
  destruct (N.eqb_spec (user_id r) uid) as [Hr|Hr].
  - destruct (Hown r) as [u Hu]; [left|]. congruence.
  - apply IH. intros r' Hin. apply Hown. by right.
Qed.

Lemma effect_keeps_accounts w db db' id :
  write_effect w db db' → is_Some (users db !! id) → is_Some (users db' !! id).
Proof.
  intros [Htx Hbal|g nm ml hs rl ini id0 u0 _ Htx Hnone Hus _
          |gen uid key ty amt d m entry Hp] [u Hu].
  - specialize (Hbal id). unfold balance_of in Hbal. rewrite Hu in Hbal.
    destruct (users db' !! id); [by eexists|done].
  - rewrite Hus, lookup_insert. case_decide; by eexists.
  - apply Engine.process_transaction_Ok in Hp
      as (u1 & nb & Hu1 & _ & _ & _ & _ & _ & ->). simpl.
    rewrite lookup_insert. case_decide; by eexists.
Qed.

Lemma effect_net w db db' uid u :
  write_effect w db db' → users db !! uid = Some u →
  ∃ u', users db' !! uid = Some u' ∧
        balance u' - net_credited db' uid = balance u - net_credited db uid.
Proof.
  intros [Htx Hbal|g nm ml hs rl ini id0 u0 _ Htx Hnone Hus _
          |gen uid0 key ty amt d m entry Hp] Hu.
  - specialize (Hbal uid). unfold balance_of in Hbal. rewrite Hu in Hbal.
    destruct (users db' !! uid) as [u'|]; [|done]. injection Hbal as Hbal.
    exists u'. by rewrite Hbal, (net_credited_same db db').
  - exists u. rewrite Hus, lookup_insert_ne by congruence.
    by rewrite (net_credited_same db db').
  - apply Engine.process_transaction_Ok in Hp
      as (u1 & nb & Hu1 & Hnb & -> & Hchk & _ & _ & ->).
    apply Engine.transactions_checks_Ok in Hchk as (Hcons & _).
    apply Engine.transaction_balance_consistency_spec in Hcons as [Hc Hd].
    simpl in Hc, Hd.
    erewrite (net_credited_snoc db) by reflexivity. simpl.
    destruct (N.eqb_spec uid0 uid) as [->|Hne].
    + rewrite lookup_insert_eq. eexists. split; [done|]. simpl.
      assert (u1 = u) as -> by congruence.
      destruct ty; simpl in *;
        (rewrite (Hc eq_refl) || rewrite (Hd eq_refl)); lia.
    + rewrite lookup_insert_ne by done. exists u. split; [done|]. lia.
Qed.

Lemma owners_exist_after ws : owners_exist (after_writes ws).
Proof.
  unfold after_writes. induction ws as [|w ws IH] using rev_ind.
  - intros r Hin. by apply not_elem_of_nil in Hin.
  - rewrite foldl_snoc. eapply effect_owners_exist; [apply perform_write_effect|done].
Qed.

(** Whatever is written, no two entries of the ledger ever share an
    idempotency key ([transaction_id]), and no two share an [id]. *)
Theorem keys_stay_unique ws : keys_unique (after_writes ws).
Proof.
  unfold after_writes. induction ws as [|w ws IH] using rev_ind.
  - split; apply NoDup_nil_2.
  - rewrite foldl_snoc. eapply effect_keys_unique; [apply perform_write_effect|done].
Qed.

(** Every entry belongs to an account that exists, and an account, once
    it exists, is there after every later write: no entry is orphaned. *)
Theorem entries_keep_their_owner ws :
  owners_exist (after_writes ws) ∧
  ∀ later id,
    is_Some (users (after_writes ws) !! id) →
    is_Some (users (after_writes (ws ++ later)) !! id).
Proof.
  split; [apply owners_exist_after|].
  intros later id Hid. induction later as [|w later IH] using rev_ind.
  - by rewrite app_nil_r.
  - rewrite app_assoc. unfold after_writes in *. rewrite foldl_snoc.
    eapply effect_keeps_accounts; [apply perform_write_effect|done].
Qed.

(** The ledger is append-only: a write, whichever it is and in whatever
    state, leaves every stored entry as it is and adds at most one. *)
Theorem ledger_is_append_only w db :
  ∃ new,
    transactions (perform_write w db) = transactions db ++ new ∧
    (length new ≤ 1)%nat.
Proof.
  destruct (perform_write_effect w db)
    as [Htx _|g nm ml hs rl ini id0 u0 _ Htx _ _ _|gen uid key ty amt d m entry Hp].
  - exists []. rewrite Htx, app_nil_r. split; [done|simpl; lia].
  - exists []. rewrite Htx, app_nil_r. split; [done|simpl; lia].
  - apply Engine.process_transaction_Ok in Hp
      as (u & nb & _ & _ & _ & _ & _ & _ & Hdb).
    exists [entry]. rewrite Hdb. split; [done|simpl; lia].
Qed.

(** The entries of an account form a chain, whatever was written: each
    [balance_before] is the [balance_after] of the account's entry before
    it, and the [balance_after] of its latest entry is the balance the
    account has. *)
Theorem account_entries_chain ws uid : account_chained (after_writes ws) uid.
Proof.
  induction ws as [|w ws IH] using rev_ind.
  - split; [intros k e1 e2 H; done|intros e H; done].
  - pose proof (owners_exist_after ws) as Hown.
    unfold after_writes in *. rewrite foldl_snoc.
    eapply effect_chained; [apply perform_write_effect|done|done].
Qed.





End Ledger.

(** ** Reads after writes, and pages *)

Module Reads.

(** An operation that returned has read the entry back from under its
    key, or has had [process_transaction] write it. *)
Lemma perform_Ok_cases rt gen o w entry w' :
  perform rt gen o w = (Ok entry, w') →
  ∃ row,
    entry = convertNumericFields (new_Date rt 0) row ∧
    ((store w' = store w ∧ row ∈ transactions (store w) ∧
      transaction_id row = operation_key rt o)
     ∨ ∃ ty amt d m,
         process_transaction gen (operation_user o) (operation_key rt o) ty amt d m
           (store w)
         = (Ok row, store w')).
Proof.
  assert (∀ uid key ty amt d m w0,
            store w0 = store w →
            createTransaction rt gen uid key ty amt d m w0 = (Ok entry, w') →
            ∃ row,
              entry = convertNumericFields (new_Date rt 0) row ∧
              ∃ ty amt d m,
                process_transaction gen uid key ty amt d m (store w) = (Ok row, store w'))
    as Hcreate.
  { intros uid key ty amt d m w0 Hw0 (row & Hp & -> & _)%Service.createTransaction_Ok.
    rewrite Hw0 in Hp. exists row. split; [done|]. by eexists _, _, _, _. }
  assert (∀ op (uid : uuid_string) req,
            credit_or_debit op rt gen uid req w = (Ok entry, w') →
            ∃ row,
              entry = convertNumericFields (new_Date rt 0) row ∧
              ((store w' = store w ∧ row ∈ transactions (store w) ∧
                transaction_id row = transactionId req)
               ∨ ∃ ty amt d m,
                   process_transaction gen (read_as uid) (transactionId req) ty amt d m
                     (store w)
                   = (Ok row, store w'))) as Hcd.
  { intros op uid req H.
    destruct (find_transaction (transactions (store w)) (transactionId req))
      as [ex|] eqn:Hfind.
    - rewrite (Service.credit_or_debit_found _ _ _ _ _ _ _ Hfind) in H. simpl in H.
      destruct (negb _); [done|]. destruct (negb _); [done|].
      injection H as <- <-. exists ex. split; [done|]. left.
      apply Service.find_transaction_Some in Hfind as [Hin Hk]. done.
    - rewrite (Service.credit_or_debit_new _ _ _ _ _ _ Hfind) in H.
      unfold bind at 1 in H. rewrite Service.validateUserExists_run in H. simpl in H.
      destruct (users (store w) !! read_as uid) as [u|]; [|done].
      destruct (decide (status u = active)); [|done].
      unfold bind in H. rewrite Service.validateAmount_run in H.
      destruct (digits _ <=? 0); [done|]. destruct (2 <? _)%nat; [done|].
      apply Hcreate in H as (row & -> & Hp); [|done].
      exists row. split; [done|]. by right. }
  destruct o as [uid req|uid req|uid amt g md|uid amt g md]; simpl.
  1, 2: apply Hcd.
  all: unfold processWager, processPayout, bind;
    rewrite Service.validateUserExists_run;
    (destruct (users (store w) !! uid) as [u|]; [|done]);
    (destruct (decide (status u = active)); [|done]);
    intros (row & -> & Hp)%Hcreate; [|done];
    exists row; (split; [done|]); by right.
Qed.

(** Read your write: once an operation has written an entry, under a key
    that was not yet in the ledger, [getUserBalance] returns the
    [balanceAfter] of the entry the operation returned. *)
Theorem balance_read_after_operation rt gen o w entry w' :
  perform rt gen o w = (Ok entry, w') →
  no_entry (store w) (operation_key rt o) →
  WalletService.getUserBalance (operation_user o) (store w')
  = Ok (Transaction.balanceAfter entry).
Proof.
  intros (row & -> & [(_ & Hin & Hkey)|(ty & amt & d & m & Hp)])%perform_Ok_cases Hno.
  - by destruct (Hno row Hin).
  - apply Engine.process_transaction_Ok in Hp
      as (u & nb & Hu & _ & -> & _ & _ & _ & ->).
    unfold WalletService.getUserBalance, UserRepository.getUserBalance. simpl.
    by rewrite lookup_insert_eq.
Qed.

(** Alice wagers 10.00 out of 50.25. *)
Lemma balance_read_after_operation_witness :
  ∃ entry w',
    perform (clock 1700000000000) (at_time 102 1002)
      (wager_op 1 (cents 1000) (Some "slots") None) (fresh_world two_accounts)
    = (Ok entry, w') ∧
    no_entry two_accounts "wager_0b5c_1700000000000" ∧
    WalletService.getUserBalance 1 (store w') = Ok (Transaction.balanceAfter entry).
Proof.
  destruct (perform (clock 1700000000000) (at_time 102 1002)
              (wager_op 1 (cents 1000) (Some "slots") None) (fresh_world two_accounts))
    as [[entry|e] w'] eqn:H; [|by vm_compute in H].
  assert (no_entry two_accounts "wager_0b5c_1700000000000") as Hno.
  { intros r Hin. by apply not_elem_of_nil in Hin. }
  exists entry, w'. split; [done|]. split; [exact Hno|].
  exact (balance_read_after_operation _ _ _ _ _ _ H Hno).
Defined.

Lemma find_by_id rows r :
  NoDup (tx_id <$> rows) → r ∈ rows →
  List.find (λ r', N.eqb (tx_id r') (tx_id r)) rows = Some r.
Proof.
  induction rows as [|r0 rows IH]; intros Hnd Hin; [by apply not_elem_of_nil in Hin|].
  rewrite fmap_cons in Hnd. apply NoDup_cons in Hnd as [Hfresh Hnd]. simpl.
  destruct (N.eqb_spec (tx_id r0) (tx_id r)) as [Heq|Hne].
  - apply elem_of_cons in Hin as [->|Hin]; [done|].
    destruct Hfresh. rewrite Heq. apply list_elem_of_fmap. by exists r.
  - apply elem_of_cons in Hin as [->|Hin]; [done|]. by apply IH.
Qed.

(** An entry an operation has returned is found again by its [id]:
    [getTransaction] returns the same stored entry, with the [processedAt]
    of the new read.  The ledger the operation ran on has no two entries
    of one [id] (the primary key). *)
Theorem entry_found_by_id rt rt' gen o w entry w' :
  perform rt gen o w = (Ok entry, w') →
  NoDup (tx_id <$> transactions (store w)) →
  ∃ row,
    entry = convertNumericFields (new_Date rt 0) row ∧
    WalletService.getTransaction rt' (Transaction.id entry) (store w')
    = Some (convertNumericFields (new_Date rt' 0) row).
Proof.
  intros (row & -> & [(-> & Hin & _)|(ty & amt & d & m & Hp)])%perform_Ok_cases Hnd;
    exists row; (split; [done|]);
    unfold WalletService.getTransaction, TransactionRepository.getTransactionById;
    simpl.
  - by rewrite (find_by_id _ _ Hnd Hin).
  - apply Engine.process_transaction_Ok in Hp
      as (u & nb & Hu & _ & Hrow & _ & Huniq & _ & ->). simpl.
    apply Ledger.transactions_unique_Ok in Huniq as [Hid _].
    rewrite (find_by_id (transactions (store w) ++ [row]) row); [done| |].
    + rewrite fmap_app. by apply Ledger.NoDup_snoc.
    + apply elem_of_app. right. by apply list_elem_of_singleton.
Qed.

(** Alice is credited 100.50 under "k1" and looks the entry up. *)
Lemma entry_found_by_id_witness :
  ∃ entry w',
    perform (clock 1001) (at_time 100 1000) (credit_op 1 (request "k1" 10050))
      (fresh_world two_accounts)
    = (Ok entry, w') ∧
    NoDup (tx_id <$> transactions two_accounts) ∧
    ∃ row,
      entry = convertNumericFields (new_Date (clock 1001) 0) row ∧
      WalletService.getTransaction (clock 5000) (Transaction.id entry) (store w')
      = Some (convertNumericFields (new_Date (clock 5000) 0) row).
Proof.
  destruct (perform (clock 1001) (at_time 100 1000) (credit_op 1 (request "k1" 10050))
              (fresh_world two_accounts))
    as [[entry|e] w'] eqn:H; [|by vm_compute in H].
  assert (NoDup (tx_id <$> transactions two_accounts)) as Hnd by apply NoDup_nil_2.
  exists entry, w'. split; [done|]. split; [exact Hnd|].
  exact (entry_found_by_id _ (clock 5000) _ _ _ _ _ H Hnd).
Defined.

(** What [getTransactions] returns when the database accepts the query. *)
Lemma getTransactions_Ok rt scan q r :
  getTransactions rt scan q = Ok r →
  ∃ key,
    order_by_column (snake_case (default "processedAt" (sortBy q))) = Ok key ∧
    0 ≤ default 20 (limit q) ∧
    0 ≤ (default 1 (page q) - 1) * default 20 (limit q) ∧
    r = {| data :=
             imap (λ i row, convertNumericFields (new_Date rt i) row)
               (take (Z.to_nat (default 20 (limit q)))
                  (drop (Z.to_nat ((default 1 (page q) - 1) * default 20 (limit q)))
                     (merge_sort (in_order key (default desc (sortOrder q)))
                        (List.filter (where_clause q) scan))));
           pagination_page := default 1 (page q);
           pagination_limit := default 20 (limit q);
           total := Z.of_nat (length (List.filter (where_clause q) scan));
           pages :=
             if default 20 (limit q) =? 0 then None
             else Some ((Z.of_nat (length (List.filter (where_clause q) scan))
                         + default 20 (limit q) - 1) / default 20 (limit q)) |}.
Proof.
  unfold getTransactions.
  destruct (order_by_column _) as [key|] eqn:Hkey; simpl; [|done].
  destruct (Z.ltb_spec (default 20 (limit q)) 0); [done|].
  destruct (Z.ltb_spec ((default 1 (page q) - 1) * default 20 (limit q)) 0); [done|].
  intros [= <-]. by exists key.
Qed.

(** [getUserTransactions] of [WalletService] answers for active accounts
    alone, and every entry it returns belongs to the account asked for,
    whatever [userId] the query itself names. *)
Theorem own_transactions_only rt scan uid q db r :
  WalletService.getUserTransactions rt scan uid q db = Ok r →
  (∃ u, users db !! uid = Some u ∧ status u = active) ∧
  Forall (λ e, Transaction.userId e = uid) (data r).
Proof.
  unfold WalletService.getUserTransactions, WalletService.validated.
  rewrite Service.validateUserExists_run. simpl.
  destruct (users db !! uid) as [u|]; simpl; [|done].
  destruct (decide (status u = active)) as [Hact|]; simpl; [|done].
  destruct (getUserTransactions rt scan uid q) as [r'|] eqn:Hq; [|done].
  intros [= ->]. split; [by exists u|].
  apply getTransactions_Ok in Hq as (key & _ & _ & _ & ->). simpl.
  apply Forall_forall. intros e (i & He)%list_elem_of_lookup_1.
  rewrite list_lookup_imap in He.
  destruct (take _ _ !! i) as [row|] eqn:Hrow; [|done]. injection He as <-. simpl.
  apply list_elem_of_lookup_2 in Hrow.
  apply (subseteq_take _ _ row) in Hrow.
  apply (subseteq_drop _ _ row) in Hrow.
  rewrite merge_sort_Permutation in Hrow.
  apply list_elem_of_In, filter_In in Hrow as [_ Hwhere].
  unfold where_clause in Hwhere. simpl in Hwhere.
  apply andb_prop in Hwhere as [Hwhere _]. apply andb_prop in Hwhere as [Hwhere _].
  apply andb_prop in Hwhere as [Hwhere _]. by apply N.eqb_eq.
Qed.

(** Alice's transactions are asked for, out of rows that hold two debits
    of Bob as well. *)
Lemma own_transactions_only_witness :
  ∃ r,
    WalletService.getUserTransactions (clock 9000) [debit_a; credit_k1; debit_b] 1
      by_amount after_credit_k1 = Ok r ∧
    (∃ u, users after_credit_k1 !! 1%N = Some u ∧ status u = active) ∧
    Forall (λ e, Transaction.userId e = 1%N) (data r).
Proof.
  eexists. split; [vm_compute; reflexivity|].
  apply (own_transactions_only (clock 9000) [debit_a; credit_k1; debit_b] 1
           by_amount after_credit_k1).
  vm_compute; reflexivity.
Defined.

(** An account that is not active can read its balance, but neither its
    transactions nor its statistics: these throw 'User account is ...'. *)
Theorem reads_of_an_inactive_account rt scan uid q db u :
  users db !! uid = Some u →
  status u ≠ active →
  WalletService.getUserBalance uid db = Ok (balance u) ∧
  WalletService.getUserTransactions rt scan uid q db
  = Err (service_threw (User_account_is (status u))) ∧
  WalletService.getTransactionStats (Some uid) db
  = Err (service_threw (User_account_is (status u))).
Proof.
  intros Hu Hst.
  unfold WalletService.getUserBalance, UserRepository.getUserBalance,
    WalletService.getUserTransactions, WalletService.getTransactionStats,
    WalletService.validated.
  simpl. rewrite Service.validateUserExists_run. simpl. rewrite Hu. simpl.
  destruct (decide (status u = active)); done.
Qed.

(** Bob is suspended and holds 100.00. *)
Lemma reads_of_an_inactive_account_witness :
  users two_accounts !! 2%N = Some bob ∧
  status bob ≠ active ∧
  WalletService.getUserBalance 2 two_accounts = Ok (balance bob) ∧
  WalletService.getUserTransactions (clock 9000) [] 2 by_amount two_accounts
  = Err (service_threw (User_account_is (status bob))) ∧
  WalletService.getTransactionStats (Some 2%N) two_accounts
  = Err (service_threw (User_account_is (status bob))).
Proof.
  assert (users two_accounts !! 2%N = Some bob) as Hu by (vm_compute; reflexivity).
  assert (status bob ≠ active) as Hst by discriminate.
  split; [exact Hu|]. split; [exact Hst|].
  exact (reads_of_an_inactive_account (clock 9000) [] 2 by_amount two_accounts bob
           Hu Hst).
Defined.

(** The rows a query selects, in the order the database sorts them in. *)
Lemma sorted_length key o rows :
  length (merge_sort (in_order key o) rows) = length rows.
Proof. apply Permutation_length, merge_sort_Permutation. Qed.

Lemma filter_Permutation {A} (f : A → bool) (l l' : list A) :
  l ≡ₚ l' → List.filter f l ≡ₚ List.filter f l'.
Proof.
  induction 1 as [|x l l' _ IH|x y l|l l' l'' _ IH1 _ IH2]; simpl.
  - done.
  - destruct (f x); [by constructor|done].
  - destruct (f x), (f y); (done || by constructor).
  - by etrans.
Qed.

(** Rows no two of which compare as equal have one sorted order. *)
Lemma sorted_unique {A} (R : relation A) (l1 l2 : list A) :
  (∀ x y, x ∈ l1 → y ∈ l1 → R x y → R y x → x = y) →
  StronglySorted R l1 → StronglySorted R l2 → l1 ≡ₚ l2 → l1 = l2.
Proof.
  revert l2. induction l1 as [|x l1 IH]; intros l2 Hanti Hs1 Hs2 Hperm.
  - by apply Permutation_nil_l in Hperm.
  - destruct l2 as [|y l2]; [by apply Permutation_nil_r in Hperm|].
    apply StronglySorted_inv in Hs1 as [Hs1 Hx].
    apply StronglySorted_inv in Hs2 as [Hs2 Hy].
    assert (x = y) as <-.
    { assert (x ∈ y :: l2) as [->|Hin]%elem_of_cons by (rewrite <- Hperm; left);
        [done|].
      assert (y ∈ x :: l1) as [->|Hin']%elem_of_cons by (rewrite Hperm; left);
        [done|].
      rewrite Forall_forall in Hx, Hy.
      apply Hanti; [left|by right|by apply Hx|by apply Hy]. }
    f_equal. apply IH; [|done|done|by eapply Permutation_cons_inv].
    intros a b Ha Hb. apply Hanti; by right.
Qed.

(** When no two of the rows a query selects have the same sort key, its
    pages are slices of one sorted list, in whatever order the query for
    each page meets the rows: the row at place [i] of the sorted
    selection is on page [i / limit + 1], at place [i mod limit], and no
    page is longer than [limit]. *)
Theorem every_row_has_its_page rt scan scan' q key i row :
  scan' ≡ₚ scan →
  (∀ r1 r2, r1 ∈ scan → r2 ∈ scan →
     where_clause q r1 = true → where_clause q r2 = true →
     key r1 = key r2 → r1 = r2) →
  0 < default 20 (limit q) →
  order_by_column (snake_case (default "processedAt" (sortBy q))) = Ok key →
  merge_sort (in_order key (default desc (sortOrder q)))
    (List.filter (where_clause q) scan) !! i = Some row →
  ∃ r,
    getTransactions rt scan' (on_page (Z.of_nat i / default 20 (limit q) + 1) q) = Ok r ∧
    data r !! Z.to_nat (Z.of_nat i `mod` default 20 (limit q))
    = Some (convertNumericFields
              (new_Date rt (Z.to_nat (Z.of_nat i `mod` default 20 (limit q)))) row) ∧
    (length (data r) ≤ Z.to_nat (default 20%Z (limit q)))%nat.
Proof.
  intros Hperm Hdistinct Hsize Hkey Hrow. set (size := default 20 (limit q)) in *.
  set (o := default desc (sortOrder q)) in *.
  assert (merge_sort (in_order key o) (List.filter (where_clause q) scan')
          = merge_sort (in_order key o) (List.filter (where_clause q) scan)) as Hsame.
  { assert (Transitive (in_order key o)) by (intros a b c; destruct o; simpl; lia).
    assert (Total (in_order key o)) by (intros a b; destruct o; simpl; lia).
    apply sorted_unique with (in_order key o).
    - intros x y Hx Hy Hxy Hyx. rewrite merge_sort_Permutation in Hx, Hy.
      apply list_elem_of_In, filter_In in Hx as [Hx Hfx].
      apply list_elem_of_In, filter_In in Hy as [Hy Hfy].
      apply Hdistinct; [rewrite <- Hperm; by apply list_elem_of_In ..|done|done|].
      destruct o; simpl in *; lia.
    - by apply StronglySorted_merge_sort.
    - by apply StronglySorted_merge_sort.
    - rewrite !merge_sort_Permutation. by apply filter_Permutation. }
  pose proof (Z.div_pos (Z.of_nat i) size ltac:(lia) Hsize) as Hdiv.
  pose proof (Z.mod_pos_bound (Z.of_nat i) size Hsize) as Hmod.
  pose proof (Z.div_mod (Z.of_nat i) size ltac:(lia)) as Hi.
  unfold getTransactions, on_page. simpl. rewrite Hkey. simpl. fold size. fold o.
  replace (Z.of_nat i / size + 1 - 1) with (Z.of_nat i / size) by lia.
  destruct (Z.ltb_spec size 0); [lia|].
  destruct (Z.ltb_spec (Z.of_nat i / size * size) 0); [nia|].
  eexists. split; [done|]. simpl. split.
  - rewrite list_lookup_imap, lookup_take_lt by lia. rewrite lookup_drop.
    replace (Z.to_nat (Z.of_nat i / size * size) + Z.to_nat (Z.of_nat i `mod` size))%nat
      with i by lia.
    unfold where_clause in *. simpl. simpl in Hsame. by rewrite Hsame, Hrow.
  - rewrite length_imap, length_take. lia.
Qed.

(** Three entries sorted by id, two to a page, that the query for the
    second page meets in another order: the third is alone on page 2. *)
Lemma every_row_has_its_page_witness :
  ∃ r,
    getTransactions (clock 9000) [debit_b; credit_k1; debit_a]
      (on_page (Z.of_nat 2 / default 20 (limit two_by_id) + 1) two_by_id)
    = Ok r ∧
    data r !! Z.to_nat (Z.of_nat 2 `mod` default 20 (limit two_by_id))
    = Some (convertNumericFields
              (new_Date (clock 9000)
                 (Z.to_nat (Z.of_nat 2 `mod` default 20 (limit two_by_id))))
              credit_k1) ∧
    (length (data r) ≤ Z.to_nat (default 20%Z (limit two_by_id)))%nat.
Proof.
  apply (every_row_has_its_page (clock 9000) [debit_a; credit_k1; debit_b]
           [debit_b; credit_k1; debit_a] two_by_id (λ r, Z.of_N (tx_id r)) 2 credit_k1).
  - by rewrite (Permutation_swap debit_b credit_k1), (Permutation_swap debit_b debit_a),
      (Permutation_swap credit_k1 debit_a).
  - intros r1 r2 Hr1 Hr2 _ _.
    repeat (apply elem_of_cons in Hr1 as [->|Hr1]);
      repeat (apply elem_of_cons in Hr2 as [->|Hr2]);
      try (by apply not_elem_of_nil in Hr1); try (by apply not_elem_of_nil in Hr2);
      vm_compute; congruence.
  - vm_compute; reflexivity.
  - vm_compute; reflexivity.
  - vm_compute; reflexivity.
Defined.

(** What a page holds and what the response says of the pages: no more
    entries than [limit]; [total] counts the rows the filters select;
    [pages] is [total / limit] rounded up; a page past the last is empty;
    and with [limit] 0 the response has no entries and no number of pages
    ([Math.ceil(total / 0)]). *)
Theorem page_bounds rt scan q r :
  getTransactions rt scan q = Ok r →
  (length (data r) ≤ Z.to_nat (pagination_limit r))%nat ∧
  total r = Z.of_nat (length (List.filter (where_clause q) scan)) ∧
  (∀ n, pages r = Some n →
     total r ≤ n * pagination_limit r < total r + pagination_limit r ∧
     (n < pagination_page r → data r = [])) ∧
  (pagination_limit r = 0 → data r = [] ∧ pages r = None).
Proof.
  intros (key & _ & Hlimit & Hoffset & ->)%getTransactions_Ok. simpl.
  set (size := default 20 (limit q)) in *.
  set (selected := List.filter (where_clause q) scan) in *.
  split; [rewrite length_imap, length_take; lia|]. split; [done|]. split.
  - intros n. destruct (Z.eqb_spec size 0) as [|Hnz]; [done|]. intros [= <-].
    assert (0 < size) as Hpos by lia.
    pose proof (Z.div_mod (Z.of_nat (length selected) + size - 1) size ltac:(lia)) as Hd.
    pose proof (Z.mod_pos_bound (Z.of_nat (length selected) + size - 1) size Hpos) as Hm.
    split; [lia|]. intros Hpast.
    rewrite drop_ge; [by rewrite take_nil|]. rewrite sorted_length. nia.
  - intros Hz. rewrite Hz. simpl. done.
Qed.

Lemma page_bounds_witness :
  ∃ r,
    getTransactions (clock 9000) [debit_a; credit_k1; debit_b] two_to_a_page = Ok r ∧
    (length (data r) ≤ Z.to_nat (pagination_limit r))%nat ∧
    total r
    = Z.of_nat (length (List.filter (where_clause two_to_a_page)
                          [debit_a; credit_k1; debit_b])) ∧
    (∀ n, pages r = Some n →
       total r ≤ n * pagination_limit r < total r + pagination_limit r ∧
       (n < pagination_page r → data r = [])) ∧
    (pagination_limit r = 0 → data r = [] ∧ pages r = None).
Proof.
  eexists. split; [vm_compute; reflexivity|].
  apply (page_bounds (clock 9000) [debit_a; credit_k1; debit_b] two_to_a_page).
  vm_compute; reflexivity.
Defined.

End Reads.

(** ** Amounts as JavaScript prints them *)

Module Amounts.

Lemma chars_app s1 s2 :
  String.list_ascii_of_string (s1 +:+ s2)
  = String.list_ascii_of_string s1 ++ String.list_ascii_of_string s2.
Proof. induction s1 as [|c s1 IH]; simpl; [done|by f_equal]. Qed.

Lemma pretty_N_char_no_point d : pretty_N_char d ≠ "."%char.
Proof. unfold pretty_N_char. by repeat case_match. Qed.

Lemma pretty_N_char_zero d : (d < 10)%N → pretty_N_char d = "0"%char ↔ d = 0%N.
Proof.
  intros Hd. split; [|by intros ->].
  intros H. by apply (pretty_N_char_inj d 0) in H.
Qed.

Lemma append_assoc s1 s2 s3 : (s1 +:+ s2) +:+ s3 = s1 +:+ (s2 +:+ s3).
Proof.
  induction s1 as [|c s1 IH]; [done|].
  change (String c ((s1 +:+ s2) +:+ s3) = String c (s1 +:+ (s2 +:+ s3))).
  by rewrite IH.
Qed.

Lemma pretty_N_go_app x s : pretty_N_go x s = pretty_N_go x "" +:+ s.
Proof.
  revert s. induction (N.lt_wf_0 x) as [x _ IH]; intros s.
  destruct (decide (x = 0)%N) as [->|Hx]; [by rewrite !pretty_N_go_0|].
  rewrite !(pretty_N_go_step x) by lia.
  rewrite (IH (x `div` 10)%N) by (apply N.div_lt; lia).
  rewrite (IH (x `div` 10)%N ltac:(apply N.div_lt; lia) (String _ "")).
  by rewrite append_assoc.
Qed.

(** The digits of a positive number: those of its tenth, if there is
    one, and its last digit. *)
Lemma pretty_digits (n : N) :
  (0 < n)%N →
  String.list_ascii_of_string (pretty n)
  = (if decide (n < 10)%N then []
     else String.list_ascii_of_string (pretty (n `div` 10)%N))
    ++ [pretty_N_char (n `mod` 10)].
Proof.
  intros Hn. unfold pretty, pretty_N.
  destruct (decide (n = 0)%N); [lia|].
  rewrite pretty_N_go_step, pretty_N_go_app, chars_app by done. simpl. f_equal.
  destruct (decide (n < 10)%N) as [Hlt|Hge].
  - rewrite N.div_small by done. by rewrite pretty_N_go_0.
  - destruct (decide (n `div` 10 = 0)%N) as [Hz|]; [|done].
    apply N.div_small_iff in Hz; lia.
Qed.

Lemma pretty_no_point (n : N) : "."%char ∉ String.list_ascii_of_string (pretty n).
Proof.
  induction (N.lt_wf_0 n) as [n _ IH].
  destruct (decide (n = 0)%N) as [->|Hn].
  { intros [H|H]%elem_of_cons; [done|by apply not_elem_of_nil in H]. }
  rewrite pretty_digits by lia.
  intros [H|H]%elem_of_app.
  - destruct (decide (n < 10)%N); [by apply not_elem_of_nil in H|].
    revert H. apply IH, N.div_lt; lia.
  - apply list_elem_of_singleton in H. by destruct (pretty_N_char_no_point (n `mod` 10)).
Qed.

(** The number of digits, against the size of the number. *)
Lemma pretty_length_le (m : nat) (n : N) :
  (0 < m)%nat → (n < 10 ^ N.of_nat m)%N →
  (length (String.list_ascii_of_string (pretty n)) ≤ m)%nat.
Proof.
  revert n. induction m as [|m IH]; intros n Hm Hn; [lia|].
  destruct (decide (n = 0)%N) as [->|Hpos]; [simpl; lia|].
  rewrite pretty_digits, length_app by lia. simpl.
  destruct (decide (n < 10)%N); [simpl; lia|].
  assert (0 < m)%nat.
  { destruct m; [|lia]. simpl in Hn. lia. }
  assert (n `div` 10 < 10 ^ N.of_nat m)%N.
  { apply N.Div0.div_lt_upper_bound.
    replace (N.of_nat (S m)) with (N.succ (N.of_nat m)) in Hn by lia.
    by rewrite N.pow_succ_r' in Hn. }
  specialize (IH (n `div` 10)%N). lia.
Qed.

Lemma pretty_length_gt (m : nat) (n : N) :
  (10 ^ N.of_nat m ≤ n)%N →
  (m < length (String.list_ascii_of_string (pretty n)))%nat.
Proof.
  revert n. induction m as [|m IH]; intros n Hn.
  - simpl in Hn. rewrite pretty_digits, length_app by lia. simpl. lia.
  - replace (N.of_nat (S m)) with (N.succ (N.of_nat m)) in Hn by lia.
    rewrite N.pow_succ_r' in Hn.
    assert (1 ≤ 10 ^ N.of_nat m)%N by (apply N.neq_0_le_1, N.pow_nonzero; lia).
    rewrite pretty_digits, length_app by lia. simpl.
    destruct (decide (n < 10)%N); [lia|].
    assert (10 ^ N.of_nat m ≤ n `div` 10)%N.
    { apply N.div_le_lower_bound; lia. }
    specialize (IH (n `div` 10)%N). lia.
Qed.

Lemma leading_zeros_le l : (leading_zeros l ≤ length l)%nat.
Proof.
  induction l as [|c l IH]; simpl; [lia|]. destruct (Ascii.eqb c "0"); lia.
Qed.

Lemma trailing_zeros_le l : (trailing_zeros l ≤ length l)%nat.
Proof.
  unfold trailing_zeros. rewrite <- (length_reverse l). apply leading_zeros_le.
Qed.

Lemma trailing_zeros_snoc l c :
  trailing_zeros (l ++ [c])
  = if Ascii.eqb c "0" then S (trailing_zeros l) else 0%nat.
Proof. unfold trailing_zeros. by rewrite reverse_snoc. Qed.

(** The zeros at the end of the digits of [n] count the powers of ten
    that divide it. *)
Lemma trailing_zeros_divide (t : nat) (n : N) :
  (0 < n)%N →
  (t ≤ trailing_zeros (String.list_ascii_of_string (pretty n)))%nat
  ↔ (n `mod` 10 ^ N.of_nat t = 0)%N.
Proof.
  revert n. induction t as [|t IH]; intros n Hn.
  { simpl. rewrite N.mod_1_r. split; [done|lia]. }
  rewrite pretty_digits, trailing_zeros_snoc by done.
  replace (N.of_nat (S t)) with (N.succ (N.of_nat t)) by lia.
  rewrite N.pow_succ_r'.
  assert (n `mod` 10 < 10)%N as Hlt by (apply N.mod_lt; lia).
  pose proof (N.div_mod n 10 ltac:(lia)) as Hdm.
  assert (10 ^ N.of_nat t ≠ 0)%N as Hpow by (apply N.pow_nonzero; lia).
  destruct (Ascii.eqb_spec (pretty_N_char (n `mod` 10)) "0") as [Hz|Hnz].
  - apply pretty_N_char_zero in Hz; [|done].
    destruct (decide (n < 10)%N) as [|Hge]; [rewrite N.mod_small in Hz by done; lia|].
    assert (0 < n `div` 10)%N as Hq by (apply N.div_str_pos; lia).
    rewrite <- Nat.succ_le_mono, (IH _ Hq).
    rewrite Hz, N.add_0_r in Hdm. rewrite Hdm at 2.
    rewrite N.Div0.mul_mod_distr_l. lia.
  - split; [lia|]. intros Hmod. destruct Hnz.
    apply pretty_N_char_zero; [done|].
    rewrite (N.Div0.mod_mul_r n 10 (10 ^ N.of_nat t)) in Hmod.
    by apply N.eq_add_0 in Hmod as [H _].
Qed.

Lemma past_point_no_point l : "."%char ∉ l → past_point l = [].
Proof.
  induction l as [|c l IH]; [done|]. intros Hl. simpl.
  destruct (Ascii.eqb_spec c "."); [subst; destruct Hl; left|].
  apply IH. intros H. apply Hl. by right.
Qed.

Lemma up_to_point_no_point l : "."%char ∉ l → up_to_point l = l.
Proof.
  induction l as [|c l IH]; [done|]. intros Hl. simpl.
  destruct (Ascii.eqb_spec c "."); [subst; destruct Hl; left|].
  f_equal. apply IH. intros H. apply Hl. by right.
Qed.

Lemma past_point_at l1 l2 : "."%char ∉ l1 → past_point (l1 ++ "."%char :: l2) = l2.
Proof.
  induction l1 as [|c l1 IH]; [done|]. intros Hl. simpl.
  destruct (Ascii.eqb_spec c "."); [subst; destruct Hl; left|].
  apply IH. intros H. apply Hl. by right.
Qed.

(** In positional notation, for [1e-6 <= amount < 1e21], the decimals
    JavaScript prints are the places of the amount less the zeros at the
    end of its digits. *)
Lemma decimalPlaces_positional x :
  0 < digits x →
  -6 < Z.of_nat (length (String.list_ascii_of_string
                           (pretty (Z.to_N (Z.abs (digits x))))))
       - Z.of_nat (places x) ≤ 21 →
  decimalPlaces x
  = (places x - trailing_zeros (String.list_ascii_of_string
                                  (pretty (Z.to_N (Z.abs (digits x))))))%nat.
Proof.
  intros Hpos Hrange. unfold decimalPlaces, after_point, toString.
  destruct (Z.eqb_spec (digits x) 0); [lia|].
  destruct (Z.ltb_spec (digits x) 0); [lia|].
  rewrite String.list_ascii_of_string_of_list_ascii.
  set (all := String.list_ascii_of_string (pretty (Z.to_N (Z.abs (digits x))))) in *.
  pose proof (trailing_zeros_le all) as Hz.
  set (z := trailing_zeros all) in *.
  set (sig := take (length all - z) all).
  assert (length sig = (length all - z)%nat) as Hk.
  { unfold sig. rewrite length_take. lia. }
  assert ("."%char ∉ all) as Hall by apply pretty_no_point.
  assert ("."%char ∉ sig) as Hsig.
  { intros Hin. apply Hall. by apply (subseteq_take _ _ _ Hin). }
  rewrite Hk. simpl.
  destruct (Z.leb_spec (Z.of_nat (length all - z))
              (Z.of_nat (length all - z) + Z.of_nat z - Z.of_nat (places x)));
    [destruct (Z.leb_spec (Z.of_nat (length all - z) + Z.of_nat z - Z.of_nat (places x))
                 21); [|lia]|]; simpl.
  - rewrite past_point_no_point; [simpl; lia|].
    intros [Hin|Hin]%elem_of_app; [done|]. by apply elem_of_replicate_inv in Hin.
  - destruct (Z.ltb_spec 0
                (Z.of_nat (length all - z) + Z.of_nat z - Z.of_nat (places x)));
      [destruct (Z.leb_spec
                   (Z.of_nat (length all - z) + Z.of_nat z - Z.of_nat (places x)) 21);
       [|lia]|]; simpl.
    + rewrite past_point_at.
      * rewrite up_to_point_no_point.
        -- rewrite length_drop, Hk. lia.
        -- intros Hin. apply Hsig. by apply (subseteq_drop _ _ _ Hin).
      * intros Hin. apply Hsig. by apply (subseteq_take _ _ _ Hin).
    + destruct (Z.ltb_spec (-6)
                  (Z.of_nat (length all - z) + Z.of_nat z - Z.of_nat (places x)));
        [|lia].
      destruct (Z.leb_spec
                  (Z.of_nat (length all - z) + Z.of_nat z - Z.of_nat (places x)) 0);
        [|lia]. simpl.
      rewrite up_to_point_no_point.
      * rewrite length_app, length_replicate, Hk. lia.
      * intros [Hin|Hin]%elem_of_app; [|done]. by apply elem_of_replicate_inv in Hin.
Qed.

Lemma pow10_N_Z (m : nat) : Z.of_N (10 ^ N.of_nat m) = 10 ^ Z.of_nat m.
Proof. by rewrite N2Z.inj_pow, nat_N_Z. Qed.

Lemma digits_length_le (m : nat) (d : Z) :
  (0 < m)%nat → 0 ≤ d → d < 10 ^ Z.of_nat m →
  (length (String.list_ascii_of_string (pretty (Z.to_N d))) ≤ m)%nat.
Proof.
  intros Hm Hd Hlt. apply pretty_length_le; [done|].
  apply N2Z.inj_lt. rewrite pow10_N_Z, Z2N.id by done. done.
Qed.

Lemma digits_length_gt (m : nat) (d : Z) :
  10 ^ Z.of_nat m ≤ d →
  (m < length (String.list_ascii_of_string (pretty (Z.to_N d))))%nat.
Proof.
  intros Hle. assert (0 < 10 ^ Z.of_nat m) by (apply Z.pow_pos_nonneg; lia).
  apply pretty_length_gt. apply N2Z.inj_le. rewrite pow10_N_Z, Z2N.id by lia. done.
Qed.

Lemma digits_divide (t : nat) (d : Z) :
  0 < d →
  (t ≤ trailing_zeros (String.list_ascii_of_string (pretty (Z.to_N d))))%nat
  ↔ d `mod` 10 ^ Z.of_nat t = 0.
Proof.
  intros Hd. rewrite trailing_zeros_divide by lia.
  rewrite <- (Z2N.id d) at 2 by lia.
  rewrite <- pow10_N_Z, <- N2Z.inj_mod. split; [by intros ->|lia].
Qed.

(** [validateAmount] lets every positive amount of whole cents pass that
    a [DECIMAL(15, 2)] holds. *)
Lemma validateAmount_cents c (w : world) :
  0 < c → c < decimal_15_2_limit → validateAmount (cents c) w = (Ok tt, w).
Proof.
  intros Hpos Hfit. unfold validateAmount.
  destruct (Z.leb_spec (digits (cents c)) 0) as [Hle|_]; [simpl in Hle; lia|].
  rewrite decimalPlaces_positional; simpl; [|done|].
  - destruct (Nat.ltb_spec 2 (2 - trailing_zeros
                                    (String.list_ascii_of_string
                                       (pretty (Z.to_N (Z.abs c)))))); [lia|done].
  - rewrite Z.abs_eq by lia.
    pose proof (digits_length_le 15 c ltac:(lia) ltac:(lia) Hfit). lia.
Qed.

(** For an amount JavaScript prints positionally, the decimals it prints
    are at most two exactly when the amount is a number of whole cents. *)
Lemma decimalPlaces_whole_cents x :
  0 < digits x →
  10 ^ Z.of_nat (places x) ≤ digits x * 10 ^ 6 →
  digits x < 10 ^ Z.of_nat (places x) * 10 ^ 21 →
  (decimalPlaces x ≤ 2)%nat ↔ (digits x * 100) `mod` 10 ^ Z.of_nat (places x) = 0.
Proof.
  intros Hpos Hlow Hhigh.
  assert (Z.abs (digits x) = digits x) as Habs by lia.
  set (all := String.list_ascii_of_string (pretty (Z.to_N (digits x)))).
  assert (-6 < Z.of_nat (length all) - Z.of_nat (places x) ≤ 21) as Hrange.
  { unfold all. split.
    - destruct (decide (places x ≤ 6)%nat) as [Hsmall|Hbig].
      + pose proof (digits_length_gt 0 (digits x) ltac:(simpl; lia)). lia.
      + pose proof (digits_length_gt (places x - 6) (digits x)) as Hgt.
        replace (Z.of_nat (places x)) with (Z.of_nat (places x - 6) + 6) in Hlow by lia.
        rewrite Z.pow_add_r in Hlow by lia.
        assert (0 < 10 ^ Z.of_nat (places x - 6)) by (apply Z.pow_pos_nonneg; lia).
        specialize (Hgt ltac:(nia)). lia.
    - pose proof (digits_length_le (places x + 21) (digits x) ltac:(lia) ltac:(lia))
        as Hle.
      rewrite Nat2Z.inj_add, Z.pow_add_r in Hle by lia. specialize (Hle Hhigh). lia. }
  rewrite (decimalPlaces_positional x Hpos); rewrite Habs; fold all; [|done].
  destruct (decide (places x ≤ 2)%nat) as [Hsmall|Hbig].
  - split; [intros _|lia].
    replace 100 with (10 ^ Z.of_nat (2 - places x) * 10 ^ Z.of_nat (places x)).
    + by rewrite Z.mul_assoc, Z.mod_mul by (apply Z.pow_nonzero; lia).
    + rewrite <- Z.pow_add_r by lia.
      by replace (Z.of_nat (2 - places x) + Z.of_nat (places x)) with 2 by lia.
  - pose proof (digits_divide (places x - 2) (digits x) Hpos) as Hdiv.
    fold all in Hdiv.
    replace (Z.of_nat (places x)) with (2 + Z.of_nat (places x - 2)) by lia.
    rewrite Z.pow_add_r by lia. change (10 ^ 2) with 100.
    rewrite (Z.mul_comm (digits x) 100), Z.mul_mod_distr_l;
      [|apply Z.pow_nonzero; lia|lia].
    split.
    + intros Hle.
      assert (digits x `mod` 10 ^ Z.of_nat (places x - 2) = 0) as ->
        by (apply Hdiv; lia).
      lia.
    + intros Hm.
      assert (digits x `mod` 10 ^ Z.of_nat (places x - 2) = 0) as Hzero by lia.
      apply Hdiv in Hzero. lia.
Qed.

(** [validateAmount] on an amount JavaScript prints positionally, one
    with [0.000001 <= amount < 1e21]: the amount passes exactly when it is
    a positive number of whole cents, and what is thrown otherwise is
    'Amount must have at most 2 decimal places'. *)
Theorem validateAmount_accepts_whole_cents x (w : world) :
  0 < digits x →
  10 ^ Z.of_nat (places x) ≤ digits x * 10 ^ 6 →
  digits x < 10 ^ Z.of_nat (places x) * 10 ^ 21 →
  (validateAmount x w = (Ok tt, w)
   ↔ (digits x * 100) `mod` 10 ^ Z.of_nat (places x) = 0) ∧
  (validateAmount x w ≠ (Ok tt, w) →
   validateAmount x w = (Err Amount_must_have_at_most_2_decimal_places, w)).
Proof.
  intros Hpos Hlow Hhigh.
  pose proof (decimalPlaces_whole_cents x Hpos Hlow Hhigh) as Hcents.
  unfold validateAmount.
  destruct (Z.leb_spec (digits x) 0); [lia|].
  destruct (Nat.ltb_spec 2 (decimalPlaces x)) as [Hmany|Hfew].
  - split; [|done]. split; [done|]. intros Hc%Hcents. lia.
  - split; [|done]. split; [intros _; by apply Hcents|done].
Qed.

(** 10.004 is not a number of whole cents. *)
Lemma validateAmount_accepts_whole_cents_witness :
  0 < digits {| digits := 10004; places := 3 |} ∧
  (validateAmount {| digits := 10004; places := 3 |} (fresh_world two_accounts)
   = (Ok tt, fresh_world two_accounts)
   ↔ (digits {| digits := 10004; places := 3 |} * 100)
       `mod` 10 ^ Z.of_nat (places {| digits := 10004; places := 3 |}) = 0) ∧
  (validateAmount {| digits := 10004; places := 3 |} (fresh_world two_accounts)
   ≠ (Ok tt, fresh_world two_accounts) →
   validateAmount {| digits := 10004; places := 3 |} (fresh_world two_accounts)
   = (Err Amount_must_have_at_most_2_decimal_places, fresh_world two_accounts)).
Proof.
  assert (0 < digits {| digits := 10004; places := 3 |}) as Hpos by (simpl; lia).
  split; [exact Hpos|].
  apply (validateAmount_accepts_whole_cents {| digits := 10004; places := 3 |}
           (fresh_world two_accounts) Hpos).
  - vm_compute. discriminate.
  - vm_compute. reflexivity.
Defined.

End Amounts.

(** ** Accounts *)

Module Accounts.

(** The row of a user is found by its [email], which is unique. *)
Lemma find_user_by_email db id u :
  (∀ i j ui uj,
     users db !! i = Some ui → users db !! j = Some uj → email ui = email uj → i = j) →
  users db !! id = Some u →
  find_user (λ v, String.eqb (email v) (email u)) db = Some (id, u).
Proof.
  intros Huniq Hu. unfold find_user.
  destruct (List.find _ (map_to_list (users db))) as [[j uj]|] eqn:Hfind.
  - apply find_some in Hfind as [Hin Heq]. simpl in Heq.
    apply String.eqb_eq in Heq. apply list_elem_of_In, elem_of_map_to_list in Hin.
    assert (j = id) as -> by by eapply Huniq. congruence.
  - apply find_none with (x := (id, u)) in Hfind.
    + simpl in Hfind. by rewrite String.eqb_refl in Hfind.
    + by apply list_elem_of_In, elem_of_map_to_list.
Qed.

(** [authenticateUser] for the [email] of an account.  A password that
    does not match gives [null] and writes nothing.  One that matches
    stamps [last_login] before the status is looked at: an active account
    gets its user and token, the user as it was read before the stamp; an
    account that is not active gets 'Account is ...', and the stamp
    stays. *)
Theorem authenticateUser_outcomes lib now password db id u :
  (∀ i j ui uj,
     users db !! i = Some ui → users db !! j = Some uj → email ui = email uj → i = j) →
  users db !! id = Some u →
  let stamped :=
    {| users :=
         <[id := {| username := username u; email := email u;
                    password_hash := password_hash u; balance := balance u;
                    status := status u; role := role u;
                    created_at := created_at u; updated_at := now;
                    last_login := Some now |}]> (users db);
       transactions := transactions db |} in
  (bcrypt_compare lib password (password_hash u) = false →
   UserService.authenticateUser lib now (email u) password db = (Ok None, db)) ∧
  (bcrypt_compare lib password (password_hash u) = true → status u = active →
   UserService.authenticateUser lib now (email u) password db
   = (Ok (Some (id, u, jwt_sign lib id (username u) (role u))), stamped)) ∧
  (bcrypt_compare lib password (password_hash u) = true → status u ≠ active →
   UserService.authenticateUser lib now (email u) password db
   = (Err (Account_is (status u)), stamped)).
Proof.
  intros Huniq Hu stamped.
  unfold UserService.authenticateUser, UserRepository.verifyPassword, bind.
  rewrite (find_user_by_email db id u Huniq Hu).
  split; [|split].
  - intros ->. done.
  - intros -> Hact. simpl. unfold atomically, update_last_login. rewrite Hu. simpl.
    by rewrite bool_decide_eq_true_2.
  - intros -> Hst. simpl. unfold atomically, update_last_login. rewrite Hu. simpl.
    by rewrite bool_decide_eq_false_2.
Qed.

(** Bob is suspended and logs in with the right password. *)
Lemma authenticateUser_outcomes_witness :
  (∀ i j ui uj,
     users two_accounts !! i = Some ui → users two_accounts !! j = Some uj →
     email ui = email uj → i = j) ∧
  users two_accounts !! 2%N = Some bob ∧
  ∃ db',
    UserService.authenticateUser sample_libraries 7000 (email bob) "secret" two_accounts
    = (Err (Account_is (status bob)), db') ∧
    last_login <$> users db' !! 2%N = Some (Some 7000).
Proof.
  assert (∀ i j ui uj,
            users two_accounts !! i = Some ui → users two_accounts !! j = Some uj →
            email ui = email uj → i = j) as Huniq.
  { assert (map_Forall (λ i ui, map_Forall (λ j uj, email ui = email uj → i = j)
                                  (users two_accounts)) (users two_accounts)) as Hall.
    { apply (bool_decide_unpack _). vm_compute. exact I. }
    intros i j ui uj Hi Hj. exact (Hall i ui Hi j uj Hj). }
  assert (users two_accounts !! 2%N = Some bob) as Hu by (vm_compute; reflexivity).
  split; [exact Huniq|]. split; [exact Hu|]. eexists. split.
  - exact (proj2 (proj2 (authenticateUser_outcomes sample_libraries 7000 "secret"
                           two_accounts 2 bob Huniq Hu))
             eq_refl ltac:(discriminate)).
  - vm_compute. reflexivity.
Defined.

(** What [insert_user] does for [createUser]: the balance is the default. *)
Lemma createUser_run gen hash data db :
  UserRepository.createUser gen hash data db =
  if bool_decide (is_Some (users db !! uuid_generate_v4 gen))
  then (Err (driver_error (unique_violation "users_pkey")), db)
  else if bool_decide (map_Exists (λ _ u, username u = new_username data) (users db))
  then (Err Username_already_exists, db)
  else if bool_decide (map_Exists (λ _ u, email u = new_email data) (users db))
  then (Err Email_already_exists, db)
  else
    (Ok (uuid_generate_v4 gen),
     {| users :=
          <[uuid_generate_v4 gen :=
              {| username := new_username data; email := new_email data;
                 password_hash := hash; balance := 0; status := active;
                 role := default player (new_role data);
                 created_at := current_timestamp gen;
                 updated_at := current_timestamp gen;
                 last_login := None |}]> (users db);
        transactions := transactions db |}).
Proof.
  unfold UserRepository.createUser, atomically, insert_user, bind, lift. simpl.
  repeat (case_bool_decide; simpl; [done|]). done.
Qed.

(** [createUser] against a taken name or address: 'Username already
    exists' when the [username] is taken, whether or not the [email] is
    taken too; 'Email already exists' when the [email] alone is taken.
    Nothing is written.  The [id] the database generates is new. *)
Theorem duplicate_accounts_are_refused gen hash data db :
  users db !! uuid_generate_v4 gen = None →
  ((∃ id u, users db !! id = Some u ∧ username u = new_username data) →
   UserRepository.createUser gen hash data db = (Err Username_already_exists, db)) ∧
  ((∀ id u, users db !! id = Some u → username u ≠ new_username data) →
   (∃ id u, users db !! id = Some u ∧ email u = new_email data) →
   UserRepository.createUser gen hash data db = (Err Email_already_exists, db)).
Proof.
  intros Hfresh. rewrite createUser_run.
  rewrite bool_decide_eq_false_2 by (rewrite Hfresh; by intros [? ?]).
  split.
  - intros Hname. rewrite bool_decide_eq_true_2; [done|].
    by apply map_Exists_lookup.
  - intros Hfree Hmail. rewrite bool_decide_eq_false_2.
    + rewrite bool_decide_eq_true_2; [done|]. by apply map_Exists_lookup.
    + intros (id & u & Hu & Hn)%map_Exists_lookup. by destruct (Hfree id u).
Qed.

(** Someone registers as "alice" with a new address, someone else as
    "eve" with Alice's address. *)
Lemma duplicate_accounts_are_refused_witness :
  users two_accounts !! 3%N = None ∧
  UserRepository.createUser (at_time 3 50) "$2b$"
    {| new_username := "alice"; new_email := "al@example.com"; new_password := "pw";
       new_role := None |} two_accounts
  = (Err Username_already_exists, two_accounts) ∧
  UserRepository.createUser (at_time 3 50) "$2b$"
    {| new_username := "eve"; new_email := "alice@example.com"; new_password := "pw";
       new_role := None |} two_accounts
  = (Err Email_already_exists, two_accounts).
Proof.
  assert (users two_accounts !! 3%N = None) as Hfresh by (vm_compute; reflexivity).
  split; [exact Hfresh|]. split.
  - apply (proj1 (duplicate_accounts_are_refused (at_time 3 50) "$2b$"
                    {| new_username := "alice"; new_email := "al@example.com";
                       new_password := "pw"; new_role := None |} two_accounts Hfresh)).
    exists 1%N, alice. split; [vm_compute; reflexivity|reflexivity].
  - apply (proj2 (duplicate_accounts_are_refused (at_time 3 50) "$2b$"
                    {| new_username := "eve"; new_email := "alice@example.com";
                       new_password := "pw"; new_role := None |} two_accounts Hfresh)).
    + apply (bool_decide_unpack
               (map_Forall (λ _ u, username u ≠ "eve") (users two_accounts))).
      vm_compute. exact I.
    + exists 1%N, alice. split; [vm_compute; reflexivity|reflexivity].
Defined.

(** A debit-class call for more than the balance, through
    [createTransaction]: 'Insufficient funds', and nothing written. *)
Lemma createTransaction_short rt gen uid key ty c d m w u :
  users (store w) !! uid = Some u →
  is_debit_class ty = true →
  0 ≤ balance u → 0 < c → c < decimal_15_2_limit → balance u < c →
  ∃ w', createTransaction rt gen uid key ty (cents c) d m w
        = (Err Insufficient_funds, w') ∧ store w' = store w.
Proof.
  intros Hu Hty Hbal Hpos Hfit Hshort.
  rewrite Service.createTransaction_run. simpl.
  rewrite (Engine.process_transaction_locked _ _ _ _ _ _ _ _ _ Hu). unfold atomically.
  rewrite (Engine.process_locked_raise _ _ _ _ _ _ _ _ _
             (raise_insufficient_funds (balance u) (cents c))).
  - by eexists.
  - apply Engine.compute_new_balance_short; [done|done| |lia].
    apply Engine.fits_decimal_15_2_spec. unfold decimal_15_2_limit in *. lia.
Qed.



(** An account whose [status] [updateUserStatus] has set to something
    other than 'active' keeps its balance and its entries, and each of the
    four operations on it, under a key not yet in the ledger, throws
    'User account is ...' and writes nothing. *)
Theorem suspension_blocks_operations now id s db u' db' :
  updateUserStatus now id s db = (Ok (Some u'), db') →
  s ≠ active →
  balance_of db' id = balance_of db id ∧
  transactions db' = transactions db ∧
  (∀ rt gen o log,
     operation_user o = id → no_entry db' (operation_key rt o) →
     ∃ w', perform rt gen o {| store := db'; issued := log |}
           = (Err (User_account_is s), w') ∧ store w' = db').
Proof.
  unfold updateUserStatus.
  destruct (users db !! id) as [u|] eqn:Hu; [|done]. intros [= <- Hdb] Hs.
  assert (∃ v, users db' !! id = Some v ∧ status v = s ∧ balance v = balance u)
    as (v & Hv & Hst & Hbal).
  { rewrite <- Hdb. simpl. rewrite lookup_insert_eq. by eexists. }
  assert (transactions db' = transactions db) as Htx by (by rewrite <- Hdb).
  split; [unfold balance_of; rewrite Hv, Hu; simpl; by rewrite Hbal|]. split; [done|].
  intros rt gen o log Hid Hno%Service.find_transaction_None.
  destruct o as [uid req|uid req|uid amt g md|uid amt g md];
    simpl in Hid, Hno |- *.
  1, 2: unfold creditUser, debitUser;
    rewrite (Service.credit_or_debit_new _ rt gen uid req
               {| store := db'; issued := log |} Hno).
  all: rewrite Hid.
  all: unfold processWager, processPayout, bind;
    rewrite Service.validateUserExists_run; unfold logged; cbn [store];
    rewrite Hv, Hst; simpl;
    (destruct (decide (s = active)); [done|]); by eexists.
Qed.

(** Alice is suspended after her credit, then wagers. *)
Lemma suspension_blocks_operations_witness :
  ∃ u' db',
    updateUserStatus 2000 1 suspended after_credit_k1 = (Ok (Some u'), db') ∧
    suspended ≠ active ∧
    balance_of db' 1 = balance_of after_credit_k1 1 ∧
    transactions db' = transactions after_credit_k1 ∧
    (∀ rt gen o log,
       operation_user o = 1%N → no_entry db' (operation_key rt o) →
       ∃ w', perform rt gen o {| store := db'; issued := log |}
             = (Err (User_account_is suspended), w') ∧ store w' = db').
Proof.
  destruct (updateUserStatus 2000 1 suspended after_credit_k1) as [[[u'|]|e] db'] eqn:H;
    [|by vm_compute in H..].
  assert (suspended ≠ active) as Hs by discriminate.
  exists u', db'. split; [done|]. split; [exact Hs|].
  exact (suspension_blocks_operations _ _ _ _ _ _ H Hs).
Defined.

End Accounts.

(** ** Names of columns and of members *)

Module Names.

Local Arguments camel_case : simpl never.

Lemma to_lower_to_upper l : is_lower l = true → to_lower (to_upper l) = l.
Proof.
  intros H. unfold to_lower, to_upper, is_upper, is_lower in *. rewrite H.
  apply andb_prop in H as [H1%Nat.leb_le H2%Nat.leb_le].
  rewrite nat_ascii_embedding by lia.
  destruct (Nat.leb_spec 65 (nat_of_ascii l - 32)); [|lia].
  destruct (Nat.leb_spec (nat_of_ascii l - 32) 90); [|lia]. simpl.
  replace (nat_of_ascii l - 32 + 32)%nat with (nat_of_ascii l) by lia.
  apply ascii_nat_embedding.
Qed.

Lemma is_upper_to_upper l : is_lower l = true → is_upper (to_upper l) = true.
Proof.
  intros H. unfold to_upper, is_upper, is_lower in *. rewrite H.
  apply andb_prop in H as [H1%Nat.leb_le H2%Nat.leb_le].
  rewrite nat_ascii_embedding by lia.
  apply andb_true_intro. split; apply Nat.leb_le; lia.
Qed.

Lemma to_upper_to_lower c : is_upper c = true → to_upper (to_lower c) = c.
Proof.
  intros H. unfold to_lower, to_upper, is_upper, is_lower in *. rewrite H.
  apply andb_prop in H as [H1%Nat.leb_le H2%Nat.leb_le].
  rewrite nat_ascii_embedding by lia.
  destruct (Nat.leb_spec 97 (nat_of_ascii c + 32)); [|lia].
  destruct (Nat.leb_spec (nat_of_ascii c + 32) 122); [|lia]. simpl.
  replace (nat_of_ascii c + 32 - 32)%nat with (nat_of_ascii c) by lia.
  apply ascii_nat_embedding.
Qed.

Lemma is_lower_to_lower c : is_upper c = true → is_lower (to_lower c) = true.
Proof.
  intros H. unfold to_lower, is_upper, is_lower in *. rewrite H.
  apply andb_prop in H as [H1%Nat.leb_le H2%Nat.leb_le].
  rewrite nat_ascii_embedding by lia.
  apply andb_true_intro. split; apply Nat.leb_le; lia.
Qed.

Lemma underscore_not_upper : is_upper "_" = false.
Proof. reflexivity. Qed.

(** The name of a member, as a response shows it, names the column it
    was read from when it is given as [sortBy]: [toCamelCase] on a column
    name is undone by the conversion of [sortBy], for a name in ASCII
    without capitals. *)
Theorem sortBy_names_the_column s :
  ascii_only s = true → has_upper s = false → snake_case (camel_case s) = s.
Proof.
  intros _. remember (String.length s) as n eqn:Hn. revert s Hn.
  induction n as [n IH] using lt_wf_ind. intros s Hn Hup.
  destruct s as [|c [|l rest]]; [done|..].
  - simpl in *. apply orb_false_elim in Hup as [-> _]. done.
  - simpl in Hup. apply orb_false_elim in Hup as [Hc Hup].
    apply orb_false_elim in Hup as [Hl Hup].
    change (camel_case (String c (String l rest)))
      with (if Ascii.eqb c "_" && is_lower l
            then String (to_upper l) (camel_case rest)
            else String c (camel_case (String l rest))).
    destruct (Ascii.eqb_spec c "_") as [->|Hne]; simpl.
    + destruct (is_lower l) eqn:Hlow; simpl.
      * rewrite (is_upper_to_upper l Hlow), (to_lower_to_upper l Hlow).
        do 2 f_equal. apply (IH (String.length rest)); [simpl in Hn; lia|done|done].
      * f_equal. apply (IH (String.length (String l rest))); [simpl in *; lia|done|].
        simpl. by rewrite Hl, Hup.
    + rewrite Hc. f_equal. apply (IH (String.length (String l rest)));
        [simpl in *; lia|done|]. simpl. by rewrite Hl, Hup.
Qed.

Lemma sortBy_names_the_column_witness :
  ascii_only "processed_at" = true ∧ has_upper "processed_at" = false ∧
  snake_case (camel_case "processed_at") = "processed_at".
Proof.
  split; [reflexivity|]. split; [reflexivity|].
  exact (sortBy_names_the_column "processed_at" eq_refl eq_refl).
Defined.

End Names.

(** ** What a new entry says *)

Module Entries.

(** An amount of whole cents is stored as it is. *)
Lemma round_to_cents_exact x :
  0 < digits x →
  (digits x * 100) `mod` 10 ^ Z.of_nat (places x) = 0 →
  round_to_cents x * 10 ^ Z.of_nat (places x) = digits x * 100.
Proof.
  intros Hpos Hmod. unfold round_to_cents.
  destruct (Nat.leb_spec (places x) 2) as [Hsmall|Hbig].
  - rewrite <- Z.mul_assoc, <- Z.pow_add_r by lia.
    by replace (Z.of_nat (2 - places x) + Z.of_nat (places x)) with 2 by lia.
  - set (q := 10 ^ Z.of_nat (places x - 2)).
    assert (0 < q) as Hq by (apply Z.pow_pos_nonneg; lia).
    assert (10 ^ Z.of_nat (places x) = 100 * q) as Hp.
    { unfold q. replace (Z.of_nat (places x)) with (2 + Z.of_nat (places x - 2)) by lia.
      by rewrite Z.pow_add_r by lia. }
    rewrite Hp in *.
    rewrite (Z.mul_comm (digits x) 100), Z.mul_mod_distr_l in Hmod by lia.
    assert (digits x `mod` q = 0) as Hd by lia.
    apply Z.div_exact in Hd; [|lia].
    rewrite Z.sgn_pos, Z.abs_eq by lia.
    set (m := digits x / q) in *.
    assert ((digits x + q / 2) / q = m) as ->.
    { rewrite Hd, Z.mul_comm, Z.div_add_l by lia.
      rewrite (Z.div_small (q / 2) q); [lia|].
      split; [apply Z.div_pos; lia|apply Z.div_lt; lia]. }
    lia.
Qed.

(** An amount that is stored as a positive [DECIMAL(15, 2)] is one
    JavaScript prints positionally. *)
Lemma stored_amount_is_positional x :
  0 < digits x → 0 < round_to_cents x → round_to_cents x < decimal_15_2_limit →
  10 ^ Z.of_nat (places x) ≤ digits x * 10 ^ 6 ∧
  digits x < 10 ^ Z.of_nat (places x) * 10 ^ 21.
Proof.
  intros Hpos Hlow Hhigh. unfold round_to_cents, decimal_15_2_limit in *.
  destruct (Nat.leb_spec (places x) 2) as [Hsmall|Hbig].
  - assert (places x = 0 ∨ places x = 1 ∨ places x = 2)%nat as [->|[->| ->]] by lia;
      simpl in *; lia.
  - set (q := 10 ^ Z.of_nat (places x - 2)) in *.
    assert (10 ≤ q) as Hq.
    { unfold q. replace (Z.of_nat (places x - 2)) with (1 + Z.of_nat (places x - 3)) by lia.
      rewrite Z.pow_add_r by lia.
      assert (0 < 10 ^ Z.of_nat (places x - 3)) by (apply Z.pow_pos_nonneg; lia). lia. }
    assert (10 ^ Z.of_nat (places x) = 100 * q) as Hp.
    { unfold q. replace (Z.of_nat (places x)) with (2 + Z.of_nat (places x - 2)) by lia.
      by rewrite Z.pow_add_r by lia. }
    rewrite Hp. rewrite Z.sgn_pos, Z.abs_eq, Z.mul_1_l in * by lia.
    pose proof (Z.div_mod (digits x + q / 2) q ltac:(lia)) as Hdm.
    pose proof (Z.mod_pos_bound (digits x + q / 2) q ltac:(lia)) as Hmb.
    pose proof (Z.div_mod q 2 ltac:(lia)) as Hhalf.
    pose proof (Z.mod_pos_bound q 2 ltac:(lia)) as Hhb.
    split; nia.
Qed.

(** A call that returned has stored an amount that fits its column. *)
Lemma process_transaction_amount_fits gen uid key ty amt d m db entry db' :
  process_transaction gen uid key ty amt d m db = (Ok entry, db') →
  fits_decimal_15_2 (round_to_cents amt) = true.
Proof.
  unfold process_transaction, atomically, process_transaction_body, bind at 1,
    select_balance_for_update.
  destruct (users db !! uid) as [u|]; [|done].
  unfold process_locked, bind at 1, lift.
  destruct (compute_new_balance ty (balance u) amt); [|done].
  unfold bind at 1, assign_decimal_15_2.
  by destruct (fits_decimal_15_2 (round_to_cents amt)).
Qed.

(** The entry [creditUser] or [debitUser] returns for a key that was not
    in the ledger is the request, exactly: the account, the key, the type
    of the operation, the description (or [null] for an empty one), and
    the requested amount, never a rounded one; it carries the generated
    row id and the time of the call as [processedAt].  The metadata come
    back through [toCamelCase], which renames the members at every depth:
    they are as they were sent when no member name, at any depth, has an
    underscore before a small letter. *)
Theorem new_entry_is_the_request op rt gen (uid : uuid_string) req w entry w' :
  credit_or_debit op rt gen uid req w = (Ok entry, w') →
  no_entry (store w) (transactionId req) →
  Transaction.id entry = uuid_generate_v4 gen ∧
  Transaction.userId entry = read_as uid ∧
  Transaction.transactionId entry = transactionId req ∧
  Transaction.type entry = op ∧
  Transaction.description entry = description_or_null (req_description req) ∧
  Transaction.processedAt entry = new_Date rt 0 ∧
  Transaction.amount entry * 10 ^ Z.of_nat (places (req_amount req))
  = digits (req_amount req) * 100 ∧
  Transaction.metadata entry = toCamelCase_members <$> req_metadata req ∧
  ((∀ m, req_metadata req = Some m → no_snake_names (json_obj m) = true) →
   Transaction.metadata entry = req_metadata req).
Proof.
  intros Hrun Hno%Service.find_transaction_None.
  rewrite (Service.credit_or_debit_new _ _ _ _ _ _ Hno) in Hrun.
  unfold bind at 1 in Hrun. rewrite Service.validateUserExists_run in Hrun.
  simpl in Hrun.
  destruct (users (store w) !! read_as uid) as [u|]; [|done].
  destruct (decide (status u = active)); [|done].
  unfold bind in Hrun. rewrite Service.validateAmount_run in Hrun.
  destruct (Z.leb_spec (digits (req_amount req)) 0) as [|Hpos]; [done|].
  destruct (Nat.ltb_spec 2 (decimalPlaces (req_amount req))) as [|Hfew]; [done|].
  apply Service.createTransaction_Ok in Hrun as (row & Hp & -> & _). simpl in Hp.
  pose proof (process_transaction_amount_fits _ _ _ _ _ _ _ _ _ _ Hp)
    as Hfit%Engine.fits_decimal_15_2_spec.
  apply Engine.process_transaction_Ok in Hp
    as (u' & nb & _ & _ & -> & Hchk & _ & _ & _).
  apply Engine.transactions_checks_Ok in Hchk as (_ & Hamt & _). simpl in Hamt.
  simpl. split_and!; try done.
  - destruct (stored_amount_is_positional (req_amount req)) as [Hlow Hhigh];
      [done|done|lia|].
    apply round_to_cents_exact; [done|].
    by apply Amounts.decimalPlaces_whole_cents.
  - intros Hkeys. destruct (req_metadata req) as [m|]; [|done]. simpl.
    f_equal. apply Json.toCamelCase_members_same. by apply Hkeys.
Qed.

(** Alice is credited 100.5, with metadata and an empty description. *)
Lemma new_entry_is_the_request_witness :
  ∃ entry w',
    credit_or_debit credit (clock 1001) (at_time 100 1000) 1 noted_request
      (fresh_world two_accounts) = (Ok entry, w') ∧
    no_entry (store (fresh_world two_accounts)) (transactionId noted_request) ∧
    Transaction.id entry = uuid_generate_v4 (at_time 100 1000) ∧
    Transaction.userId entry = 1%N ∧
    Transaction.transactionId entry = transactionId noted_request ∧
    Transaction.type entry = credit ∧
    Transaction.description entry = description_or_null (req_description noted_request) ∧
    Transaction.processedAt entry = new_Date (clock 1001) 0 ∧
    Transaction.amount entry * 10 ^ Z.of_nat (places (req_amount noted_request))
    = digits (req_amount noted_request) * 100 ∧
    Transaction.metadata entry = toCamelCase_members <$> req_metadata noted_request ∧
    ((∀ m, req_metadata noted_request = Some m → no_snake_names (json_obj m) = true) →
     Transaction.metadata entry = req_metadata noted_request).
Proof.
  destruct (credit_or_debit credit (clock 1001) (at_time 100 1000) 1 noted_request
              (fresh_world two_accounts)) as [[entry|e] w'] eqn:H;
    [|by vm_compute in H].
  assert (no_entry (store (fresh_world two_accounts)) (transactionId noted_request))
    as Hno.
  { intros r Hin. by apply not_elem_of_nil in Hin. }
  exists entry, w'. split; [done|]. split; [exact Hno|].
  exact (new_entry_is_the_request _ _ _ _ _ _ _ _ H Hno).
Defined.

End Entries.

(** ** The limits of the columns, and half cents *)

Module Limits.

Lemma fits_range c :
  0 ≤ c → c < decimal_15_2_limit → fits_decimal_15_2 c = true.
Proof.
  intros H1 H2. apply Engine.fits_decimal_15_2_spec. unfold decimal_15_2_limit in *. lia.
Qed.

(** A credit-class call of whole cents succeeds exactly as long as the new
    balance fits [DECIMAL(15, 2)]: when it would reach 10^13, the call
    fails with 'numeric field overflow' and writes nothing. *)
Theorem credit_up_to_the_limit gen uid key ty c d m db u :
  is_credit_class ty = true →
  users db !! uid = Some u →
  0 ≤ balance u → 0 < c → c < decimal_15_2_limit →
  (decimal_15_2_limit ≤ balance u + c →
   process_transaction gen uid key ty (cents c) d m db
   = (Err numeric_field_overflow, db)) ∧
  (balance u + c < decimal_15_2_limit → unused db gen key →
   ∃ entry db',
     process_transaction gen uid key ty (cents c) d m db = (Ok entry, db') ∧
     balance_after entry = balance u + c ∧
     balance_of db' uid = Some (balance u + c)).
Proof.
  intros Hty Hu Hbal Hpos Hfit.
  rewrite (Engine.process_transaction_locked _ _ _ _ _ _ _ _ _ Hu). unfold atomically.
  assert (compute_new_balance ty (balance u) (cents c)
          = assign_decimal_15_2 (plus (cents (balance u)) (cents c))) as Hnew
    by (destruct ty; done).
  unfold assign_decimal_15_2 in Hnew. rewrite Engine.round_plus_cents in Hnew.
  split.
  - intros Hover.
    assert (fits_decimal_15_2 (balance u + c) = false) as Hno.
    { apply not_true_is_false. intros H%Engine.fits_decimal_15_2_spec. lia. }
    rewrite Hno in Hnew.
    by rewrite (Engine.process_locked_raise _ _ _ _ _ _ _ _ _ _ Hnew).
  - intros Hunder Hfresh.
    rewrite (fits_range (balance u + c)) in Hnew by lia.
    rewrite (Engine.process_locked_succeeds _ _ _ _ _ _ _ _ _ _ _ Hnew Hu);
      [|done|by apply fits_range; lia|done|lia|done].
    eexists _, _. split; [done|]. split; [done|].
    unfold balance_of. simpl. by rewrite lookup_insert_eq.
Qed.

(** Greta holds all a [DECIMAL(15, 2)] can hold but one cent, and is
    credited one cent, then two. *)
Lemma credit_up_to_the_limit_witness :
  is_credit_class bonus = true ∧
  users full_account !! 8%N = Some greta ∧
  (decimal_15_2_limit ≤ balance greta + 2 →
   process_transaction (at_time 80 5) 8 "b2" bonus (cents 2) None None full_account
   = (Err numeric_field_overflow, full_account)) ∧
  (balance greta + 2 < decimal_15_2_limit → unused full_account (at_time 80 5) "b2" →
   ∃ entry db',
     process_transaction (at_time 80 5) 8 "b2" bonus (cents 2) None None full_account
     = (Ok entry, db') ∧
     balance_after entry = balance greta + 2 ∧
     balance_of db' 8 = Some (balance greta + 2)).
Proof.
  assert (users full_account !! 8%N = Some greta) as Hu by (vm_compute; reflexivity).
  split; [reflexivity|]. split; [exact Hu|].
  apply (credit_up_to_the_limit (at_time 80 5) 8 "b2" bonus 2 None None full_account
           greta eq_refl Hu).
  - vm_compute. discriminate.
  - lia.
  - reflexivity.
Defined.

(** [k] cents and a half, as an amount of three decimals, and how it is
    rounded: alone, taken from a balance, and added to one. *)
Lemma round_half k :
  0 ≤ k → round_to_cents {| digits := 10 * k + 5; places := 3 |} = k + 1.
Proof.
  intros Hk. unfold round_to_cents. cbn [digits places].
  change (3 <=? 2)%nat with false. cbv iota.
  change (10 ^ Z.of_nat (3 - 2)) with 10.
  rewrite Z.sgn_pos, Z.abs_eq by lia. change (10 / 2) with 5.
  replace (10 * k + 5 + 5) with ((k + 1) * 10) by lia.
  rewrite Z.div_mul by lia. lia.
Qed.

Lemma round_minus_half bal k :
  0 ≤ k → k < bal →
  round_to_cents (minus (cents bal) {| digits := 10 * k + 5; places := 3 |}) = bal - k.
Proof.
  intros Hk Hbal. unfold round_to_cents, minus, cents. cbn [digits places].
  change (2 + 3 <=? 2)%nat with false. cbv iota.
  change (10 ^ Z.of_nat (2 + 3 - 2)) with 1000.
  change (10 ^ Z.of_nat 3) with 1000. change (10 ^ Z.of_nat 2) with 100.
  rewrite Z.sgn_pos, Z.abs_eq by lia. change (1000 / 2) with 500.
  replace (bal * 1000 - (10 * k + 5) * 100 + 500) with ((bal - k) * 1000) by lia.
  rewrite Z.div_mul by lia. lia.
Qed.

Lemma round_plus_half bal k :
  0 ≤ k → 0 ≤ bal →
  round_to_cents (plus (cents bal) {| digits := 10 * k + 5; places := 3 |})
  = bal + k + 1.
Proof.
  intros Hk Hbal. unfold round_to_cents, plus, cents. cbn [digits places].
  change (2 + 3 <=? 2)%nat with false. cbv iota.
  change (10 ^ Z.of_nat (2 + 3 - 2)) with 1000.
  change (10 ^ Z.of_nat 3) with 1000. change (10 ^ Z.of_nat 2) with 100.
  rewrite Z.sgn_pos, Z.abs_eq by lia. change (1000 / 2) with 500.
  replace (bal * 1000 + (10 * k + 5) * 100 + 500) with ((bal + k + 1) * 1000) by lia.
  rewrite Z.div_mul by lia. lia.
Qed.



End Limits.

(** ** The seeding script *)

Module Seeding.

(** The seeding script funds every user twice: the user is inserted with
    its balance, and the 'initial credit' of the same amount is then added
    to it.  A user seeded with a positive balance of [c] cents ends up
    with [2 * c], and with one entry, a credit of [c] that starts from
    [c].  The name, the address and the generated ids and key are new. *)
Theorem seeding_funds_twice for_user for_entry now hash data db c :
  sample_balance data = cents c →
  0 < c → 2 * c < decimal_15_2_limit →
  users db !! uuid_generate_v4 for_user = None →
  ¬ map_Exists (λ _ u, username u = sample_username data) (users db) →
  ¬ map_Exists (λ _ u, email u = sample_email data) (users db) →
  unused db for_entry
    ("initial_credit_" +:+ uuid_text (uuid_generate_v4 for_user) +:+ "_" +:+ pretty now) →
  balance_of (seed_user for_user for_entry now hash data db) (uuid_generate_v4 for_user)
  = Some (2 * c) ∧
  ∃ entry,
    transactions (seed_user for_user for_entry now hash data db)
    = transactions db ++ [entry] ∧
    user_id entry = uuid_generate_v4 for_user ∧ tx_type entry = credit ∧
    amount entry = c ∧ balance_before entry = c ∧ balance_after entry = 2 * c.
Proof.
  intros Hbal Hpos Hfit Hid Hname Hmail Hfresh.
  unfold seed_user, atomically, insert_user, bind, lift. rewrite Hbal.
  rewrite Engine.assign_decimal_15_2_cents by (apply Limits.fits_range; lia). simpl.
  destruct (Z.leb_spec 0 c); [|lia]. simpl.
  rewrite bool_decide_eq_false_2 by (rewrite Hid; by intros [? ?]).
  rewrite !bool_decide_eq_false_2 by done.
  destruct (Z.ltb_spec 0 c); [|lia].
  set (u := {| username := sample_username data; balance := c |}).
  set (db1 := {| users := <[uuid_generate_v4 for_user := u]> (users db) |}).
  assert (users db1 !! uuid_generate_v4 for_user = Some u) as Hu
    by apply lookup_insert_eq.
  rewrite (Engine.process_transaction_locked _ _ _ _ _ _ _ _ _ Hu). unfold atomically.
  assert (compute_new_balance credit (balance u) (cents c) = Ok (2 * c)) as Hnew.
  { simpl. unfold assign_decimal_15_2. rewrite Engine.round_plus_cents.
    replace (c + c) with (2 * c) by lia.
    by rewrite Limits.fits_range by lia. }
  rewrite (Engine.process_locked_succeeds _ _ _ _ _ _ _ _ _ _ _ Hnew Hu);
    [|done|by apply Limits.fits_range; lia|simpl; lia|lia|done].
  simpl. split.
  - unfold balance_of. simpl. by rewrite lookup_insert_eq.
  - by eexists.
Qed.

(** 'johndoe' of [sampleUsers] is seeded with 1000.50. *)
Lemma seeding_funds_twice_witness :
  sample_balance johndoe = cents 100050 ∧
  balance_of (seed_user (at_time 7 10) (at_time 70 11) 1700000000000 "$2b$" johndoe
                empty_database) (uuid_generate_v4 (at_time 7 10))
  = Some (2 * 100050) ∧
  ∃ entry,
    transactions (seed_user (at_time 7 10) (at_time 70 11) 1700000000000 "$2b$" johndoe
                    empty_database)
    = transactions empty_database ++ [entry] ∧
    user_id entry = uuid_generate_v4 (at_time 7 10) ∧ tx_type entry = credit ∧
    amount entry = 100050 ∧ balance_before entry = 100050 ∧
    balance_after entry = 2 * 100050.
Proof.
  split; [reflexivity|].
  apply (seeding_funds_twice (at_time 7 10) (at_time 70 11) 1700000000000 "$2b$"
           johndoe empty_database 100050 eq_refl).
  - lia.
  - reflexivity.
  - reflexivity.
  - intros (i & u & Hu & _)%map_Exists_lookup. simpl in Hu. by rewrite lookup_empty in Hu.
  - intros (i & u & Hu & _)%map_Exists_lookup. simpl in Hu. by rewrite lookup_empty in Hu.
  - intros r Hin. by apply not_elem_of_nil in Hin.
Defined.

End Seeding.

(** ** Keys under concurrent calls *)

Module Races.

Lemma commits_recorded_start db cs : commits_recorded db (start db cs).
Proof.
  split.
  - exists []. split; [by rewrite app_nil_r|]. by intros i c r [? _]%Concurrent.start_calls.
  - by intros i j ci cj ri rj [? _]%Concurrent.start_calls.
Qed.

Lemma commits_recorded_step db i sys :
  commits_recorded db sys → commits_recorded db (step_call i sys).
Proof.
  intros [(new & Hnew & Hrec) Hinj]. unfold step_call.
  destruct (calls sys !! i) as [[c [|cur|r]]|] eqn:Hi;
    [| |by split; [exists new|]|by split; [exists new|]].
  - destruct (row_locked (calls sys) (p_user_id c)); [by split; [exists new|]|].
    destruct (select_balance_for_update (p_user_id c) (committed sys)) as [[e|cur] ?].
    + split.
      * exists new. split; [done|]. simpl.
        intros j cj rj [(_ & [=] & _)|(_ & Hj)]%list_lookup_insert_Some. by eapply Hrec.
      * simpl. intros j1 j2 c1 c2 r1 r2
          [(_ & [=] & _)|(_ & Hj1)]%list_lookup_insert_Some
          [(_ & [=] & _)|(_ & Hj2)]%list_lookup_insert_Some. by eapply Hinj.
    + split.
      * exists new. split; [done|]. simpl.
        intros j cj rj [(_ & [=] & _)|(_ & Hj)]%list_lookup_insert_Some. by eapply Hrec.
      * simpl. intros j1 j2 c1 c2 r1 r2
          [(_ & [=] & _)|(_ & Hj1)]%list_lookup_insert_Some
          [(_ & [=] & _)|(_ & Hj2)]%list_lookup_insert_Some. by eapply Hinj.
  - unfold atomically.
    destruct (process_locked _ _ _ _ _ _ _ _ (committed sys)) as [[entry|e] db'] eqn:Hp.
    + apply Engine.process_locked_Ok in Hp
        as (nb & _ & Hentry & _ & Huniq & _ & Htx & _).
      apply Ledger.transactions_unique_Ok in Huniq as [_ Hkey].
      assert (transaction_id entry = p_transaction_id c) as Hk by by rewrite Hentry.
      rewrite Hk, Hnew, fmap_app in Hkey.
      apply not_elem_of_app in Hkey as [Hold Hfresh].
      split.
      * exists (new ++ [entry]). simpl. split; [by rewrite Htx, Hnew, <- app_assoc|].
        intros j cj rj [(_ & [= <- <-] & _)|(_ & Hj)]%list_lookup_insert_Some.
        -- split; [|done]. apply elem_of_app. right. by apply list_elem_of_singleton.
        -- destruct (Hrec _ _ _ Hj) as (Hin & ? & ?). split; [|done].
           apply elem_of_app. by left.
      * simpl. intros j1 j2 c1 c2 r1 r2
          [(<- & [= <- <-] & _)|(Hn1 & Hj1)]%list_lookup_insert_Some
          [(<- & [= <- <-] & _)|(Hn2 & Hj2)]%list_lookup_insert_Some Hsame; try done.
        -- destruct (Hrec _ _ _ Hj2) as (Hin & Hk2 & _). destruct Hfresh.
           apply list_elem_of_fmap. exists r2. split; [congruence|done].
        -- destruct (Hrec _ _ _ Hj1) as (Hin & Hk1 & _). destruct Hfresh.
           apply list_elem_of_fmap. exists r1. split; [congruence|done].
        -- by eapply Hinj.
    + split.
      * exists new. split; [done|]. simpl.
        intros j cj rj [(_ & [=] & _)|(_ & Hj)]%list_lookup_insert_Some. by eapply Hrec.
      * simpl. intros j1 j2 c1 c2 r1 r2
          [(_ & [=] & _)|(_ & Hj1)]%list_lookup_insert_Some
          [(_ & [=] & _)|(_ & Hj2)]%list_lookup_insert_Some. by eapply Hinj.
Qed.

Lemma commits_recorded_run db schedule sys :
  commits_recorded db sys → commits_recorded db (run schedule sys).
Proof.
  revert sys. induction schedule as [|i schedule IH]; intros sys H; [done|].
  apply IH. by apply commits_recorded_step.
Qed.

(** A key commits once, however the calls of [process_transaction] are
    interleaved: two calls that both succeeded did not have the same key.
    The entry a successful call returned is in the committed ledger under
    the key of the call, and the ledger did not have that key when the
    calls started. *)
Theorem a_key_commits_once db cs schedule i j ci cj ri rj :
  calls (run schedule (start db cs)) !! i = Some (ci, returned (Ok ri)) →
  calls (run schedule (start db cs)) !! j = Some (cj, returned (Ok rj)) →
  i ≠ j →
  p_transaction_id ci ≠ p_transaction_id cj ∧
  ri ∈ transactions (committed (run schedule (start db cs))) ∧
  transaction_id ri = p_transaction_id ci ∧
  p_transaction_id ci ∉ transaction_id <$> transactions db.
Proof.
  intros Hi Hj Hne.
  destruct (commits_recorded_run db schedule _ (commits_recorded_start db cs))
    as [(new & Hnew & Hrec) Hinj].
  split; [intros Hsame; by destruct (Hne (Hinj _ _ _ _ _ _ Hi Hj Hsame))|].
  destruct (Hrec _ _ _ Hi) as (Hin & Hk & Hold). split; [|done].
  rewrite Hnew. apply elem_of_app. by right.
Qed.

(** Two of the five debits have moved twice each. *)
Lemma a_key_commits_once_witness :
  ∃ ri rj,
    calls (run [0; 0; 1; 1]%nat (start one_account five_debits)) !! 0%nat
    = Some (debit_call 21 "d1", returned (Ok ri)) ∧
    calls (run [0; 0; 1; 1]%nat (start one_account five_debits)) !! 1%nat
    = Some (debit_call 22 "d2", returned (Ok rj)) ∧
    p_transaction_id (debit_call 21 "d1") ≠ p_transaction_id (debit_call 22 "d2") ∧
    ri ∈ transactions (committed (run [0; 0; 1; 1]%nat (start one_account five_debits))) ∧
    transaction_id ri = p_transaction_id (debit_call 21 "d1") ∧
    p_transaction_id (debit_call 21 "d1") ∉ transaction_id <$> transactions one_account.
Proof.
  eexists _, _. split; [vm_compute; reflexivity|]. split; [vm_compute; reflexivity|].
  eapply (a_key_commits_once one_account five_debits [0; 0; 1; 1]%nat 0 1);
    [vm_compute; reflexivity|vm_compute; reflexivity|lia].
Defined.

End Races.

(** ** What the handlers answer *)

Module Http.

(** For a key the ledger does not have, a credit or a debit of an account
    that does not exist is answered 404 NOT_FOUND, and one of an account
    that is suspended or inactive is answered 500 INTERNAL_ERROR; neither
    writes to the database.  The account is the one the caller's id is
    read as, however it is written. *)
Theorem refused_accounts_by_status pg rt gen (uid : uuid_string) req w :
  find_transaction (transactions (store w)) (transactionId req) = None →
  (∀ u, users (store w) !! read_as uid = Some u → status u ≠ active) →
  let answer purpose :=
    match users (store w) !! read_as uid with
    | None => json_error 404 "NOT_FOUND" "User not found"
    | Some _ =>
        json_error 500 "INTERNAL_ERROR"
          ("Failed to process " +:+ purpose +:+ " transaction")
    end in
  (WalletController.creditUser pg rt gen uid req w).1 = answer "credit" ∧
  (WalletController.debitUser pg rt gen uid req w).1 = answer "debit" ∧
  store (WalletController.creditUser pg rt gen uid req w).2 = store w ∧
  store (WalletController.debitUser pg rt gen uid req w).2 = store w.
Proof.
  intros Hnew Hnot. simpl.
  unfold WalletController.creditUser, WalletController.debitUser, creditUser, debitUser.
  rewrite !(Service.credit_or_debit_new _ _ _ _ _ _ Hnew).
  unfold bind. rewrite Service.validateUserExists_run. cbn [store logged].
  destruct (users (store w) !! read_as uid) as [u|] eqn:Hu; [|done].
  destruct (decide (status u = active)) as [Hact|_]; [by destruct (Hnot u)|].
  by destruct (status u).
Qed.

(** Bob is suspended; nobody is account 7. *)
Lemma refused_accounts_by_status_witness :
  (WalletController.creditUser sample_pg_message (clock 5) (at_time 100 1000) 2
     request_k9 (fresh_world two_accounts)).1
  = json_error 500 "INTERNAL_ERROR" "Failed to process credit transaction" ∧
  (WalletController.debitUser sample_pg_message (clock 5) (at_time 100 1000) 7
     request_k9 (fresh_world two_accounts)).1
  = json_error 404 "NOT_FOUND" "User not found".
Proof.
  split.
  - refine (proj1 (refused_accounts_by_status sample_pg_message (clock 5)
                     (at_time 100 1000) 2 request_k9 (fresh_world two_accounts)
                     eq_refl _)).
    intros u Hu. vm_compute in Hu. injection Hu as <-. discriminate.
  - refine (proj1 (proj2 (refused_accounts_by_status sample_pg_message (clock 5)
                            (at_time 100 1000) 7 request_k9 (fresh_world two_accounts)
                            eq_refl _))).
    intros u Hu. vm_compute in Hu. discriminate.
Defined.

(** A debit of more than the account holds is answered 400
    INSUFFICIENT_FUNDS, and writes nothing. *)
Theorem overdraft_is_answered_400 pg rt gen (uid : uuid_string) req w u a :
  find_transaction (transactions (store w)) (transactionId req) = None →
  users (store w) !! read_as uid = Some u → status u = active →
  req_amount req = cents a →
  0 ≤ balance u → balance u < a → a < decimal_15_2_limit →
  (WalletController.debitUser pg rt gen uid req w).1
  = json_error 400 "INSUFFICIENT_FUNDS" "Insufficient funds" ∧
  store (WalletController.debitUser pg rt gen uid req w).2 = store w.
Proof.
  intros Hnew Hu Hact Hamt Hbal Hover Hfit.
  assert (∃ w', WalletController.debitUser pg rt gen uid req w
                = (json_error 400 "INSUFFICIENT_FUNDS" "Insufficient funds", w') ∧
                store w' = store w) as (w' & -> & Hst); [|done].
  unfold WalletController.debitUser, debitUser.
  rewrite (Service.credit_or_debit_new _ _ _ _ _ _ Hnew).
  unfold bind at 1. rewrite Service.validateUserExists_run.
  cbn [store logged].
  rewrite Hu. destruct (decide (status u = active)); [|done].
  unfold bind at 1. rewrite Hamt, Amounts.validateAmount_cents by lia.
  rewrite Service.createTransaction_run. cbn [store logged].
  rewrite (Engine.process_transaction_locked _ _ _ _ _ _ _ _ _ Hu). unfold atomically.
  assert (compute_new_balance debit (balance u) (cents a)
          = Err (raise_insufficient_funds (balance u) (cents a))) as Hnb.
  { simpl. unfold assign_decimal_15_2. rewrite Engine.round_minus_cents.
    assert (fits_decimal_15_2 (balance u - a) = true) as ->
      by (apply Engine.fits_decimal_15_2_spec; unfold decimal_15_2_limit in *; lia).
    simpl. by destruct (Z.ltb_spec (balance u - a) 0); [|lia]. }
  rewrite (Engine.process_locked_raise _ _ _ _ _ _ _ _ _ _ Hnb).
  change (translate_error (raise_insufficient_funds (balance u) (cents a)))
    with Insufficient_funds.
  eexists. split; reflexivity.
Qed.

(** Alice holds 50.25 and is debited 100.50. *)
Lemma overdraft_is_answered_400_witness :
  (WalletController.debitUser sample_pg_message (clock 5) (at_time 100 1000) 1
     request_k9 (fresh_world two_accounts)).1
  = json_error 400 "INSUFFICIENT_FUNDS" "Insufficient funds" ∧
  store (WalletController.debitUser sample_pg_message (clock 5) (at_time 100 1000) 1
           request_k9 (fresh_world two_accounts)).2
  = store (fresh_world two_accounts).
Proof.
  apply (overdraft_is_answered_400 sample_pg_message (clock 5) (at_time 100 1000) 1
           request_k9 (fresh_world two_accounts) alice 10050);
    [reflexivity|reflexivity|reflexivity|reflexivity|simpl; lia|simpl; lia|reflexivity].
Defined.

(** A key the ledger holds an entry under.  When the entry is of another
    account than the one the caller's id is read as, or the caller writes
    the id otherwise than PostgreSQL prints it, both handlers answer 409
    CONFLICT with 'Transaction ID belongs to a different user'.  When the
    entry is of that account and the id is written as PostgreSQL prints
    it, the handler of the other type of operation answers 409 CONFLICT
    with 'Transaction ID already used for a different operation type', and
    the handler of the entry's type answers 201 with the stored entry as it
    is read now.  Nothing is written in any case. *)
Theorem key_conflict_is_answered_409 pg rt gen (uid : uuid_string) req w e :
  find_transaction (transactions (store w)) (transactionId req) = Some e →
  (user_id e ≠ read_as uid ∨ as_printed uid = false →
   (WalletController.creditUser pg rt gen uid req w).1
   = json_error 409 "CONFLICT" "Transaction ID belongs to a different user" ∧
   (WalletController.debitUser pg rt gen uid req w).1
   = json_error 409 "CONFLICT" "Transaction ID belongs to a different user") ∧
  (user_id e = read_as uid → as_printed uid = true →
   (tx_type e ≠ credit →
    (WalletController.creditUser pg rt gen uid req w).1
    = json_error 409 "CONFLICT"
        "Transaction ID already used for a different operation type") ∧
   (tx_type e ≠ debit →
    (WalletController.debitUser pg rt gen uid req w).1
    = json_error 409 "CONFLICT"
        "Transaction ID already used for a different operation type") ∧
   (tx_type e = credit →
    (WalletController.creditUser pg rt gen uid req w).1
    = json 201 (convertNumericFields (new_Date rt 0) e)) ∧
   (tx_type e = debit →
    (WalletController.debitUser pg rt gen uid req w).1
    = json 201 (convertNumericFields (new_Date rt 0) e))) ∧
  store (WalletController.creditUser pg rt gen uid req w).2 = store w ∧
  store (WalletController.debitUser pg rt gen uid req w).2 = store w.
Proof.
  intros Hfound.
  unfold WalletController.creditUser, WalletController.debitUser, creditUser, debitUser.
  rewrite !(Service.credit_or_debit_found _ _ _ _ _ _ _ Hfound). simpl.
  unfold is_text_of. split; [|split].
  - intros [Hother|Htext].
    + destruct (N.eqb_spec (user_id e) (read_as uid)); [done|].
      by rewrite andb_false_r.
    + by rewrite Htext.
  - intros -> ->. rewrite N.eqb_refl. simpl.
    split_and!; intros Hty.
    + by rewrite bool_decide_eq_false_2.
    + by rewrite bool_decide_eq_false_2.
    + by rewrite bool_decide_eq_true_2.
    + by rewrite bool_decide_eq_true_2.
  - destruct (negb (as_printed uid && _)); [done|].
    by destruct (negb (bool_decide (tx_type e = credit))),
         (negb (bool_decide (tx_type e = debit))).
Qed.

(** "k1" is a credit of Alice: a credit of Bob under it and a credit of
    Alice with her id written without the hyphens are both told that the
    key belongs to a different user; a debit of Alice under it is told of
    the other type; a credit of Alice under it is answered with the
    stored entry, read at 5. *)
Lemma key_conflict_is_answered_409_witness :
  (WalletController.creditUser sample_pg_message (clock 5) (at_time 101 2000) 2
     request_k1 (fresh_world after_credit_k1)).1
  = json_error 409 "CONFLICT" "Transaction ID belongs to a different user" ∧
  (WalletController.creditUser sample_pg_message (clock 5) (at_time 101 2000)
     alice_without_hyphens request_k1 (fresh_world after_credit_k1)).1
  = json_error 409 "CONFLICT" "Transaction ID belongs to a different user" ∧
  (WalletController.debitUser sample_pg_message (clock 5) (at_time 101 2000) 1
     request_k1 (fresh_world after_credit_k1)).1
  = json_error 409 "CONFLICT"
      "Transaction ID already used for a different operation type" ∧
  (WalletController.creditUser sample_pg_message (clock 5) (at_time 101 2000) 1
     request_k1 (fresh_world after_credit_k1)).1
  = json 201 (convertNumericFields 5 credit_k1).
Proof.
  split_and!.
  - apply (key_conflict_is_answered_409 sample_pg_message (clock 5)
             (at_time 101 2000) 2 request_k1 (fresh_world after_credit_k1)
             credit_k1 eq_refl).
    left. vm_compute. discriminate.
  - apply (key_conflict_is_answered_409 sample_pg_message (clock 5)
             (at_time 101 2000) alice_without_hyphens request_k1
             (fresh_world after_credit_k1) credit_k1 eq_refl).
    by right.
  - apply (key_conflict_is_answered_409 sample_pg_message (clock 5)
             (at_time 101 2000) 1 request_k1 (fresh_world after_credit_k1)
             credit_k1 eq_refl); [reflexivity|reflexivity|].
    vm_compute. discriminate.
  - apply (key_conflict_is_answered_409 sample_pg_message (clock 5)
             (at_time 101 2000) 1 request_k1 (fresh_world after_credit_k1)
             credit_k1 eq_refl); reflexivity.
Defined.

End Http.

(** ** Amounts that are not numbers *)

Module NotANumber.

(** *** The code on decimals within the code on all values *)

Lemma any_database_lookup db uid :
  AnyNumber.users (any_database db) !! uid = any_user <$> users db !! uid.
Proof. apply lookup_fmap. Qed.

Lemma compute_new_balance_on_decimals ty cur amt :
  AnyNumber.compute_new_balance ty (AnyNumber.in_cents cur) (AnyNumber.decimal amt)
  = any_result any_db_error AnyNumber.in_cents (compute_new_balance ty cur amt).
Proof.
  destruct ty; simpl; unfold assign_decimal_15_2;
    destruct (fits_decimal_15_2 _); simpl; try reflexivity;
    destruct (_ <? 0); reflexivity.
Qed.

Lemma assign_on_decimals amt :
  AnyNumber.assign_decimal_15_2 (AnyNumber.decimal amt)
  = any_result any_db_error AnyNumber.in_cents (assign_decimal_15_2 amt).
Proof. simpl. unfold assign_decimal_15_2. by destruct (fits_decimal_15_2 _). Qed.

Lemma transactions_checks_on_decimals r :
  AnyNumber.transactions_checks (any_transaction r)
  = any_result any_db_error id (transactions_checks r).
Proof.
  unfold AnyNumber.transactions_checks, transactions_checks,
    AnyNumber.transaction_balance_consistency, transaction_balance_consistency.
  simpl.
  destruct (_ || _); simpl; [|done].
  destruct (0 <? amount r); simpl; [|done].
  destruct (0 <=? balance_after r); simpl; [|done].
  by destruct (0 <=? balance_before r).
Qed.

Lemma existsb_fmap {A B} (f : A → B) (p : B → bool) (l : list A) :
  existsb p (f <$> l) = existsb (p ∘ f) l.
Proof. induction l as [|a l IH]; csimpl; [done|]. by rewrite IH. Qed.

Lemma transactions_unique_on_decimals rows r :
  AnyNumber.transactions_unique (any_transaction <$> rows) (any_transaction r)
  = any_result any_db_error id (transactions_unique rows r).
Proof.
  unfold AnyNumber.transactions_unique, transactions_unique.
  rewrite !existsb_fmap. simpl.
  destruct (existsb _ rows); [done|].
  by destruct (existsb _ rows).
Qed.

Lemma process_transaction_on_decimals gen uid key ty amt d m db :
  AnyNumber.process_transaction gen uid key ty (AnyNumber.decimal amt) d m (any_database db)
  = (any_result any_db_error any_transaction (process_transaction gen uid key ty amt d m db).1,
     any_database (process_transaction gen uid key ty amt d m db).2).
Proof.
  unfold AnyNumber.process_transaction, process_transaction,
    AnyNumber.atomically, atomically,
    AnyNumber.process_transaction_body, process_transaction_body, process_locked,
    AnyNumber.select_balance_for_update, select_balance_for_update, bind, lift, ret.
  rewrite any_database_lookup.
  destruct (users db !! uid) as [u|] eqn:Hu; simpl; [|done].
  rewrite compute_new_balance_on_decimals.
  destruct (compute_new_balance ty (balance u) amt) as [nb|e]; simpl; [|done].
  unfold assign_decimal_15_2.
  destruct (fits_decimal_15_2 (round_to_cents amt)); simpl; [|done].
  unfold AnyNumber.insert_transaction, insert_transaction, bind, lift.
  change (AnyNumber.new_row gen uid (AnyNumber.in_cents (balance u)) key ty
            (AnyNumber.in_cents (round_to_cents amt)) (AnyNumber.in_cents nb) d m)
    with (any_transaction (new_row gen uid (balance u) key ty (round_to_cents amt) nb d m)).
  rewrite transactions_checks_on_decimals.
  destruct (transactions_checks _); simpl; [|done].
  rewrite transactions_unique_on_decimals.
  destruct (transactions_unique _ _); simpl; [|done].
  unfold AnyNumber.update_balance, update_balance. simpl.
  rewrite lookup_fmap, Hu. simpl.
  destruct (0 <=? nb); simpl; [|done].
  unfold any_database. simpl.
  by rewrite fmap_insert, fmap_app.
Qed.


Lemma find_fmap {A B} (f : A → B) (p : B → bool) (l : list A) :
  List.find p (f <$> l) = f <$> List.find (p ∘ f) l.
Proof.
  induction l as [|a l IH]; csimpl; [done|].
  destruct (p (f a)); [done|]. apply IH.
Qed.

Lemma getTransactionByTransactionId_on_decimals rt key w :
  AnyNumber.getTransactionByTransactionId rt key (any_database (store w))
  = (any_result any_service_error (fmap any_entry)
       (getTransactionByTransactionId rt key w).1,
     any_database (store (getTransactionByTransactionId rt key w).2)).
Proof.
  unfold AnyNumber.getTransactionByTransactionId, getTransactionByTransactionId,
    find_transaction, bind, query. simpl.
  rewrite find_fmap. simpl.
  by destruct (List.find _ (transactions (store w))).
Qed.

Lemma validateUserExists_on_decimals uid w :
  AnyNumber.validateUserExists uid (any_database (store w))
  = (any_result any_service_error id (validateUserExists uid w).1,
     any_database (store (validateUserExists uid w).2)).
Proof.
  unfold AnyNumber.validateUserExists, validateUserExists, getUserById, bind, query.
  simpl. rewrite lookup_fmap.
  destruct (users (store w) !! uid) as [u|]; simpl; [|done].
  by destruct (decide (status u = active)).
Qed.

Lemma validateAmount_on_decimals x db w :
  AnyNumber.validateAmount (AnyNumber.decimal x) db
  = (any_result any_service_error id (validateAmount x w).1, db).
Proof.
  unfold AnyNumber.validateAmount, validateAmount.
  change (AnyNumber.le_zero (AnyNumber.decimal x)) with (digits x <=? 0).
  change (AnyNumber.decimalPlaces (AnyNumber.decimal x)) with (decimalPlaces x).
  destruct (digits x <=? 0); [done|].
  by destruct (2 <? decimalPlaces x)%nat.
Qed.

Lemma createTransaction_on_decimals rt gen uid key ty amt d m w :
  AnyNumber.createTransaction rt gen uid key ty (AnyNumber.decimal amt) d m
    (any_database (store w))
  = any_outcome (createTransaction rt gen uid key ty amt d m w).
Proof.
  unfold AnyNumber.createTransaction, createTransaction, any_outcome, bind, query.
  simpl. rewrite process_transaction_on_decimals.
  destruct (process_transaction _ _ _ _ _ _ _ _) as [[row|e] db']; simpl; [done|].
  by destruct e.
Qed.

Lemma validateAmount_state x w : (validateAmount x w).2 = w.
Proof.
  unfold validateAmount. destruct (digits x <=? 0); [done|].
  by destruct (2 <? decimalPlaces x)%nat.
Qed.

Lemma credit_or_debit_on_decimals op rt gen uid req w :
  AnyNumber.credit_or_debit op rt gen uid (any_request req) (any_database (store w))
  = any_outcome (credit_or_debit op rt gen uid req w).
Proof.
  unfold AnyNumber.credit_or_debit, credit_or_debit, any_outcome, bind.
  change (AnyNumber.transactionId (any_request req)) with (transactionId req).
  change (AnyNumber.req_amount (any_request req)) with (AnyNumber.decimal (req_amount req)).
  rewrite getTransactionByTransactionId_on_decimals.
  destruct (getTransactionByTransactionId rt (transactionId req) w)
    as [[[existing|]|e] w1]; simpl; [| |done].
  - destruct (is_text_of (Transaction.userId existing) uid); simpl; [|done].
    by destruct (bool_decide (Transaction.type existing = op)).
  - rewrite validateUserExists_on_decimals.
    destruct (validateUserExists (read_as uid) w1) as [[[]|e] w2]; simpl; [|done].
    rewrite (validateAmount_on_decimals _ _ w2).
    pose proof (validateAmount_state (req_amount req) w2) as Hw.
    destruct (validateAmount (req_amount req) w2) as [[[]|e] w3];
      simpl in *; subst w3; [|done].
    apply createTransaction_on_decimals.
Qed.

Lemma processWager_on_decimals rt gen uid amt g m w :
  AnyNumber.processWager rt gen uid (AnyNumber.decimal amt) g m (any_database (store w))
  = any_outcome (processWager rt gen uid amt g m w).
Proof.
  unfold AnyNumber.processWager, processWager, any_outcome, bind.
  rewrite validateUserExists_on_decimals.
  destruct (validateUserExists uid w) as [[[]|e] w2]; simpl; [|done].
  apply createTransaction_on_decimals.
Qed.

Lemma processPayout_on_decimals rt gen uid amt g m w :
  AnyNumber.processPayout rt gen uid (AnyNumber.decimal amt) g m (any_database (store w))
  = any_outcome (processPayout rt gen uid amt g m w).
Proof.
  unfold AnyNumber.processPayout, processPayout, any_outcome, bind.
  rewrite validateUserExists_on_decimals.
  destruct (validateUserExists uid w) as [[[]|e] w2]; simpl; [|done].
  apply createTransaction_on_decimals.
Qed.


Lemma transactions_unique_unused gen key db r :
  AnyNumber.unused db gen key →
  AnyNumber.tx_id r = uuid_generate_v4 gen →
  AnyNumber.transaction_id r = key →
  AnyNumber.transactions_unique (AnyNumber.transactions db) r = Ok tt.
Proof.
  unfold AnyNumber.unused, AnyNumber.transactions_unique.
  rewrite <- Forall_forall. intros Hall -> ->.
  assert (existsb (λ r', (AnyNumber.tx_id r' =? uuid_generate_v4 gen)%N)
            (AnyNumber.transactions db) = false) as ->.
  { induction Hall as [|r' l [Hid _] _ IH]; simpl; [done|].
    rewrite IH. by apply N.eqb_neq in Hid as ->. }
  assert (existsb (λ r', String.eqb (AnyNumber.transaction_id r') key)
            (AnyNumber.transactions db) = false) as ->; [|done].
  induction Hall as [|r' l [_ Hkey] _ IH]; simpl; [done|].
  rewrite IH. by apply String.eqb_neq in Hkey as ->.
Qed.

Lemma find_unused gen key db :
  AnyNumber.unused db gen key →
  List.find (λ r, String.eqb (AnyNumber.transaction_id r) key) (AnyNumber.transactions db)
  = None.
Proof.
  unfold AnyNumber.unused. rewrite <- Forall_forall. induction 1 as [|r' l [_ Hkey] _ IH]; simpl; [done|].
  by apply String.eqb_neq in Hkey as ->.
Qed.

Lemma process_transaction_of_NaN gen uid key ty d m db u :
  AnyNumber.users db !! uid = Some u →
  AnyNumber.is_not_negative (AnyNumber.balance u) = true →
  AnyNumber.unused db gen key →
  let row := AnyNumber.new_row gen uid (AnyNumber.balance u) key ty
               AnyNumber.not_a_number AnyNumber.not_a_number d m in
  AnyNumber.process_transaction gen uid key ty AnyNumber.NaN d m db
  = (Ok row, AnyNumber.written db uid u row).
Proof.
  intros Hu Hb Hfresh row.
  unfold AnyNumber.process_transaction, AnyNumber.atomically,
    AnyNumber.process_transaction_body, AnyNumber.select_balance_for_update,
    bind, lift, ret.
  rewrite Hu.
  assert (AnyNumber.compute_new_balance ty (AnyNumber.balance u) AnyNumber.NaN
          = Ok AnyNumber.not_a_number) as ->.
  { by destruct ty, (AnyNumber.balance u). }
  cbn [AnyNumber.assign_decimal_15_2].
  unfold AnyNumber.insert_transaction, bind, lift. fold row.
  assert (AnyNumber.transactions_checks row = Ok tt) as ->.
  { unfold AnyNumber.transactions_checks, AnyNumber.transaction_balance_consistency.
    cbn [row AnyNumber.new_row AnyNumber.tx_type AnyNumber.amount
         AnyNumber.balance_after AnyNumber.balance_before].
    rewrite Hb. by destruct ty, (AnyNumber.balance u). }
  rewrite (transactions_unique_unused gen key) by done.
  unfold AnyNumber.update_balance. cbn [AnyNumber.users]. rewrite Hu.
  reflexivity.
Qed.

Lemma process_transaction_on_NaN gen uid key ty x d m db u :
  AnyNumber.users db !! uid = Some u →
  AnyNumber.balance u = AnyNumber.not_a_number →
  fits_decimal_15_2 (round_to_cents x) = true →
  0 < round_to_cents x →
  AnyNumber.unused db gen key →
  let row := AnyNumber.new_row gen uid AnyNumber.not_a_number key ty
               (AnyNumber.in_cents (round_to_cents x)) AnyNumber.not_a_number d m in
  AnyNumber.process_transaction gen uid key ty (AnyNumber.decimal x) d m db
  = (Ok row, AnyNumber.written db uid u row).
Proof.
  intros Hu Hb Hfits Hpos Hfresh row.
  unfold AnyNumber.process_transaction, AnyNumber.atomically,
    AnyNumber.process_transaction_body, AnyNumber.select_balance_for_update,
    bind, lift, ret.
  rewrite Hu, Hb.
  assert (AnyNumber.compute_new_balance ty AnyNumber.not_a_number (AnyNumber.decimal x)
          = Ok AnyNumber.not_a_number) as ->.
  { by destruct ty. }
  cbn [AnyNumber.assign_decimal_15_2]. rewrite Hfits.
  unfold AnyNumber.insert_transaction, bind, lift. fold row.
  assert (AnyNumber.transactions_checks row = Ok tt) as ->.
  { unfold AnyNumber.transactions_checks, AnyNumber.transaction_balance_consistency.
    cbn [row AnyNumber.new_row AnyNumber.tx_type AnyNumber.amount
         AnyNumber.balance_after AnyNumber.balance_before
         AnyNumber.is_positive AnyNumber.is_not_negative AnyNumber.added
         AnyNumber.subtracted AnyNumber.equal].
    apply Z.ltb_lt in Hpos as ->. by destruct ty. }
  rewrite (transactions_unique_unused gen key) by done.
  unfold AnyNumber.update_balance. cbn [AnyNumber.users]. rewrite Hu.
  reflexivity.
Qed.

Lemma validateUserExists_active uid u db :
  AnyNumber.users db !! uid = Some u →
  AnyNumber.status u = active →
  AnyNumber.validateUserExists uid db = (Ok tt, db).
Proof.
  intros Hu Hs. unfold AnyNumber.validateUserExists. rewrite Hu.
  by destruct (decide (AnyNumber.status u = active)).
Qed.


Lemma createTransaction_of_NaN rt gen uid key ty d m db u :
  AnyNumber.users db !! uid = Some u →
  AnyNumber.is_not_negative (AnyNumber.balance u) = true →
  AnyNumber.unused db gen key →
  let row := AnyNumber.new_row gen uid (AnyNumber.balance u) key ty
               AnyNumber.not_a_number AnyNumber.not_a_number (description_or_null d) m in
  AnyNumber.createTransaction rt gen uid key ty AnyNumber.NaN d m db
  = (Ok (AnyNumber.convertNumericFields (new_Date rt 0) row),
     AnyNumber.written db uid u row).
Proof.
  intros Hu Hb Hfresh row. unfold AnyNumber.createTransaction.
  by rewrite (process_transaction_of_NaN _ _ _ _ _ _ _ u).
Qed.

(** C4, where the code departs from it.  A balance does not stay a number
    that is 0 or more.  NaN passes
    [validateAmount], and [processWager] and [processPayout] validate no
    amount.  With NaN for the amount each of the four operations, on an
    active account and under an unused key, returns an entry whose amount
    and balance after are NaN, and the balance of the account is NaN from
    then on: NaN is equal to NaN and greater than every number for
    PostgreSQL, so every [CHECK] holds.  Once the balance is NaN,
    [process_transaction] accepts an amount of any type, a debit or a
    wager too, if only it is positive and fits the column, and the balance
    stays NaN: [new_balance < 0] is false. *)
Theorem a_balance_becomes_NaN (rt : runtime) (gen : row_defaults) (uid : uuid)
    (u : AnyNumber.user) (db : AnyNumber.database) :
  AnyNumber.users db !! uid = Some u →
  AnyNumber.status u = active →
  AnyNumber.is_not_negative (AnyNumber.balance u) = true →
  AnyNumber.validateAmount AnyNumber.NaN db = (Ok tt, db)
  ∧ (∀ game meta,
       let key := "wager_" +:+ uuidv4 rt +:+ "_" +:+ pretty (Date_now rt) in
       let row :=
         AnyNumber.new_row gen uid (AnyNumber.balance u) key wager
           AnyNumber.not_a_number AnyNumber.not_a_number
           (Some (match game with
                  | Some g => if decide (g = "") then "Game wager"
                              else "Wager for game " +:+ g
                  | None => "Game wager"
                  end))
           (Some (game_metadata game meta)) in
       AnyNumber.unused db gen key →
       AnyNumber.processWager rt gen uid AnyNumber.NaN game meta db
       = (Ok (AnyNumber.convertNumericFields (new_Date rt 0) row),
          AnyNumber.written db uid u row))
  ∧ (∀ game meta,
       let key := "payout_" +:+ uuidv4 rt +:+ "_" +:+ pretty (Date_now rt) in
       let row :=
         AnyNumber.new_row gen uid (AnyNumber.balance u) key payout
           AnyNumber.not_a_number AnyNumber.not_a_number
           (Some (match game with
                  | Some g => if decide (g = "") then "Game payout"
                              else "Payout for game " +:+ g
                  | None => "Game payout"
                  end))
           (Some (game_metadata game meta)) in
       AnyNumber.unused db gen key →
       AnyNumber.processPayout rt gen uid AnyNumber.NaN game meta db
       = (Ok (AnyNumber.convertNumericFields (new_Date rt 0) row),
          AnyNumber.written db uid u row))
  ∧ (∀ op (userId : uuid_string) request,
       let row :=
         AnyNumber.new_row gen uid (AnyNumber.balance u)
           (AnyNumber.transactionId request) op
           AnyNumber.not_a_number AnyNumber.not_a_number
           (description_or_null (AnyNumber.req_description request))
           (AnyNumber.req_metadata request) in
       read_as userId = uid →
       AnyNumber.req_amount request = AnyNumber.NaN →
       AnyNumber.unused db gen (AnyNumber.transactionId request) →
       AnyNumber.credit_or_debit op rt gen userId request db
       = (Ok (AnyNumber.convertNumericFields (new_Date rt 0) row),
          AnyNumber.written db uid u row))
  ∧ (∀ row,
       AnyNumber.balance_after row = AnyNumber.not_a_number →
       AnyNumber.balance_of (AnyNumber.written db uid u row) uid
       = Some AnyNumber.not_a_number)
  ∧ (AnyNumber.balance u = AnyNumber.not_a_number →
     ∀ key ty x d m,
       let row :=
         AnyNumber.new_row gen uid AnyNumber.not_a_number key ty
           (AnyNumber.in_cents (round_to_cents x)) AnyNumber.not_a_number d m in
       0 < round_to_cents x →
       fits_decimal_15_2 (round_to_cents x) = true →
       AnyNumber.unused db gen key →
       AnyNumber.process_transaction gen uid key ty (AnyNumber.decimal x) d m db
       = (Ok row, AnyNumber.written db uid u row)).
Proof.
  intros Hu Hs Hb. repeat split.
  - intros game meta key row Hfresh.
    unfold AnyNumber.processWager, bind.
    rewrite (validateUserExists_active _ u) by done. cbv beta iota.
    rewrite (createTransaction_of_NaN _ _ _ _ _ _ _ _ u) by done.
    subst row. by destruct game as [g|]; [destruct (decide (g = ""))|].
  - intros game meta key row Hfresh.
    unfold AnyNumber.processPayout, bind.
    rewrite (validateUserExists_active _ u) by done. cbv beta iota.
    rewrite (createTransaction_of_NaN _ _ _ _ _ _ _ _ u) by done.
    subst row. by destruct game as [g|]; [destruct (decide (g = ""))|].
  - intros op userId request row Hid Hamount Hfresh.
    unfold AnyNumber.credit_or_debit, bind, AnyNumber.getTransactionByTransactionId.
    rewrite (find_unused gen) by done. cbn [fmap option_fmap option_map].
    rewrite Hid, (validateUserExists_active _ u) by done. cbv beta iota.
    rewrite Hamount.
    change (AnyNumber.validateAmount AnyNumber.NaN db) with (@Ok AnyNumber.service_error _ tt, db).
    cbv beta iota. by rewrite (createTransaction_of_NaN _ _ _ _ _ _ _ _ u).
  - intros row Hrow. unfold AnyNumber.balance_of, AnyNumber.written.
    cbn [AnyNumber.users]. rewrite lookup_insert_eq. simpl. by rewrite Hrow.
  - intros Hnan key ty x d m row Hpos Hfits Hfresh.
    by apply process_transaction_on_NaN.
Qed.


Lemma a_balance_becomes_NaN_witness :
  let bet :=
    AnyNumber.new_row (at_time 101 1001) 1 (AnyNumber.in_cents 5025) "wager_0b5c_1001"
      wager AnyNumber.not_a_number AnyNumber.not_a_number (Some "Game wager") (Some ∅) in
  let lost := AnyNumber.set_balance (any_user alice) AnyNumber.not_a_number 1001 in
  let db1 := AnyNumber.written (any_database two_accounts) 1 (any_user alice) bet in
  let debit_of_a_million :=
    AnyNumber.new_row (at_time 102 1002) 1 AnyNumber.not_a_number "k2" debit
      (AnyNumber.in_cents 100000000) AnyNumber.not_a_number None None in
  AnyNumber.processWager (clock 1001) (at_time 101 1001) 1 AnyNumber.NaN None None
    (any_database two_accounts)
  = (Ok {| AnyNumber.Transaction.id := 101;
           AnyNumber.Transaction.userId := 1;
           AnyNumber.Transaction.transactionId := "wager_0b5c_1001";
           AnyNumber.Transaction.type := wager;
           AnyNumber.Transaction.amount := AnyNumber.not_a_number;
           AnyNumber.Transaction.balanceBefore := AnyNumber.in_cents 5025;
           AnyNumber.Transaction.balanceAfter := AnyNumber.not_a_number;
           AnyNumber.Transaction.description := Some "Game wager";
           AnyNumber.Transaction.metadata := Some ∅;
           AnyNumber.Transaction.processedAt := 1001;
           AnyNumber.Transaction.createdAt := ∅ |}, db1)
  ∧ AnyNumber.balance_of (any_database two_accounts) 1 = Some (AnyNumber.in_cents 5025)
  ∧ AnyNumber.balance_of db1 1 = Some AnyNumber.not_a_number
  ∧ AnyNumber.process_transaction (at_time 102 1002) 1 "k2" debit
      (AnyNumber.decimal (cents 100000000)) None None db1
    = (Ok debit_of_a_million, AnyNumber.written db1 1 lost debit_of_a_million)
  ∧ AnyNumber.balance_of (AnyNumber.written db1 1 lost debit_of_a_million) 1
    = Some AnyNumber.not_a_number.
Proof.
  intros bet lost db1 debit_of_a_million.
  assert (AnyNumber.unused (any_database two_accounts) (at_time 101 1001) "wager_0b5c_1001")
    as Hfresh.
  { intros r Hr. inversion Hr. }
  assert (AnyNumber.unused db1 (at_time 102 1002) "k2") as Hfresh1.
  { intros r Hr. apply list_elem_of_singleton in Hr as ->. by split. }
  destruct (a_balance_becomes_NaN (clock 1001) (at_time 101 1001) 1 (any_user alice)
              (any_database two_accounts) eq_refl eq_refl eq_refl)
    as (_ & Hwager & _ & _ & Hbalance & _).
  destruct (a_balance_becomes_NaN (clock 1002) (at_time 102 1002) 1 lost db1
              eq_refl eq_refl eq_refl)
    as (_ & _ & _ & _ & Hbalance1 & Hdebit).
  split; [exact (Hwager None None Hfresh)|].
  split; [reflexivity|].
  split; [exact (Hbalance bet eq_refl)|].
  split; [exact (Hdebit eq_refl "k2" debit (cents 100000000) None None eq_refl eq_refl Hfresh1)|].
  exact (Hbalance1 debit_of_a_million eq_refl).
Defined.


Lemma process_transaction_writes gen uid key ty v d m db :
  (AnyNumber.process_transaction gen uid key ty v d m db).2 = db
  ∨ ∃ u nb row,
      AnyNumber.users db !! uid = Some u
      ∧ AnyNumber.compute_new_balance ty (AnyNumber.balance u) v = Ok nb
      ∧ AnyNumber.is_not_negative nb = true
      ∧ (AnyNumber.process_transaction gen uid key ty v d m db).2
        = {| AnyNumber.users :=
               <[uid := AnyNumber.set_balance u nb (current_timestamp gen)]>
                 (AnyNumber.users db);
             AnyNumber.transactions := AnyNumber.transactions db ++ [row] |}.
Proof.
  unfold AnyNumber.process_transaction, AnyNumber.atomically,
    AnyNumber.process_transaction_body, AnyNumber.select_balance_for_update,
    bind, lift, ret.
  destruct (AnyNumber.users db !! uid) as [u|] eqn:Hu; [|by left].
  destruct (AnyNumber.compute_new_balance ty (AnyNumber.balance u) v) as [nb|e] eqn:Hnb;
    [|by left].
  destruct (AnyNumber.assign_decimal_15_2 v) as [stored|e]; [|by left].
  unfold AnyNumber.insert_transaction, bind, lift.
  destruct (AnyNumber.transactions_checks _); [|by left].
  destruct (AnyNumber.transactions_unique _ _); [|by left].
  unfold AnyNumber.update_balance. cbn [AnyNumber.users]. rewrite Hu.
  destruct (AnyNumber.is_not_negative nb) eqn:Hcheck; simpl; [|by left].
  right. by eexists u, nb, _.
Qed.

Lemma createTransaction_state rt gen uid key ty v d m db :
  (AnyNumber.createTransaction rt gen uid key ty v d m db).2
  = (AnyNumber.process_transaction gen uid key ty v (description_or_null d) m db).2.
Proof.
  unfold AnyNumber.createTransaction.
  by destruct (AnyNumber.process_transaction _ _ _ _ _ _ _ _) as [[row|e] db'].
Qed.

Lemma validateUserExists_state uid db : (AnyNumber.validateUserExists uid db).2 = db.
Proof.
  unfold AnyNumber.validateUserExists.
  destruct (AnyNumber.users db !! uid) as [u|]; [|done].
  by destruct (decide (AnyNumber.status u = active)).
Qed.

Lemma validateAmount_any_state v db : (AnyNumber.validateAmount v db).2 = db.
Proof.
  unfold AnyNumber.validateAmount. destruct (AnyNumber.le_zero v); [done|].
  by destruct (2 <? AnyNumber.decimalPlaces v)%nat.
Qed.

Lemma perform_state rt gen o db :
  (AnyNumber.perform rt gen o db).2 = db
  ∨ ∃ uid key ty d m,
      (AnyNumber.perform rt gen o db).2
      = (AnyNumber.process_transaction gen uid key ty (AnyNumber.operation_amount o) d m db).2.
Proof.
  assert (∀ op userId request,
            (AnyNumber.credit_or_debit op rt gen userId request db).2 = db
            ∨ ∃ uid key ty d m,
                (AnyNumber.credit_or_debit op rt gen userId request db).2
                = (AnyNumber.process_transaction gen uid key ty
                     (AnyNumber.req_amount request) d m db).2) as Hcd.
  { intros op userId request.
    unfold AnyNumber.credit_or_debit, bind, AnyNumber.getTransactionByTransactionId.
    destruct (List.find _ _) as [existing|]; cbn [fmap option_fmap option_map].
    - left. destruct (is_text_of _ _); [|done].
      by destruct (bool_decide _).
    - pose proof (validateUserExists_state (read_as userId) db) as Hv.
      destruct (AnyNumber.validateUserExists (read_as userId) db) as [[[]|e] db1];
        simpl in Hv; subst db1; [|by left].
      pose proof (validateAmount_any_state (AnyNumber.req_amount request) db) as Ha.
      destruct (AnyNumber.validateAmount _ db) as [[[]|e] db1];
        simpl in Ha; subst db1; [|by left].
      right. eexists _, _, _, _, _. apply createTransaction_state. }
  destruct o as [userId request|userId request|userId amount game meta
                 |userId amount game meta]; simpl.
  - apply Hcd.
  - apply Hcd.
  - unfold AnyNumber.processWager, bind.
    pose proof (validateUserExists_state userId db) as Hv.
    destruct (AnyNumber.validateUserExists userId db) as [[[]|e] db1];
      simpl in Hv; subst db1; [|by left].
    right. eexists _, _, _, _, _. apply createTransaction_state.
  - unfold AnyNumber.processPayout, bind.
    pose proof (validateUserExists_state userId db) as Hv.
    destruct (AnyNumber.validateUserExists userId db) as [[[]|e] db1];
      simpl in Hv; subst db1; [|by left].
    right. eexists _, _, _, _, _. apply createTransaction_state.
Qed.

Lemma compute_new_balance_number ty c v nb :
  AnyNumber.compute_new_balance ty (AnyNumber.in_cents c) v = Ok nb →
  v ≠ AnyNumber.NaN →
  ∃ c', nb = AnyNumber.in_cents c'.
Proof.
  intros Hnb Hv.
  assert (∀ w, w ≠ AnyNumber.NaN → ∀ d, AnyNumber.assign_decimal_15_2 w = Ok d →
               ∃ c', d = AnyNumber.in_cents c') as Hassign.
  { intros [x| | |] Hw d; simpl; try done.
    destruct (fits_decimal_15_2 _); [|done]. intros [= <-]. by eexists. }
  unfold AnyNumber.compute_new_balance in Hnb.
  destruct ty, v as [x| | |]; try done; simpl in Hnb;
    destruct (fits_decimal_15_2 _); try done; simpl in Hnb;
    try (destruct (_ <? 0); [done|]); inversion Hnb; by eexists.
Qed.

(** Only NaN costs a balance.  Whatever the amount, an operation leaves
    every balance as [CHECK (balance >= 0)] wants it, which NaN is too.
    When every balance is a number that is 0 or more and the amount is
    not NaN, and be it an infinity, every balance is still a number that
    is 0 or more after the operation, whether it returns or throws. *)
Theorem only_NaN_costs_a_balance (rt : runtime) (gen : row_defaults)
    (o : AnyNumber.operation) (db : AnyNumber.database) :
  (AnyNumber.balances_pass_the_check db →
   AnyNumber.balances_pass_the_check (AnyNumber.perform rt gen o db).2)
  ∧ (AnyNumber.balances_non_negative db →
     AnyNumber.operation_amount o ≠ AnyNumber.NaN →
     AnyNumber.balances_non_negative (AnyNumber.perform rt gen o db).2).
Proof.
  destruct (perform_state rt gen o db) as [->|(uid & key & ty & d & m & ->)];
    [by split|].
  destruct (process_transaction_writes gen uid key ty (AnyNumber.operation_amount o) d m db)
    as [->|(u & nb & row & Hu & Hnb & Hcheck & ->)]; [by split|].
  split.
  - intros Hdb id u'. cbn [AnyNumber.users].
    destruct (decide (id = uid)) as [->|Hne].
    + rewrite lookup_insert_eq. by intros [= <-].
    + rewrite lookup_insert_ne by done. apply Hdb.
  - intros Hdb Hv id u'. cbn [AnyNumber.users].
    destruct (decide (id = uid)) as [->|Hne].
    + rewrite lookup_insert_eq. intros [= <-]. simpl.
      destruct (Hdb _ _ Hu) as (c & Hc & _). rewrite Hc in Hnb.
      destruct (compute_new_balance_number _ _ _ _ Hnb Hv) as [c' ->].
      exists c'. split; [done|]. by apply Z.leb_le.
    + rewrite lookup_insert_ne by done. apply Hdb.
Qed.

Lemma any_database_balances db :
  balances_non_negative db → AnyNumber.balances_non_negative (any_database db).
Proof.
  intros Hdb id u. unfold any_database. cbn [AnyNumber.users].
  rewrite lookup_fmap. destruct (users db !! id) as [u0|] eqn:Hu; [|done].
  intros [= <-]. exists (balance u0). split; [done|]. by eapply Hdb.
Qed.

Lemma two_accounts_balances : balances_non_negative two_accounts.
Proof.
  apply (bool_decide_unpack (map_Forall (λ _ u, 0 ≤ balance u) (users two_accounts))).
  vm_compute. exact I.
Qed.

Lemma balances_non_negative_pass db :
  AnyNumber.balances_non_negative db → AnyNumber.balances_pass_the_check db.
Proof.
  intros Hdb id u Hu. destruct (Hdb id u Hu) as (c & -> & Hc). by apply Z.leb_le.
Qed.

(** Alice wagers Infinity, which is refused, and then NaN. *)
Lemma only_NaN_costs_a_balance_witness :
  AnyNumber.balances_non_negative (any_database two_accounts)
  ∧ AnyNumber.balances_non_negative
      (AnyNumber.perform (clock 1001) (at_time 101 1001)
         (AnyNumber.wager_op 1 AnyNumber.Infinity None None)
         (any_database two_accounts)).2
  ∧ AnyNumber.balances_pass_the_check
      (AnyNumber.perform (clock 1001) (at_time 101 1001)
         (AnyNumber.wager_op 1 AnyNumber.NaN None None)
         (any_database two_accounts)).2.
Proof.
  pose proof (any_database_balances _ two_accounts_balances) as H.
  split; [exact H|]. split.
  - exact (proj2 (only_NaN_costs_a_balance (clock 1001) (at_time 101 1001)
                    (AnyNumber.wager_op 1 AnyNumber.Infinity None None)
                    (any_database two_accounts)) H ltac:(discriminate)).
  - exact (proj1 (only_NaN_costs_a_balance (clock 1001) (at_time 101 1001)
                    (AnyNumber.wager_op 1 AnyNumber.NaN None None)
                    (any_database two_accounts)) (balances_non_negative_pass _ H)).
Defined.


End NotANumber.
